(** * Health plan comparison calculator (src/App.tsx)

    A shallow embedding of the plan catalog, the helper functions, the cost
    calculation ([calcResults]) and the input handlers of the React
    component [HealthPlanComparison], followed by the properties stated of
    them.

    TypeScript's [number] is an IEEE-754 binary64 value.  The code is written
    once, over an interface [Number] of the operations the source uses, and
    is read at two interpretations:

    - [Exact.t]: rationals extended with [NaN] and the two infinities, with
      unrounded arithmetic, the arithmetic in which the specification
      computes its figures;
    - [Binary64.t]: the binary64 numbers of the Standard Library's
      [SpecFloat], every operation rounded to nearest, ties to even, as the
      program runs.

    The concrete scenarios and the catalog facts are evaluated at both; the
    out-of-pocket cap and the monotonicity are proved at both. *)

From Stdlib Require Import ZArith QArith Qminmax Qabs Lqa Lia Bool List String.
From Stdlib Require Import SpecFloat.
Import ListNotations.

Set Implicit Arguments.

(** ** The operations of [number] used by the source *)

Class Number (num : Type) : Type := {
  (** a numeric literal of the source text, e.g. [81.23] or [0.2] *)
  lit : Q -> num;
  add : num -> num -> num;
  sub : num -> num -> num;
  mul : num -> num -> num;
  neg : num -> num;
  (** [x < y], [x <= y] and [x === y]; all three are false on [NaN] *)
  lt : num -> num -> bool;
  le : num -> num -> bool;
  strict_eq : num -> num -> bool;
  Math_min : num -> num -> num;
  Math_max : num -> num -> num;
  Math_abs : num -> num;
  Number_isFinite : num -> bool;
  (** ToBoolean: false exactly on zero and [NaN] *)
  truthy : num -> bool
}.

Declare Scope js_scope.
Delimit Scope js_scope with js.
Notation "x + y" := (add x y) : js_scope.
Notation "x - y" := (sub x y) : js_scope.
Notation "x * y" := (mul x y) : js_scope.
Notation "- x" := (neg x) : js_scope.
Notation "x < y" := (lt x y) : js_scope.
Notation "x <= y" := (le x y) : js_scope.
Notation "x > y" := (lt y x) : js_scope.
Notation "x >= y" := (le y x) : js_scope.
Notation "x === y" := (strict_eq x y) (at level 70, no associativity) : js_scope.
(** [x || y] on numbers: [x] when it is truthy, [y] otherwise *)
Notation "x '||' y" := (if truthy x then x else y) : js_scope.

(** ** Exact interpretation *)

Module Exact.

Inductive t : Type :=
| Fin (q : Q)
| Inf (negative : bool)
| NaN.

Definition Qlt_bool (p q : Q) : bool := negb (Qle_bool q p).

Definition add (x y : t) : t :=
  match x, y with
  | NaN, _ | _, NaN => NaN
  | Inf s, Inf s' => if Bool.eqb s s' then Inf s else NaN
  | Inf s, Fin _ | Fin _, Inf s => Inf s
  | Fin p, Fin q => Fin (p + q)
  end.

Definition neg (x : t) : t :=
  match x with
  | NaN => NaN
  | Inf s => Inf (negb s)
  | Fin p => Fin (- p)
  end.

Definition sub (x y : t) : t :=
  match x, y with
  | NaN, _ | _, NaN => NaN
  | Inf s, Inf s' => if Bool.eqb s s' then NaN else Inf s
  | Inf s, Fin _ => Inf s
  | Fin _, Inf s => Inf (negb s)
  | Fin p, Fin q => Fin (p - q)
  end.

Definition mul (x y : t) : t :=
  match x, y with
  | NaN, _ | _, NaN => NaN
  | Inf s, Inf s' => Inf (xorb s s')
  | Inf s, Fin p | Fin p, Inf s =>
      if Qeq_bool p 0 then NaN else Inf (xorb s (Qlt_bool p 0))
  | Fin p, Fin q => Fin (p * q)
  end.

Definition compare (x y : t) : option comparison :=
  match x, y with
  | NaN, _ | _, NaN => None
  | Inf s, Inf s' =>
      Some (match s, s' with
            | true, false => Lt
            | false, true => Gt
            | _, _ => Eq
            end)
  | Inf s, Fin _ => Some (if s then Lt else Gt)
  | Fin _, Inf s => Some (if s then Gt else Lt)
  | Fin p, Fin q => Some (p ?= q)
  end.

Definition lt (x y : t) : bool :=
  match compare x y with Some Lt => true | _ => false end.

Definition le (x y : t) : bool :=
  match compare x y with Some (Lt | Eq) => true | _ => false end.

Definition strict_eq (x y : t) : bool :=
  match compare x y with Some Eq => true | _ => false end.

Definition Math_min (x y : t) : t :=
  match compare x y with
  | None => NaN
  | Some Gt => y
  | Some _ => x
  end.

Definition Math_max (x y : t) : t :=
  match compare x y with
  | None => NaN
  | Some Lt => y
  | Some _ => x
  end.

Definition Math_abs (x : t) : t :=
  match x with
  | NaN => NaN
  | Inf _ => Inf false
  | Fin p => Fin (Qabs p)
  end.

Definition Number_isFinite (x : t) : bool :=
  match x with Fin _ => true | _ => false end.

Definition truthy (x : t) : bool :=
  match x with
  | NaN => false
  | Inf _ => true
  | Fin p => negb (Qeq_bool p 0)
  end.

End Exact.

#[export] Instance Exact_Number : Number Exact.t := {
  lit := Exact.Fin;
  add := Exact.add;
  sub := Exact.sub;
  mul := Exact.mul;
  neg := Exact.neg;
  lt := Exact.lt;
  le := Exact.le;
  strict_eq := Exact.strict_eq;
  Math_min := Exact.Math_min;
  Math_max := Exact.Math_max;
  Math_abs := Exact.Math_abs;
  Number_isFinite := Exact.Number_isFinite;
  truthy := Exact.truthy
}.

(** ** Binary64 interpretation *)

Module Binary64.

Definition t : Type := spec_float.

Definition prec : Z := 53.
Definition emax : Z := 1024.

Definition of_Z (z : Z) : t := binary_normalize prec emax z 0 false.

(** The binary64 number nearest to the decimal [q]: numerator and
    denominator of every literal of the source are below [2^53], hence
    exact, and the division rounds once. *)
Definition lit (q : Q) : t :=
  SFdiv prec emax (of_Z (Qnum q)) (of_Z (Zpos (Qden q))).

(** [Math.min]: [NaN] when an argument is; [-0] counts as below [+0]. *)
Definition Math_min (x y : t) : t :=
  match SFcompare x y with
  | None => S754_nan
  | Some Lt => x
  | Some Gt => y
  | Some Eq => match x with S754_zero true => x | _ => y end
  end.

Definition Math_max (x y : t) : t :=
  match SFcompare x y with
  | None => S754_nan
  | Some Lt => y
  | Some Gt => x
  | Some Eq => match x with S754_zero false => x | _ => y end
  end.

(** The values of [number]: mantissa in canonical form, exponent in range. *)
Definition is_binary64 (x : t) : bool := valid_binary prec emax x.

Definition Number_isFinite (x : t) : bool :=
  match x with
  | S754_zero _ | S754_finite _ _ _ => true
  | S754_infinity _ | S754_nan => false
  end.

Definition truthy (x : t) : bool :=
  match x with
  | S754_zero _ | S754_nan => false
  | S754_infinity _ | S754_finite _ _ _ => true
  end.

End Binary64.

#[export] Instance Binary64_Number : Number Binary64.t := {
  lit := Binary64.lit;
  add := SFadd Binary64.prec Binary64.emax;
  sub := SFsub Binary64.prec Binary64.emax;
  mul := SFmul Binary64.prec Binary64.emax;
  neg := SFopp;
  lt := SFltb;
  le := SFleb;
  strict_eq := SFeqb;
  Math_min := Binary64.Math_min;
  Math_max := Binary64.Math_max;
  Math_abs := SFabs;
  Number_isFinite := Binary64.Number_isFinite;
  truthy := Binary64.truthy
}.

(** ** Data (immutable) *)

(** [type Coverage = keyof typeof planData.traditional.costs] *)
Inductive Coverage : Type := employee | spouse | children | family.

(** [type DisplayMode = "monthly" | "pay"] *)
Inductive DisplayMode : Type := monthly_mode | pay_mode.

Definition Coverage_eqb (a b : Coverage) : bool :=
  match a, b with
  | employee, employee | spouse, spouse
  | children, children | family, family => true
  | _, _ => false
  end.

Section Calculator.

Context {num : Type} `{Number num}.
Local Open Scope js_scope.

(** One entry of [costs]: [{ monthly, pay }]. *)
Record Premium : Type := { monthly : num; pay : num }.

(** The two shapes of [details.deductible]; the source tells them apart by
    [d.employeeOnly !== undefined]. *)
Inductive Deductible : Type :=
| PersonFamily (person family : num)
| EmployeeOnlyTwoPlus (employeeOnly twoPlus : num).

Record OopMax : Type := { oop_person : num; oop_family : num }.

Record Details : Type := {
  deductible : Deductible;
  oopMax : OopMax;
  pharmacy : string
}.

(** [costs] and [hsaMatch] are objects with one entry per coverage. *)
Record Plan : Type := {
  name : string;
  costs : Coverage -> Premium;
  hsaMatch : Coverage -> num;
  details : Details
}.

Definition traditional : Plan := {|
  name := "SelectHealth Traditional";
  costs := fun c =>
    match c with
    | employee => {| monthly := lit 176; pay := lit 81.23 |}
    | spouse => {| monthly := lit 401; pay := lit 185.08 |}
    | children => {| monthly := lit 330; pay := lit 152.31 |}
    | family => {| monthly := lit 599; pay := lit 276.46 |}
    end;
  hsaMatch := fun c =>
    match c with
    | employee => lit 0 | spouse => lit 0 | children => lit 0 | family => lit 0
    end;
  details := {|
    deductible := PersonFamily (lit 750) (lit 2250);
    oopMax := {| oop_person := lit 3500; oop_family := lit 7000 |};
    pharmacy := "Tier 1: $15
Tier 2: $30
Tier 3: $60
Tier 4: 30%
No deductible needs to be met for this benefit"
  |}
|}.

Definition hdhpA : Plan := {|
  name := "SelectHealth HDHP Plan A";
  costs := fun c =>
    match c with
    | employee => {| monthly := lit 88; pay := lit 40.62 |}
    | spouse => {| monthly := lit 198; pay := lit 91.38 |}
    | children => {| monthly := lit 148; pay := lit 68.31 |}
    | family => {| monthly := lit 297; pay := lit 137.08 |}
    end;
  hsaMatch := fun c =>
    match c with
    | employee => lit 600 | spouse => lit 1200
    | children => lit 1200 | family => lit 1200
    end;
  details := {|
    deductible := EmployeeOnlyTwoPlus (lit 1700) (lit 3400);
    oopMax := {| oop_person := lit 3500; oop_family := lit 7000 |};
    pharmacy := "Tier 1: $10 AD
Tier 2: $25 AD
Tier 3: $45 AD
Tier 4: 30% AD
The deductible must be met first!"
  |}
|}.

Definition hdhpB : Plan := {|
  name := "SelectHealth HDHP Plan B";
  costs := fun c =>
    match c with
    | employee => {| monthly := lit 25; pay := lit 11.54 |}
    | spouse => {| monthly := lit 55; pay := lit 25.38 |}
    | children => {| monthly := lit 52; pay := lit 23.85 |}
    | family => {| monthly := lit 82; pay := lit 37.85 |}
    end;
  hsaMatch := fun c =>
    match c with
    | employee => lit 600 | spouse => lit 1200
    | children => lit 1200 | family => lit 1200
    end;
  details := {|
    deductible := EmployeeOnlyTwoPlus (lit 5000) (lit 10000);
    oopMax := {| oop_person := lit 6000; oop_family := lit 12000 |};
    pharmacy := "Tier 1: $10 AD
Tier 2: $25 AD
Tier 3: $45 AD
Tier 4: 30% AD
The deductible must be met first!"
  |}
|}.

Definition PLAN_ORDER : list Plan := [traditional; hdhpA; hdhpB].

(** ** Helpers *)

Definition coverageMaxHSA (coverage : Coverage) : num :=
  if Coverage_eqb coverage employee then lit 4400 else lit 8750.

Definition premiumFor (plan : Plan) (coverage : Coverage) (mode : DisplayMode) : num :=
  match mode with
  | monthly_mode => monthly (costs plan coverage)
  | pay_mode => pay (costs plan coverage)
  end.

(** [plan.hsaMatch[coverage] ?? 0]: every plan has an entry for every
    coverage, so the default of [??] is never taken. *)
Definition employerMatchFor (plan : Plan) (coverage : Coverage) : num :=
  hsaMatch plan coverage.

Record Thresholds : Type := { th_deductible : num; th_oopMax : num }.

Definition thresholdsFor (plan : Plan) (coverage : Coverage) : Thresholds :=
  let d := deductible (details plan) in
  let o := oopMax (details plan) in
  let deductible :=
    match d with
    | EmployeeOnlyTwoPlus d_employeeOnly d_twoPlus =>
        if Coverage_eqb coverage employee then d_employeeOnly else d_twoPlus
    | PersonFamily d_person d_family =>
        if Coverage_eqb coverage employee then d_person else d_family
    end in
  let oopMax :=
    if Coverage_eqb coverage employee then oop_person o else oop_family o in
  {| th_deductible := deductible; th_oopMax := oopMax |}.

Definition totalContributionIncludingMatch (matchCap employee : num) : num :=
  if matchCap <= lit 0 then employee
  else if employee >= matchCap then employee + matchCap
  else employee * lit 2.

(** ** Main component *)

(** [Math.max(planData.hdhpA.hsaMatch[coverage] || 0,
             planData.hdhpB.hsaMatch[coverage] || 0)] *)
Definition maxMatchForCoverage (coverage : Coverage) : num :=
  Math_max (hsaMatch hdhpA coverage || lit 0) (hsaMatch hdhpB coverage || lit 0).

Record Result : Type := {
  plan : Plan;
  annualEmployeePremiumCost : num;
  hsaBenefit : num;
  preDeductibleCost : num;
  postDeductibleCost : num;
  totalSpending : num
}.

Definition coinsuranceRate : num := lit 0.2.

(** The body of [PLAN_ORDER.map((plan) => ...)] in [calcResults]. *)
Definition calcPlan (coverage : Coverage)
    (dEmployeeContribution dExpectedSpend : num) (plan : Plan) : Result :=
  let '{| th_deductible := deductible; th_oopMax := oopMax |} :=
    thresholdsFor plan coverage in
  let annualEmployeePremiumCost := - (monthly (costs plan coverage) * lit 12) in
  let match_ := employerMatchFor plan coverage in
  let hsaBenefit := Math_min dEmployeeContribution match_ in
  let preDeductibleCost := - Math_min dExpectedSpend deductible in
  let postRaw :=
    if dExpectedSpend > deductible then
      let coinsurancePortion := (dExpectedSpend - deductible) * coinsuranceRate in
      let capPortion := Math_max (oopMax - deductible) (lit 0) in
      Math_min coinsurancePortion capPortion
    else lit 0 in
  let postDeductibleCost := - postRaw in
  let totalSpending :=
    annualEmployeePremiumCost + hsaBenefit + preDeductibleCost + postDeductibleCost in
  {| plan := plan;
     annualEmployeePremiumCost := annualEmployeePremiumCost;
     hsaBenefit := hsaBenefit;
     preDeductibleCost := preDeductibleCost;
     postDeductibleCost := postDeductibleCost;
     totalSpending := totalSpending |}.

Definition calcResults (coverage : Coverage)
    (dEmployeeContribution dExpectedSpend : num) : list Result :=
  map (calcPlan coverage dEmployeeContribution dExpectedSpend) PLAN_ORDER.

(** *** Component state and input handlers *)

(** The four [useState] cells. *)
Record State : Type := {
  coverage : Coverage;
  displayMode : DisplayMode;
  expectedSpend : num;
  employeeContribution : num
}.

Definition initialState : State := {|
  coverage := family;
  displayMode := pay_mode;
  expectedSpend := lit 0;
  employeeContribution := lit 0
|}.

Definition hsaMaxByCoverage (st : State) : num := coverageMaxHSA (coverage st).

Definition onSetContribution (st : State) (val : num) : State :=
  let n := if Number_isFinite val then val else lit 0 in
  {| coverage := coverage st;
     displayMode := displayMode st;
     expectedSpend := expectedSpend st;
     employeeContribution := Math_max (lit 0) (Math_min (hsaMaxByCoverage st) n) |}.

(** The [onChange] handlers of the four inputs.  The two numeric events
    carry [Number(e.target.value)]. *)
Inductive Event : Type :=
| CoverageChange (c : Coverage)
| DisplayModeChange (m : DisplayMode)
| ExpectedSpendChange (value : num)
| ContributionChange (value : num).

Definition handle (st : State) (ev : Event) : State :=
  match ev with
  | CoverageChange c =>
      {| coverage := c;
         displayMode := displayMode st;
         expectedSpend := expectedSpend st;
         employeeContribution := employeeContribution st |}
  | DisplayModeChange m =>
      {| coverage := coverage st;
         displayMode := m;
         expectedSpend := expectedSpend st;
         employeeContribution := employeeContribution st |}
  | ExpectedSpendChange value =>
      {| coverage := coverage st;
         displayMode := displayMode st;
         expectedSpend := value;
         employeeContribution := employeeContribution st |}
  | ContributionChange value => onSetContribution st value
  end.

Definition run (evs : list Event) (st : State) : State := fold_left handle evs st.

(** What a render passes to the cost calculation: the current coverage and
    the two numbers of the state (the deferred values [dExpectedSpend] and
    [dEmployeeContribution] once they have caught up). *)
Definition render (st : State) : list Result :=
  calcResults (coverage st) (employeeContribution st) (expectedSpend st).

End Calculator.

Arguments Premium : clear implicits.
Arguments Deductible : clear implicits.
Arguments OopMax : clear implicits.
Arguments Details : clear implicits.
Arguments Plan : clear implicits.
Arguments Thresholds : clear implicits.
Arguments Result : clear implicits.
Arguments State : clear implicits.
Arguments Event : clear implicits.


(** ** Text, summary line and keys of the component *)

Section View.

Context {num : Type} `{Number num}.

(** [currency] formats through [toLocaleString] in the locale of the
    browser; it is taken as a parameter. *)
Variable currency : num -> string.

Definition deductibleText (plan : Plan num) : string :=
  match deductible (details plan) with
  | EmployeeOnlyTwoPlus d_employeeOnly d_twoPlus =>
      ("Employee Only " ++ currency d_employeeOnly ++ "
2+ Enrollees " ++ currency d_twoPlus)%string
  | PersonFamily d_person d_family =>
      ("Person " ++ currency d_person ++ "
Family " ++ currency d_family)%string
  end.

Definition oopText (plan : Plan num) : string :=
  let o := oopMax (details plan) in
  ("Person " ++ currency (oop_person o) ++ "
Family " ++ currency (oop_family o))%string.

(** The number that [totalInclMatchDisplay] formats, in a render of [st]. *)
Definition totalInclMatch (st : State num) : num :=
  totalContributionIncludingMatch (maxMatchForCoverage (coverage st))
                                  (employeeContribution st).

Definition totalInclMatchDisplay (st : State num) : string :=
  currency (totalInclMatch st).

(** The keys of the cells of one table row,
    [PLAN_ORDER.map((p) => <td key={p.name + suffix}>)], and of one row of
    the calculated costs,
    [calcResults.map(({ plan: p }) => <td key={p.name + suffix}>)]. *)
Definition planKeys (suffix : string) : list string :=
  map (fun p : Plan num => (name p ++ suffix)%string) PLAN_ORDER.

Definition resultKeys (suffix : string) (st : State num) : list string :=
  map (fun r : Result num => (name (plan r) ++ suffix)%string) (render st).

End View.
Unset Implicit Arguments.

(** * Notions of the specification *)

Section Specification.

Context {num : Type} `{Number num}.
Local Open Scope js_scope.

(** The threshold selection as the specification words it: by the shape of
    the plan's deductible, then by whether the tier is [employee]. *)
Definition effectiveDeductible (plan : Plan num) (tier : Coverage) : num :=
  match deductible (details plan), tier with
  | EmployeeOnlyTwoPlus d_employeeOnly _, employee => d_employeeOnly
  | EmployeeOnlyTwoPlus _ d_twoPlus, _ => d_twoPlus
  | PersonFamily d_person _, employee => d_person
  | PersonFamily _ d_family, _ => d_family
  end.

Definition effectiveOutOfPocketMax (plan : Plan num) (tier : Coverage) : num :=
  match tier with
  | employee => oop_person (oopMax (details plan))
  | _ => oop_family (oopMax (details plan))
  end.

(** [|preDeductibleCost| + |postDeductibleCost|] of one result row. *)
Definition outOfPocket (r : Result num) : num :=
  Math_abs (preDeductibleCost r) + Math_abs (postDeductibleCost r).

(** Both thresholds selected for [coverage] are finite numbers. *)
Definition finiteThresholds (plan : Plan num) (coverage : Coverage) : bool :=
  Number_isFinite (th_deductible (thresholdsFor plan coverage))
  && Number_isFinite (th_oopMax (thresholdsFor plan coverage)).

(** [plan] with every stored per-pay-period figure replaced by [f]. *)
Definition withPay (f : Coverage -> num) (plan : Plan num) : Plan num :=
  {| name := name plan;
     costs := fun c => {| monthly := monthly (costs plan c); pay := f c |};
     hsaMatch := hsaMatch plan;
     details := details plan |}.

(** The deductible does not exceed the out-of-pocket maximum, so that
    [capPortion] is [oopMax - deductible], non-negative, as if there were
    no [Math.max(_, 0)]. *)
Definition capGuardIdle (plan : Plan num) (coverage : Coverage) : Prop :=
  let t := thresholdsFor plan coverage in
  (th_deductible t <= th_oopMax t) = true
  /\ (lit 0 <= th_oopMax t - th_deductible t) = true
  /\ Math_max (th_oopMax t - th_deductible t) (lit 0)
     = th_oopMax t - th_deductible t.

(** The numbers of a state are finite, the spend is not negative and the
    contribution lies in [[0, coverageMaxHSA coverage]] for the state's own
    coverage: what the calculation expects of a render. *)
Definition inRange (st : State num) : bool :=
  Number_isFinite (expectedSpend st)
  && (lit 0 <= expectedSpend st)
  && Number_isFinite (employeeContribution st)
  && (lit 0 <= employeeContribution st)
  && (employeeContribution st <= coverageMaxHSA (coverage st)).

End Specification.

(** The coinsurance share above the deductible [d], capped by the
    out-of-pocket maximum [o], as a rational function of the spend [q]. *)
Definition postRawQ (d o q : Q) : Q :=
  if Exact.Qlt_bool d q then Qmin ((q - d) * 0.2) (Qmax (o - d) 0) else 0.

(** [|pre| + |post|] as a rational function of the spend [q]. *)
Definition outOfPocketQ (d o q : Q) : Q :=
  Qabs (- Qmin q d) + Qabs (- postRawQ d o q).


(** ** Further notions *)

Section MoreNotions.

Context {num : Type} `{Number num}.
Local Open Scope js_scope.

(** The spend from which the coinsurance reaches the cap:
    [deductible + (oopMax - deductible) * 5]. *)
Definition saturationSpend (plan : Plan num) (coverage : Coverage) : num :=
  let t := thresholdsFor plan coverage in
  th_deductible t + (th_oopMax t - th_deductible t) * lit 5.

(** The labels that [deductibleText] puts before the two amounts. *)
Definition deductibleLabels (plan : Plan num) : string * string :=
  match deductible (details plan) with
  | EmployeeOnlyTwoPlus _ _ => ("Employee Only ", "2+ Enrollees ")
  | PersonFamily _ _ => ("Person ", "Family ")
  end%string.

(** The stored contribution is a finite number within
    [[0, coverageMaxHSA coverage]] for the state's own coverage. *)
Definition contributionInRange (st : State num) : bool :=
  Number_isFinite (employeeContribution st)
  && (lit 0 <= employeeContribution st)
  && (employeeContribution st <= coverageMaxHSA (coverage st)).

(** The event selects the coverage [employee]. *)
Definition selectsEmployee (ev : Event num) : bool :=
  match ev with
  | CoverageChange employee => true
  | _ => false
  end.

End MoreNotions.

(** The numbers that the two numeric inputs of an event list carry are
    binary64 numbers. *)
Definition binary64Event (ev : Event Binary64.t) : bool :=
  match ev with
  | ExpectedSpendChange v | ContributionChange v => Binary64.is_binary64 v
  | _ => true
  end.
(** ** Rounding to binary64 *)

Module Rounding.

Local Open Scope Z_scope.

(** A non-negative binary64 number is measured by [ord], an integer count of
    units [2^-bias]; [bias] is twice 1074, so that the exact product of two
    numbers is a whole count too.  [RN] rounds a count to nearest, ties to
    even, on the grid of the binade it lies in, and [rnd] adds the overflow
    to infinity. *)
Definition bias : Z := 2148.

(** [W / G] rounded to the nearest integer, ties to even. *)
Definition rne_div (W G : Z) : Z :=
  let q := W / G in
  match 2 * (W mod G) ?= G with
  | Lt => q
  | Gt => q + 1
  | Eq => if Z.even q then q else q + 1
  end.

(** [fexp] of [SpecFloat] at precision 53 and [emax = 1024]. *)
Definition fexp64 (e : Z) : Z := Z.max (e - 53) (-1074).

(** The exponent, plus [bias], of the grid around a positive count [W]. *)
Definition gexp (W : Z) : Z := fexp64 (Z.log2 W + 1 - bias) + bias.

Definition RN (W : Z) : Z := 2 ^ gexp W * rne_div W (2 ^ gexp W).

(** [mrs] is [M] shifted right by [n] bits: [shr_m] the quotient, the round
    and sticky bits the position of the remainder against the half. *)
Definition shr_inv (M n : Z) (mrs : shr_record) : Prop :=
  let rem := M - shr_m mrs * 2 ^ n in
  0 <= shr_m mrs
  /\ 0 <= rem < 2 ^ n
  /\ loc_of_shr_record mrs
     = if rem =? 0 then loc_Exact else loc_Inexact (2 * rem ?= 2 ^ n).

(** The count that stands for [+Infinity]: [2^1024]. *)
Definition INF : Z := 2 ^ (Binary64.emax + bias).

Definition ord (x : spec_float) : Z :=
  match x with
  | S754_zero _ => 0
  | S754_finite _ m e => Zpos m * 2 ^ (e + bias)
  | S754_infinity _ => INF
  | S754_nan => 0
  end.

(** Zero of either sign, a positive number or [+Infinity]. *)
Definition nonneg (x : spec_float) : bool :=
  match x with
  | S754_zero _ => true
  | S754_finite s _ _ => negb s
  | S754_infinity s => negb s
  | S754_nan => false
  end.

(** A non-negative binary64 number. *)
Definition wf (x : spec_float) : Prop :=
  nonneg x = true /\ valid_binary Binary64.prec Binary64.emax x = true.

(** Rounding, with overflow to infinity. *)
Definition rnd (W : Z) : Z := Z.min (RN W) INF.

(** The rounded product of two counts, as a count. *)
Definition mulv (a c : Z) : Z :=
  if a =? INF then INF else rnd (a * c / 2 ^ bias).

(** [capPortion] of [calcPlan] for the thresholds [d] and [o] *)
Definition capPortion (d o : Binary64.t) : Binary64.t :=
  Math_max (sub o d) (lit 0).

(** Thresholds as the catalog has them: binary64 numbers, the deductible
    positive and finite, and [deductible + capPortion <= oopMax]. *)
Definition thresholds_ok (d o : Binary64.t) : bool :=
  nonneg d && Binary64.is_binary64 d
  && match d with S754_finite _ _ _ => true | _ => false end
  && nonneg o && Binary64.is_binary64 o
  && nonneg (capPortion d o) && Binary64.is_binary64 (capPortion d o)
  && (ord d + ord (capPortion d o) <=? ord o).

(** [|pre| + |post|] as a function of the spend [a], all in units
    [2^-bias]: [d] the deductible, [cap] the cap portion. *)
Definition outOfPocketZ (d cap a : Z) : Z :=
  if d <? a
  then rnd (d + Z.min (mulv (rnd (a - d)) (ord (Binary64.lit 0.2))) cap)
  else a.

(** The count of [postDeductibleCost], without its sign. *)
Definition postZ (d cap a : Z) : Z :=
  if d <? a then Z.min (mulv (rnd (a - d)) (ord (Binary64.lit 0.2))) cap else 0.

(** The signed count of a binary64 number: [ord] with the sign. *)
Definition sval (x : spec_float) : Z :=
  match x with
  | S754_finite true _ _ | S754_infinity true => - ord x
  | _ => ord x
  end.

(** A binary64 number of either sign, [NaN] apart. *)
Definition swf (x : spec_float) : Prop := wf (SFabs x).

(** Rounding of a signed count, symmetric around zero. *)
Definition srnd (W : Z) : Z := if W <? 0 then - rnd (- W) else rnd W.

(** The signed count of [totalSpending]: [A] the count of the annual
    premium cost, [m] of the employer match, [d] of the deductible, [cap] of
    the cap portion, [c] of the contribution and [s] of the spend. *)
Definition totalZ (A m d cap c s : Z) : Z :=
  srnd (srnd (srnd (A + Z.min c m) - Z.min s d) - postZ d cap s).

End Rounding.

(** The saturation spend of the catalog is a non-negative finite binary64
    number, and at it the out-of-pocket total is the out-of-pocket
    maximum. *)
Definition saturation_ok (plan : Plan Binary64.t) (coverage : Coverage) : bool :=
  let s0 := saturationSpend plan coverage in
  Rounding.nonneg s0 && Binary64.is_binary64 s0 && Number_isFinite s0
  && strict_eq (outOfPocket (calcPlan coverage (lit 0) s0 plan))
               (th_oopMax (thresholdsFor plan coverage)).

(** The figures of a row of the catalog, as binary64 numbers: the annual
    premium cost is a finite number within [[-8192, 0]], the employer match
    a number within [[0, 8192]], the two thresholds are at most 16384; the
    rounded difference [annual premium cost - oopMax] is a number at most
    the total at contribution 0 once the cap is reached, and the rounded sum
    [annual premium cost + match] a number at least the total at spend 0
    with the whole match. *)
Definition row_ok (plan : Plan Binary64.t) (coverage : Coverage) : bool :=
  let A := (- (monthly (costs plan coverage) * lit 12))%js in
  let m := employerMatchFor plan coverage in
  let d := th_deductible (thresholdsFor plan coverage) in
  let o := th_oopMax (thresholdsFor plan coverage) in
  let cap := Rounding.ord (Rounding.capPortion d o) in
  let lo := (A - o)%js in
  let hi := (A + m)%js in
  (Binary64.is_binary64 A && Number_isFinite A
   && (Rounding.sval A <=? 0) && (- Rounding.ord (Binary64.lit 8192) <=? Rounding.sval A)
   && Rounding.nonneg m && Binary64.is_binary64 m
   && (Rounding.ord m <=? Rounding.ord (Binary64.lit 8192))
   && (Rounding.ord d <=? Rounding.ord (Binary64.lit 16384))
   && (Rounding.ord o <=? Rounding.ord (Binary64.lit 16384))
   && Rounding.nonneg (SFabs lo) && Binary64.is_binary64 (SFabs lo)
   && (Rounding.sval lo
       <=? Rounding.totalZ (Rounding.sval A) (Rounding.ord m) (Rounding.ord d) cap
             0 Rounding.INF)
   && Rounding.nonneg (SFabs hi) && Binary64.is_binary64 (SFabs hi)
   && (Rounding.totalZ (Rounding.sval A) (Rounding.ord m) (Rounding.ord d) cap
         (Rounding.ord m) 0
       <=? Rounding.sval hi))%Z.

(** At the saturation spend of a row of the catalog, a non-negative finite
    binary64 number, the rounded coinsurance portion is at most the cap
    portion. *)
Definition coinsurance_ok (plan : Plan Binary64.t) (coverage : Coverage) : bool :=
  let s0 := saturationSpend plan coverage in
  let d := th_deductible (thresholdsFor plan coverage) in
  let o := th_oopMax (thresholdsFor plan coverage) in
  Rounding.nonneg s0 && Binary64.is_binary64 s0 && Number_isFinite s0
  && ((s0 - d) * coinsuranceRate <= Rounding.capPortion d o)%js.

(** * Properties *)

(** ** Facts about the exact interpretation *)

Module ExactFacts.

Import Exact.

Lemma compare_Fin (p q : Q) : compare (Fin p) (Fin q) = Some (p ?= q).
Proof. reflexivity. Qed.

Lemma le_Fin (p q : Q) : le (Fin p) (Fin q) = true <-> p <= q.
Proof.
  unfold le. rewrite compare_Fin.
  destruct (Qcompare_spec p q) as [E | L | G]; split; intros; try easy.
  - rewrite E. apply Qle_refl.
  - now apply Qlt_le_weak.
  - exfalso. apply (Qlt_irrefl p). now apply Qle_lt_trans with q.
Qed.

Lemma lt_Fin (p q : Q) : lt (Fin p) (Fin q) = true <-> p < q.
Proof.
  unfold lt. rewrite compare_Fin.
  destruct (Qcompare_spec p q) as [E | L | G]; split; intros; try easy.
  - exfalso. rewrite E in *. now apply (Qlt_irrefl q).
  - exfalso. apply (Qlt_irrefl p). now apply Qlt_trans with q.
Qed.

Lemma Qlt_bool_iff (p q : Q) : Qlt_bool p q = true <-> p < q.
Proof.
  unfold Qlt_bool. rewrite negb_true_iff, <- not_true_iff_false, Qle_bool_iff.
  split; [apply Qnot_le_lt | apply Qlt_not_le].
Qed.

Lemma lt_Fin_bool (p q : Q) : lt (Fin p) (Fin q) = Qlt_bool p q.
Proof. apply eq_true_iff_eq. now rewrite lt_Fin, Qlt_bool_iff. Qed.

Lemma Math_min_Fin (p q : Q) : Math_min (Fin p) (Fin q) = Fin (Qmin p q).
Proof.
  unfold Math_min, Qmin, GenericMinMax.gmin. rewrite compare_Fin.
  now destruct (p ?= q).
Qed.

Lemma Math_max_Fin (p q : Q) : Math_max (Fin p) (Fin q) = Fin (Qmax p q).
Proof.
  unfold Math_max, Qmax, GenericMinMax.gmax. rewrite compare_Fin.
  now destruct (p ?= q).
Qed.

Lemma isFinite_Fin (x : t) : Number_isFinite x = true -> exists q, x = Fin q.
Proof. destruct x; try discriminate. now exists q. Qed.

End ExactFacts.

(** ** The out-of-pocket total on rationals *)

Module OutOfPocketFacts.

Import ExactFacts.

Lemma postRawQ_nonneg (d o q : Q) : 0 <= postRawQ d o q.
Proof.
  unfold postRawQ. destruct (Exact.Qlt_bool d q) eqn:E; [| apply Qle_refl].
  apply Qlt_bool_iff in E.
  destruct (Q.min_spec ((q - d) * 0.2) (Qmax (o - d) 0)) as [[_ ->] | [_ ->]].
  - lra.
  - apply Q.le_max_r.
Qed.

Lemma postRawQ_le_cap (d o q : Q) : d <= o -> postRawQ d o q <= o - d.
Proof.
  intros Hdo. unfold postRawQ. destruct (Exact.Qlt_bool d q); [| lra].
  eapply Qle_trans; [apply Q.le_min_r |].
  destruct (Q.max_spec (o - d) 0) as [[_ ->] | [_ ->]]; lra.
Qed.

Lemma postRawQ_monotone (d o q1 q2 : Q) :
  q1 <= q2 -> postRawQ d o q1 <= postRawQ d o q2.
Proof.
  intros Hq. unfold postRawQ.
  destruct (Exact.Qlt_bool d q1) eqn:E1.
  - apply Qlt_bool_iff in E1.
    assert (E2 : Exact.Qlt_bool d q2 = true) by (apply Qlt_bool_iff; lra).
    rewrite E2. apply Q.min_le_compat_r. lra.
  - apply (postRawQ_nonneg d o q2).
Qed.

Lemma abs_postRawQ (d o q : Q) : Qabs (- postRawQ d o q) == postRawQ d o q.
Proof. rewrite Qabs_opp. apply Qabs_pos, postRawQ_nonneg. Qed.

Lemma outOfPocketQ_le_oopMax (d o q : Q) :
  0 <= q -> 0 <= d -> d <= o -> outOfPocketQ d o q <= o.
Proof.
  intros Hq Hd Hdo. unfold outOfPocketQ. rewrite abs_postRawQ, Qabs_opp.
  assert (Hmin : 0 <= Qmin q d) by now apply Q.min_glb.
  rewrite (Qabs_pos _ Hmin).
  pose proof (postRawQ_le_cap d o q Hdo) as Hcap.
  assert (Hle : Qmin q d <= d) by apply Q.le_min_r.
  unfold postRawQ in *. destruct (Exact.Qlt_bool d q); lra.
Qed.

Lemma abs_min_monotone (d q1 q2 : Q) :
  0 <= q1 -> q1 <= q2 -> Qabs (Qmin q1 d) <= Qabs (Qmin q2 d).
Proof.
  intros H0 H12.
  destruct (Qlt_le_dec d 0) as [Hneg | Hpos].
  - assert (E1 : Qmin q1 d == d) by (apply Q.min_r; lra).
    assert (E2 : Qmin q2 d == d) by (apply Q.min_r; lra).
    rewrite E1, E2. apply Qle_refl.
  - assert (0 <= Qmin q1 d) by (apply Q.min_glb; lra).
    assert (0 <= Qmin q2 d) by (apply Q.min_glb; lra).
    rewrite !Qabs_pos by assumption.
    now apply Q.min_le_compat_r.
Qed.

Lemma outOfPocketQ_monotone (d o q1 q2 : Q) :
  0 <= q1 -> q1 <= q2 -> outOfPocketQ d o q1 <= outOfPocketQ d o q2.
Proof.
  intros H0 H12. unfold outOfPocketQ. rewrite !abs_postRawQ, !Qabs_opp.
  apply Qplus_le_compat.
  - now apply abs_min_monotone.
  - now apply postRawQ_monotone.
Qed.

End OutOfPocketFacts.

(** ** The cost calculation at the exact interpretation *)

Section ExactCalculation.

Import ExactFacts.
Local Open Scope js_scope.

Variables (plan : Plan Exact.t) (coverage : Coverage) (d o : Q).
Hypothesis thresholds :
  thresholdsFor plan coverage
  = {| th_deductible := Exact.Fin d; th_oopMax := Exact.Fin o |}.

Lemma preDeductibleCost_exact (c : Exact.t) (q : Q) :
  preDeductibleCost (calcPlan coverage c (Exact.Fin q) plan)
  = Exact.Fin (- Qmin q d).
Proof.
  unfold calcPlan. rewrite thresholds.
  cbn [preDeductibleCost Math_min neg Exact_Number].
  now rewrite Math_min_Fin.
Qed.

Lemma postDeductibleCost_exact (c : Exact.t) (q : Q) :
  postDeductibleCost (calcPlan coverage c (Exact.Fin q) plan)
  = Exact.Fin (- postRawQ d o q).
Proof.
  unfold calcPlan. rewrite thresholds.
  cbn [postDeductibleCost Math_min Math_max neg lt sub mul lit Exact_Number
       coinsuranceRate].
  rewrite lt_Fin_bool. unfold postRawQ.
  destruct (Exact.Qlt_bool d q); [| reflexivity].
  cbn [Exact.sub Exact.mul]. now rewrite Math_max_Fin, Math_min_Fin.
Qed.

Lemma outOfPocket_exact (c : Exact.t) (q : Q) :
  outOfPocket (calcPlan coverage c (Exact.Fin q) plan)
  = Exact.Fin (outOfPocketQ d o q).
Proof.
  unfold outOfPocket. now rewrite preDeductibleCost_exact, postDeductibleCost_exact.
Qed.

End ExactCalculation.

(** ** Rounding to nearest, ties to even *)

Module RoundingFacts.

Import Rounding.
Local Open Scope Z_scope.

(** *** Rounding a quotient to the nearest integer *)

Lemma rne_div_bounds (W G : Z) :
  0 < G -> W / G <= rne_div W G <= W / G + 1.
Proof.
  intros HG. unfold rne_div.
  destruct (2 * (W mod G) ?= G); [destruct (Z.even (W / G)) | |]; lia.
Qed.

Lemma rne_div_exact (a G : Z) : 0 < G -> rne_div (a * G) G = a.
Proof.
  intros HG. unfold rne_div.
  rewrite Z.mod_mul, Z.div_mul by lia.
  change (2 * 0) with 0. destruct (Z.compare_spec 0 G); lia.
Qed.

Lemma rne_div_mono (W1 W2 G : Z) :
  0 < G -> W1 <= W2 -> rne_div W1 G <= rne_div W2 G.
Proof.
  intros HG HW.
  assert (Hq : W1 / G <= W2 / G) by (apply Z.div_le_mono; lia).
  destruct (Z.eq_dec (W1 / G) (W2 / G)) as [E | NE].
  - assert (Hr : W1 mod G <= W2 mod G).
    { rewrite !Z.mod_eq by lia. rewrite E. lia. }
    unfold rne_div. rewrite E.
    destruct (Z.compare_spec (2 * (W1 mod G)) G);
      destruct (Z.compare_spec (2 * (W2 mod G)) G);
      destruct (Z.even (W2 / G)); lia.
  - pose proof (rne_div_bounds W1 G HG). pose proof (rne_div_bounds W2 G HG). lia.
Qed.

Lemma rne_div_scale (W G c : Z) :
  0 < G -> 0 < c -> rne_div (W * c) (G * c) = rne_div W G.
Proof.
  intros HG Hc. unfold rne_div.
  rewrite Z.div_mul_cancel_r by lia.
  rewrite Z.mul_mod_distr_r by lia.
  replace (2 * (W mod G * c) ?= G * c) with (2 * (W mod G) ?= G); [reflexivity |].
  destruct (Z.compare_spec (2 * (W mod G)) G) as [E | L | L]; symmetry.
  - apply Z.compare_eq_iff. nia.
  - apply Z.compare_lt_iff. nia.
  - apply Z.compare_gt_iff. nia.
Qed.

(** *** Rounding a count on the grid of its binade *)

Lemma fexp64_eq (e : Z) : fexp Binary64.prec Binary64.emax e = fexp64 e.
Proof. reflexivity. Qed.

Lemma gexp_pos (W : Z) : 0 < gexp W.
Proof. unfold gexp, fexp64, bias. lia. Qed.

Lemma gexp_mono (W1 W2 : Z) : 0 < W1 -> W1 <= W2 -> gexp W1 <= gexp W2.
Proof.
  intros H0 H12. unfold gexp, fexp64.
  pose proof (Z.log2_le_mono W1 W2 H12). lia.
Qed.

Lemma pow2_pos (a : Z) : 0 <= a -> 0 < 2 ^ a.
Proof. intros. apply Z.pow_pos_nonneg; lia. Qed.

Lemma pow2_split (a b : Z) : 0 <= b <= a -> 2 ^ a = 2 ^ (a - b) * 2 ^ b.
Proof. intros H. rewrite <- Z.pow_add_r by lia. f_equal. lia. Qed.

Lemma RN_pow2 (l g : Z) : 0 <= g <= l -> 2 ^ g * rne_div (2 ^ l) (2 ^ g) = 2 ^ l.
Proof.
  intros H. rewrite (pow2_split l g H) at 1.
  rewrite rne_div_exact by (apply pow2_pos; lia).
  rewrite (pow2_split l g H). lia.
Qed.

Lemma RN_mono (W1 W2 : Z) : 0 < W1 -> W1 <= W2 -> RN W1 <= RN W2.
Proof.
  intros H0 H12. unfold RN.
  pose proof (gexp_mono W1 W2 H0 H12) as Hg.
  pose proof (gexp_pos W1) as Hg1. pose proof (gexp_pos W2) as Hg2.
  destruct (Z.eq_dec (gexp W1) (gexp W2)) as [E | NE].
  - rewrite E. apply Z.mul_le_mono_nonneg_l.
    + apply Z.lt_le_incl, pow2_pos. lia.
    + apply rne_div_mono; [apply pow2_pos; lia | lia].
  - assert (Hlt : gexp W1 < gexp W2) by lia.
    set (l1 := Z.log2 W1) in *. set (l2 := Z.log2 W2) in *.
    assert (Hl1 : 0 <= l1) by apply Z.log2_nonneg.
    assert (Hl : l1 < l2 /\ gexp W2 = l2 - 52).
    { subst l1 l2. unfold gexp, fexp64, bias in *. lia. }
    destruct Hl as [Hl Hg2'].
    assert (HW1 : W1 < 2 ^ l2).
    { pose proof (Z.log2_spec W1 H0) as [_ Hs]. fold l1 in Hs.
      apply Z.lt_le_trans with (2 ^ Z.succ l1); [exact Hs |].
      apply Z.pow_le_mono_r; lia. }
    assert (HW2 : 2 ^ l2 <= W2).
    { pose proof (Z.log2_spec W2 ltac:(lia)) as [Hs _]. exact Hs. }
    apply Z.le_trans with (2 ^ l2).
    + rewrite <- (RN_pow2 l2 (gexp W1)) by lia.
      apply Z.mul_le_mono_nonneg_l.
      * apply Z.lt_le_incl, pow2_pos. lia.
      * apply rne_div_mono; [apply pow2_pos; lia | lia].
    + rewrite <- (RN_pow2 l2 (gexp W2)) at 1 by lia.
      apply Z.mul_le_mono_nonneg_l.
      * apply Z.lt_le_incl, pow2_pos. lia.
      * apply rne_div_mono; [apply pow2_pos; lia | lia].
Qed.

(** *** Right shifts with round and sticky bits *)

Lemma digits2_pos_log2 (m : positive) :
  Zpos (digits2_pos m) = Z.log2 (Zpos m) + 1.
Proof.
  assert (Hs : forall p, digits2_pos p = Pos.size p).
  { induction p; simpl; now rewrite ?IHp. }
  rewrite Hs. destruct m; simpl; rewrite ?Pos2Z.inj_succ; lia.
Qed.

Lemma shr_inv_init (M : Z) : 0 <= M -> shr_inv M 0 (Build_shr_record M false false).
Proof.
  intros HM. unfold shr_inv. cbn [shr_m]. rewrite Z.pow_0_r.
  replace (M - M * 1) with 0 by lia. repeat split; try lia.
Qed.

Lemma shr_inv_step (M n : Z) (mrs : shr_record) :
  0 <= n -> shr_inv M n mrs -> shr_inv M (n + 1) (shr_1 mrs).
Proof.
  intros Hn (Hm & Hrem & Hloc). unfold shr_inv in *.
  rewrite Z.pow_add_r, Z.pow_1_r by lia.
  pose proof (pow2_pos n Hn) as HP.
  set (P := 2 ^ n) in *.
  destruct mrs as [m r s]. cbn [shr_m] in *.
  destruct (Z.eqb_spec (M - m * P) 0) as [E0 | N0].
  - assert (r = false /\ s = false) as [-> ->].
    { destruct r, s; cbn in Hloc; try discriminate; auto. }
    destruct m as [| [p | p |] | p]; cbn [shr_1 shr_m orb];
      try rewrite (Pos2Z.inj_xI p) in *; try rewrite (Pos2Z.inj_xO p) in *;
      try lia.
    + split; [lia |]. split; [lia |].
      replace (M - 0 * (P * 2)) with 0 by lia. reflexivity.
    + split; [lia |]. split; [lia |].
      replace (M - Z.pos p * (P * 2)) with P by lia.
      destruct (Z.eqb_spec P 0); [lia |].
      cbn [loc_of_shr_record]. f_equal. symmetry. apply Z.compare_eq_iff. lia.
    + split; [lia |]. split; [lia |].
      replace (M - Z.pos p * (P * 2)) with 0 by lia. reflexivity.
    + split; [lia |]. split; [lia |].
      replace (M - 0 * (P * 2)) with P by lia.
      destruct (Z.eqb_spec P 0); [lia |].
      cbn [loc_of_shr_record]. f_equal. symmetry. apply Z.compare_eq_iff. lia.
  - assert (Hrs : orb r s = true).
    { destruct r, s; cbn in Hloc; try discriminate; auto. }
    destruct m as [| [p | p |] | p]; cbn [shr_1 shr_m]; rewrite ?Hrs;
      try rewrite (Pos2Z.inj_xI p) in *; try rewrite (Pos2Z.inj_xO p) in *;
      try lia.
    + split; [lia |]. split; [lia |].
      destruct (Z.eqb_spec (M - 0 * (P * 2)) 0); [lia |].
      cbn [loc_of_shr_record]. f_equal. symmetry. apply Z.compare_lt_iff. lia.
    + split; [lia |]. split; [lia |].
      destruct (Z.eqb_spec (M - Z.pos p * (P * 2)) 0); [lia |].
      cbn [loc_of_shr_record]. f_equal. symmetry. apply Z.compare_gt_iff. lia.
    + split; [lia |]. split; [lia |].
      destruct (Z.eqb_spec (M - Z.pos p * (P * 2)) 0); [lia |].
      cbn [loc_of_shr_record]. f_equal. symmetry. apply Z.compare_lt_iff. lia.
    + split; [lia |]. split; [lia |].
      destruct (Z.eqb_spec (M - 0 * (P * 2)) 0); [lia |].
      cbn [loc_of_shr_record]. f_equal. symmetry. apply Z.compare_gt_iff. lia.
Qed.

Lemma shr_inv_iter (p : positive) :
  forall (M n : Z) (mrs : shr_record),
    0 <= n -> shr_inv M n mrs -> shr_inv M (n + Zpos p) (iter_pos shr_1 p mrs).
Proof.
  induction p as [p IH | p IH |]; intros M n mrs Hn Hinv; cbn [iter_pos].
  - replace (n + Z.pos p~1) with (n + 1 + Z.pos p + Z.pos p) by lia.
    apply IH; [lia |]. apply IH; [lia |]. now apply shr_inv_step.
  - replace (n + Z.pos p~0) with (n + Z.pos p + Z.pos p) by lia.
    apply IH; [lia |]. now apply IH.
  - now apply shr_inv_step.
Qed.

Lemma shr_inv_shr (M e n : Z) :
  0 <= M ->
  let '(mrs, e') := shr (Build_shr_record M false false) e n in
  shr_inv M (Z.max n 0) mrs /\ e' = e + Z.max n 0.
Proof.
  intros HM. unfold shr. destruct n as [| p | p].
  - split; [now apply shr_inv_init | cbn; lia].
  - rewrite Z.max_l by lia. split; [| reflexivity].
    apply (shr_inv_iter p M 0); [lia | now apply shr_inv_init].
  - split; [now apply shr_inv_init | cbn; lia].
Qed.

Lemma shr_inv_round (M n : Z) (mrs : shr_record) :
  0 <= n -> shr_inv M n mrs ->
  round_nearest_even (shr_m mrs) (loc_of_shr_record mrs) = rne_div M (2 ^ n).
Proof.
  intros Hn (Hm & Hrem & Hloc). rewrite Hloc. clear Hloc.
  pose proof (pow2_pos n Hn) as HP. set (P := 2 ^ n) in *.
  set (m := shr_m mrs) in *.
  assert (Hq : M / P = m) by (symmetry; apply (Z.div_unique M P m (M - m * P)); lia).
  assert (Hr : M mod P = M - m * P)
    by (symmetry; apply (Z.mod_unique M P m (M - m * P)); lia).
  unfold rne_div. rewrite Hq, Hr.
  destruct (Z.eqb_spec (M - m * P) 0) as [E0 | N0].
  - rewrite E0. cbn [round_nearest_even]. change (2 * 0) with 0.
    destruct (Z.compare_spec 0 P); lia.
  - cbn [round_nearest_even].
    destruct (2 * (M - m * P) ?= P); reflexivity.
Qed.

(** *** [binary_round_aux] and [binary_round] round to nearest *)

Lemma shr_nonpos (mrs : shr_record) (e n : Z) : n <= 0 -> shr mrs e n = (mrs, e).
Proof. destruct n; [reflexivity | lia | reflexivity]. Qed.

Lemma pow2_lt (a b : Z) : 0 <= a < b -> 2 ^ a < 2 ^ b.
Proof. intros. apply Z.pow_lt_mono_r; lia. Qed.

Lemma pow2_le (a b : Z) : 0 <= a <= b -> 2 ^ a <= 2 ^ b.
Proof. intros. apply Z.pow_le_mono_r; lia. Qed.

Lemma pow2_add (a b : Z) : 0 <= a -> 0 <= b -> 2 ^ (a + b) = 2 ^ a * 2 ^ b.
Proof. intros. apply Z.pow_add_r; lia. Qed.

Lemma digits_small (p : positive) :
  Zpos p < 2 ^ 53 -> Zpos (digits2_pos p) <= 53.
Proof.
  intros H. rewrite digits2_pos_log2.
  assert (Z.log2 (Zpos p) < 53) by (apply Z.log2_lt_pow2; lia). lia.
Qed.

Lemma digits_normal (p : positive) :
  2 ^ 52 <= Zpos p < 2 ^ 53 -> Zpos (digits2_pos p) = 53.
Proof.
  intros H. rewrite digits2_pos_log2.
  rewrite (Z.log2_unique (Zpos p) 52); lia.
Qed.

Lemma renorm_spec (a k : Z) :
  -1074 <= k -> 0 <= a <= 2 ^ 53 -> (-1074 < k -> 2 ^ 52 <= a) ->
  let '(mrs, e) := shr_fexp Binary64.prec Binary64.emax a k loc_Exact in
  let f := match shr_m mrs with
           | Z0 => S754_zero false
           | Zpos m => if e <=? Binary64.emax - Binary64.prec then S754_finite false m e
                       else S754_infinity false
           | Zneg _ => S754_nan
           end in
  wf f /\ ord f = Z.min (a * 2 ^ (k + bias)) INF.
Proof.
  intros Hk Ha Hnorm. unfold shr_fexp. rewrite fexp64_eq. cbn [shr_record_of_loc].
  change (Binary64.emax - Binary64.prec) with 971.
  assert (HINF : 0 < INF) by (apply pow2_pos; unfold Binary64.emax, bias; lia).
  assert (Hb : 0 <= k + bias) by (unfold bias; lia).
  assert (Hfull : 2 ^ 53 * 2 ^ (971 + bias) = INF).
  { unfold INF. rewrite <- pow2_add by (unfold bias; lia). reflexivity. }
  assert (Hhalf : 2 ^ 52 * 2 ^ (972 + bias) = INF).
  { unfold INF. rewrite <- pow2_add by (unfold bias; lia). reflexivity. }
  destruct (Z.eq_dec a (2 ^ 53)) as [-> | Hne].
  - (* the rounded mantissa is 2^53: one more shift *)
    replace (fexp64 (Zdigits2 (2 ^ 53) + k) - k) with 1
      by (change (Zdigits2 (2 ^ 53)) with 54; unfold fexp64; lia).
    cbn [shr iter_pos].
    change (shr_m (shr_1 {| shr_m := 2 ^ 53; shr_r := false; shr_s := false |}))
      with (Zpos (2 ^ 52)%positive).
    cbv iota.
    assert (Hval : Zpos (2 ^ 52)%positive * 2 ^ (k + 1 + bias) = 2 ^ 53 * 2 ^ (k + bias)).
    { replace (k + 1 + bias) with (k + bias + 1) by lia.
      rewrite (pow2_add (k + bias) 1) by lia.
      change (2 ^ 53) with (Zpos (2 ^ 52)%positive * 2 ^ 1). ring. }
    destruct (Z.leb_spec (k + 1) 971) as [Hle | Hgt].
    + split.
      * split; [reflexivity |]. cbn [valid_binary]. unfold bounded, canonical_mantissa.
        rewrite fexp64_eq. change (Zpos (digits2_pos (2 ^ 52))) with 53.
        apply andb_true_intro. split.
        -- apply Z.eqb_eq. unfold fexp64. lia.
        -- apply Z.leb_le. unfold Binary64.emax, Binary64.prec. lia.
      * cbn [ord]. rewrite Hval. rewrite Z.min_l; [reflexivity |].
        rewrite <- Hfull. apply Z.mul_le_mono_nonneg_l; [lia |].
        apply pow2_le. lia.
    + split; [split; reflexivity |].
      cbn [ord]. rewrite Z.min_r; [reflexivity |].
      rewrite <- Hfull. apply Z.mul_le_mono_nonneg_l; [lia |].
      apply pow2_le. unfold bias in *. lia.
  - destruct a as [| pa | pa]; [| | lia].
    + (* rounded to zero *)
      rewrite shr_nonpos by (change (Zdigits2 0) with 0; unfold fexp64; lia).
      cbn [shr_m]. split; [split; reflexivity |].
      cbn [ord]. rewrite Z.mul_0_l, Z.min_l; lia.
    + assert (Hlt : Zpos pa < 2 ^ 53) by lia.
      pose proof (digits_small pa Hlt) as Hd.
      rewrite shr_nonpos by (cbn [Zdigits2]; unfold fexp64; lia).
      cbn [shr_m].
      assert (Hcanon : fexp64 (Zpos (digits2_pos pa) + k) = k).
      { unfold fexp64. destruct (Z.eq_dec k (-1074)) as [-> | Hk'].
        - lia.
        - rewrite (digits_normal pa) by (split; [apply Hnorm |]; lia). lia. }
      destruct (Z.leb_spec k 971) as [Hle | Hgt].
      * split.
        -- split; [reflexivity |]. cbn [valid_binary]. unfold bounded, canonical_mantissa.
           rewrite fexp64_eq, Hcanon.
           apply andb_true_intro. split; [apply Z.eqb_refl |].
           apply Z.leb_le. unfold Binary64.emax, Binary64.prec. lia.
        -- cbn [ord]. rewrite Z.min_l; [reflexivity |].
           apply Z.lt_le_incl.
           apply Z.lt_le_trans with (2 ^ 53 * 2 ^ (k + bias)).
           ++ apply Z.mul_lt_mono_pos_r; [apply pow2_pos; lia | lia].
           ++ rewrite <- Hfull. apply Z.mul_le_mono_nonneg_l; [lia |].
              apply pow2_le. lia.
      * split; [split; reflexivity |].
        cbn [ord]. rewrite Z.min_r; [reflexivity |].
        apply Z.le_trans with (2 ^ 52 * 2 ^ (k + bias)).
        -- rewrite <- Hhalf. apply Z.mul_le_mono_nonneg_l; [lia |].
           apply pow2_le. unfold bias in *. lia.
        -- apply Z.mul_le_mono_nonneg_r; [apply Z.lt_le_incl, pow2_pos; lia |].
           apply Hnorm. lia.
Qed.

Lemma digits_bounds (M : positive) :
  2 ^ (Zpos (digits2_pos M) - 1) <= Zpos M < 2 ^ Zpos (digits2_pos M).
Proof.
  rewrite digits2_pos_log2.
  pose proof (Z.log2_spec (Zpos M) ltac:(lia)) as Hs.
  replace (Z.log2 (Zpos M) + 1 - 1) with (Z.log2 (Zpos M)) by lia.
  unfold Z.succ in Hs. exact Hs.
Qed.

Lemma gexp_scaled (M : positive) (E : Z) :
  - bias <= E ->
  gexp (Zpos M * 2 ^ (E + bias)) = fexp64 (Zpos (digits2_pos M) + E) + bias.
Proof.
  intros HE. unfold gexp. rewrite Z.log2_mul_pow2 by lia.
  rewrite digits2_pos_log2. f_equal. f_equal. lia.
Qed.

Lemma RN_scaled (M : positive) (E : Z) :
  - bias <= E -> E <= fexp64 (Zpos (digits2_pos M) + E) ->
  RN (Zpos M * 2 ^ (E + bias))
  = rne_div (Zpos M) (2 ^ (fexp64 (Zpos (digits2_pos M) + E) - E))
    * 2 ^ (fexp64 (Zpos (digits2_pos M) + E) + bias).
Proof.
  intros HE Hk. unfold RN. rewrite gexp_scaled by assumption.
  set (k := fexp64 (Zpos (digits2_pos M) + E)) in *.
  replace (k + bias) with ((k - E) + (E + bias)) at 2 by lia.
  rewrite (pow2_add (k - E) (E + bias)) by lia.
  rewrite rne_div_scale by (apply pow2_pos; lia). ring.
Qed.

Lemma binary_round_aux_shift (M : positive) (E : Z) :
  E <= fexp64 (Zpos (digits2_pos M) + E) ->
  binary_round_aux Binary64.prec Binary64.emax false (Zpos M) E loc_Exact
  = let k := fexp64 (Zpos (digits2_pos M) + E) in
    let '(mrs, e) :=
      shr_fexp Binary64.prec Binary64.emax (rne_div (Zpos M) (2 ^ (k - E))) k loc_Exact in
    match shr_m mrs with
    | Z0 => S754_zero false
    | Zpos m => if e <=? Binary64.emax - Binary64.prec then S754_finite false m e
                else S754_infinity false
    | Zneg _ => S754_nan
    end.
Proof.
  intros Hk. cbv zeta. unfold binary_round_aux.
  unfold shr_fexp at 1. rewrite fexp64_eq. cbn [shr_record_of_loc Zdigits2].
  set (k := fexp64 (Zpos (digits2_pos M) + E)) in *.
  pose proof (shr_inv_shr (Zpos M) E (k - E) ltac:(lia)) as Hshr.
  destruct (shr {| shr_m := Zpos M; shr_r := false; shr_s := false |} E (k - E))
    as [mrs e'].
  rewrite Z.max_l in Hshr by lia. destruct Hshr as [Hinv ->].
  replace (E + (k - E)) with k by lia.
  now rewrite (shr_inv_round (Zpos M) (k - E) mrs) by (assumption || lia).
Qed.

Lemma binary_round_aux_spec (M : positive) (E : Z) :
  - bias <= E -> E <= fexp64 (Zpos (digits2_pos M) + E) ->
  let f := binary_round_aux Binary64.prec Binary64.emax false (Zpos M) E loc_Exact in
  wf f /\ ord f = Z.min (RN (Zpos M * 2 ^ (E + bias))) INF.
Proof.
  intros HE Hk. cbv zeta. rewrite RN_scaled by assumption.
  rewrite binary_round_aux_shift by assumption. cbv zeta.
  set (D := Zpos (digits2_pos M)) in *.
  set (k := fexp64 (D + E)) in *.
  set (a := rne_div (Zpos M) (2 ^ (k - E))).
  pose proof (digits_bounds M) as [HDlo HDhi]. fold D in HDlo, HDhi.
  assert (HD : 1 <= D) by (subst D; lia).
  assert (HP : 0 < 2 ^ (k - E)) by (apply pow2_pos; lia).
  assert (Hn : D - 53 <= k - E) by (subst k; unfold fexp64; lia).
  pose proof (rne_div_bounds (Zpos M) (2 ^ (k - E)) HP) as Hab. fold a in Hab.
  assert (Hq0 : 0 <= Zpos M / 2 ^ (k - E)) by (apply Z.div_pos; lia).
  assert (Hqhi : Zpos M / 2 ^ (k - E) < 2 ^ 53).
  { apply Z.div_lt_upper_bound; [exact HP |].
    rewrite <- pow2_add by lia.
    apply Z.lt_le_trans with (2 ^ D); [exact HDhi |]. apply pow2_le. lia. }
  assert (Hqlo : -1074 < k -> 2 ^ 52 <= Zpos M / 2 ^ (k - E)).
  { intros Hnorm. assert (Hkn : k - E = D - 53) by (subst k; unfold fexp64 in *; lia).
    apply Z.div_le_lower_bound; [exact HP |].
    rewrite <- pow2_add by lia. rewrite Hkn.
    replace (D - 53 + 52) with (D - 1) by lia. exact HDlo. }
  assert (Hk1074 : -1074 <= k) by (subst k; unfold fexp64; lia).
  pose proof (renorm_spec a k Hk1074 ltac:(lia) ltac:(intros; specialize (Hqlo H); lia))
    as Hren.
  destruct (shr_fexp Binary64.prec Binary64.emax a k loc_Exact) as [mrs2 e2].
  exact Hren.
Qed.

Lemma iter_xO (M d : positive) : Zpos (Pos.iter xO M d) = Zpos M * 2 ^ Zpos d.
Proof.
  induction d as [| d IH] using Pos.peano_ind.
  - cbn [Pos.iter]. rewrite Z.pow_1_r. lia.
  - rewrite Pos.iter_succ, Pos2Z.inj_xO, IH, Pos2Z.inj_succ, Z.pow_succ_r by lia.
    ring.
Qed.

Lemma digits_shift (M d : positive) :
  Zpos (digits2_pos (Pos.iter xO M d)) = Zpos (digits2_pos M) + Zpos d.
Proof.
  rewrite !digits2_pos_log2, iter_xO, Z.log2_mul_pow2 by lia. lia.
Qed.

Lemma binary_round_spec (M : positive) (E : Z) :
  - bias <= E ->
  let f := binary_round Binary64.prec Binary64.emax false M E in
  wf f /\ ord f = Z.min (RN (Zpos M * 2 ^ (E + bias))) INF.
Proof.
  intros HE. cbv zeta. unfold binary_round, shl_align. rewrite fexp64_eq.
  set (k := fexp64 (Zpos (digits2_pos M) + E)).
  destruct (k - E) as [| d | d] eqn:Hd.
  - apply binary_round_aux_spec; fold k; lia.
  - apply binary_round_aux_spec; fold k; lia.
  - assert (Hk : -1074 <= k) by (subst k; unfold fexp64; lia).
    assert (HEk : E = k + Zpos d) by lia.
    assert (Hkk : fexp64 (Zpos (digits2_pos (Pos.iter xO M d)) + k) = k).
    { rewrite digits_shift.
      replace (Zpos (digits2_pos M) + Zpos d + k) with (Zpos (digits2_pos M) + E) by lia.
      reflexivity. }
    replace (Zpos M * 2 ^ (E + bias)) with (Zpos (Pos.iter xO M d) * 2 ^ (k + bias)).
    + apply binary_round_aux_spec; [unfold bias; lia | rewrite Hkk; lia].
    + rewrite iter_xO, HEk.
      replace (k + Zpos d + bias) with (Zpos d + (k + bias)) by lia.
      rewrite (pow2_add (Zpos d) (k + bias)) by (unfold bias; lia). ring.
Qed.

(** *** Order of non-negative binary64 numbers *)
Lemma wf_finite_inv (s : bool) (m : positive) (e : Z) :
  wf (S754_finite s m e) ->
  s = false /\ -1074 <= e <= 971 /\ fexp64 (Zpos (digits2_pos m) + e) = e
  /\ Zpos m < 2 ^ 53 /\ (-1074 < e -> 2 ^ 52 <= Zpos m).
Proof.
  intros [Hs Hv]. cbn in Hs. cbn [valid_binary] in Hv.
  unfold bounded, canonical_mantissa in Hv. rewrite fexp64_eq in Hv.
  apply andb_true_iff in Hv as [Hc He].
  apply Z.eqb_eq in Hc. apply Z.leb_le in He. change (Binary64.emax - Binary64.prec) with 971 in He.
  pose proof (digits_bounds m) as [Hlo Hhi].
  set (D := Zpos (digits2_pos m)) in *.
  assert (HD : 1 <= D) by (subst D; lia).
  split; [now destruct s |]. split; [unfold fexp64 in Hc; lia |].
  split; [exact Hc |]. split.
  - apply Z.lt_le_trans with (2 ^ D); [exact Hhi |].
    apply pow2_le. unfold fexp64 in Hc. lia.
  - intros Hn. assert (D = 53) by (unfold fexp64 in Hc; lia).
    replace 52 with (D - 1) by lia. exact Hlo.
Qed.

Lemma INF_pos : 0 < INF.
Proof. apply pow2_pos. unfold Binary64.emax, bias. lia. Qed.

Lemma ord_finite_bounds (s : bool) (m : positive) (e : Z) :
  wf (S754_finite s m e) -> 0 < ord (S754_finite s m e) < INF.
Proof.
  intros Hwf. destruct (wf_finite_inv s m e Hwf) as (_ & He & _ & Hm & _).
  cbn [ord]. assert (HP : 0 < 2 ^ (e + bias)) by (apply pow2_pos; unfold bias; lia).
  split; [lia |].
  apply Z.lt_le_trans with (2 ^ 53 * 2 ^ (e + bias)).
  - apply Z.mul_lt_mono_pos_r; lia.
  - unfold INF. rewrite <- pow2_add by (unfold bias; lia).
    apply pow2_le. unfold Binary64.emax, bias. lia.
Qed.

Lemma ord_range (x : spec_float) : wf x -> 0 <= ord x <= INF.
Proof.
  intros Hwf. pose proof INF_pos.
  destruct x as [s | s | | s m e]; cbn [ord]; try lia.
  pose proof (ord_finite_bounds s m e Hwf). cbn [ord] in *. lia.
Qed.

Lemma ord_finite_lt (m1 m2 : positive) (e1 e2 : Z) :
  wf (S754_finite false m1 e1) -> wf (S754_finite false m2 e2) -> e1 < e2 ->
  Zpos m1 * 2 ^ (e1 + bias) < Zpos m2 * 2 ^ (e2 + bias).
Proof.
  intros H1 H2 Hlt.
  destruct (wf_finite_inv _ _ _ H1) as (_ & He1 & _ & Hm1 & _).
  destruct (wf_finite_inv _ _ _ H2) as (_ & He2 & _ & _ & Hm2).
  specialize (Hm2 ltac:(lia)).
  assert (HP : 0 < 2 ^ (e1 + bias)) by (apply pow2_pos; unfold bias; lia).
  apply Z.lt_le_trans with (2 ^ 53 * 2 ^ (e1 + bias)).
  - apply Z.mul_lt_mono_pos_r; lia.
  - apply Z.le_trans with (2 ^ 52 * 2 ^ (e2 + bias)).
    + rewrite <- !pow2_add by (unfold bias; lia). apply pow2_le. unfold bias. lia.
    + apply Z.mul_le_mono_nonneg_r; [| exact Hm2].
      apply Z.lt_le_incl, pow2_pos. unfold bias. lia.
Qed.

Lemma SFcompare_ord (x y : spec_float) :
  wf x -> wf y -> SFcompare x y = Some (ord x ?= ord y).
Proof.
  intros Hx Hy. pose proof INF_pos as HI.
  destruct x as [sx | sx | | sx mx ex]; destruct y as [sy | sy | | sy my ey];
    try (destruct Hx as [Hx _]; discriminate Hx);
    try (destruct Hy as [Hy _]; discriminate Hy).
  - reflexivity.
  - destruct Hy as [Hy _]. destruct sy; [discriminate |]. cbn [SFcompare ord].
    now rewrite (proj2 (Z.compare_lt_iff 0 INF) HI).
  - pose proof (ord_finite_bounds _ _ _ Hy) as Hb.
    destruct (wf_finite_inv _ _ _ Hy) as (-> & _). cbn [SFcompare].
    symmetry. f_equal. apply Z.compare_lt_iff. cbn [ord] in *. lia.
  - destruct Hx as [Hx _]. destruct sx; [discriminate |]. cbn [SFcompare ord].
    now rewrite (proj2 (Z.compare_gt_iff INF 0) HI).
  - destruct Hx as [Hx _]. destruct sx; [discriminate |].
    destruct Hy as [Hy _]. destruct sy; [discriminate |]. cbn [SFcompare ord].
    now rewrite Z.compare_refl.
  - pose proof (ord_finite_bounds _ _ _ Hy) as Hb.
    destruct Hx as [Hx _]. destruct sx; [discriminate |]. cbn [SFcompare].
    symmetry. f_equal. apply Z.compare_gt_iff. cbn [ord] in *. lia.
  - pose proof (ord_finite_bounds _ _ _ Hx) as Hb.
    destruct (wf_finite_inv _ _ _ Hx) as (-> & _). cbn [SFcompare].
    symmetry. f_equal. apply Z.compare_gt_iff. cbn [ord] in *. lia.
  - pose proof (ord_finite_bounds _ _ _ Hx) as Hb.
    destruct Hy as [Hy _]. destruct sy; [discriminate |]. cbn [SFcompare].
    symmetry. f_equal. apply Z.compare_lt_iff. cbn [ord] in *. lia.
  - destruct (wf_finite_inv _ _ _ Hx) as (-> & Hex & _).
    destruct (wf_finite_inv _ _ _ Hy) as (-> & Hey & _).
    cbn [SFcompare ord]. f_equal.
    destruct (Z.compare_spec ex ey) as [-> | Hlt | Hgt].
    + rewrite Pos.compare_cont_spec. cbn [Pos.switch_Eq].
      assert (HP : 0 < 2 ^ (ey + bias)) by (apply pow2_pos; unfold bias; lia).
      change (mx ?= my)%positive with (Zpos mx ?= Zpos my).
      destruct (Z.compare_spec (Zpos mx) (Zpos my)) as [E | L | G]; symmetry.
      * apply Z.compare_eq_iff. now rewrite E.
      * apply Z.compare_lt_iff. apply Z.mul_lt_mono_pos_r; lia.
      * apply Z.compare_gt_iff. apply Z.mul_lt_mono_pos_r; lia.
    + symmetry. apply Z.compare_lt_iff. now apply ord_finite_lt.
    + symmetry. apply Z.compare_gt_iff. apply ord_finite_lt; assumption || lia.
Qed.

Lemma SFleb_ord (x y : spec_float) :
  wf x -> wf y -> SFleb x y = (ord x <=? ord y).
Proof.
  intros Hx Hy. unfold SFleb. rewrite (SFcompare_ord x y Hx Hy).
  unfold Z.leb. now destruct (ord x ?= ord y).
Qed.

Lemma SFltb_ord (x y : spec_float) :
  wf x -> wf y -> SFltb x y = (ord x <? ord y).
Proof.
  intros Hx Hy. unfold SFltb. rewrite (SFcompare_ord x y Hx Hy).
  unfold Z.ltb. now destruct (ord x ?= ord y).
Qed.

Lemma wf_abs_opp (x : spec_float) :
  wf x -> wf (SFabs (SFopp x)) /\ ord (SFabs (SFopp x)) = ord x.
Proof.
  intros [Hn Hv]. destruct x as [s | s | | s m e]; try discriminate;
    (split; [split |]); try reflexivity; exact Hv.
Qed.

Lemma ord_opp (x : spec_float) : ord (SFopp x) = ord x.
Proof. now destruct x. Qed.

(** *** Rounding of zero, of binary64 numbers, and beyond the range *)
Lemma rne_div_nonneg (W G : Z) : 0 < G -> 0 <= W -> 0 <= rne_div W G.
Proof.
  intros HG HW. pose proof (rne_div_bounds W G HG).
  assert (0 <= W / G) by (apply Z.div_pos; lia). lia.
Qed.

Lemma RN_0 : RN 0 = 0.
Proof.
  unfold RN. rewrite <- (Z.mul_0_l (2 ^ gexp 0)) at 2.
  rewrite rne_div_exact by (apply pow2_pos; pose proof (gexp_pos 0); lia). lia.
Qed.

Lemma RN_nonneg (W : Z) : 0 <= W -> 0 <= RN W.
Proof.
  intros HW. unfold RN. pose proof (gexp_pos W).
  apply Z.mul_nonneg_nonneg.
  - apply Z.lt_le_incl, pow2_pos. lia.
  - apply rne_div_nonneg; [apply pow2_pos; lia | exact HW].
Qed.

Lemma RN_le (W1 W2 : Z) : 0 <= W1 -> W1 <= W2 -> RN W1 <= RN W2.
Proof.
  intros H0 H12. destruct (Z.eq_dec W1 0) as [-> | Hne].
  - rewrite RN_0. apply RN_nonneg. lia.
  - apply RN_mono; lia.
Qed.

Lemma RN_id (s : bool) (m : positive) (e : Z) :
  wf (S754_finite s m e) -> RN (ord (S754_finite s m e)) = ord (S754_finite s m e).
Proof.
  intros Hwf. destruct (wf_finite_inv s m e Hwf) as (_ & He & Hc & _).
  cbn [ord]. unfold RN. rewrite gexp_scaled by (unfold bias; lia). rewrite Hc.
  rewrite rne_div_exact by (apply pow2_pos; unfold bias; lia). ring.
Qed.

Lemma RN_INF : RN INF = INF.
Proof.
  unfold RN, INF. apply RN_pow2.
  unfold gexp, fexp64. rewrite Z.log2_pow2 by (unfold Binary64.emax, bias; lia).
  unfold Binary64.emax, bias. lia.
Qed.

Lemma RN_ord (x : spec_float) : wf x -> Z.min (RN (ord x)) INF = ord x.
Proof.
  intros Hwf. pose proof INF_pos.
  destruct x as [s | s | | s m e]; cbn [ord].
  - rewrite RN_0. lia.
  - rewrite RN_INF. lia.
  - destruct Hwf as [Hn _]. discriminate Hn.
  - pose proof (ord_finite_bounds s m e Hwf) as Hb.
    pose proof (RN_id s m e Hwf) as Hid. cbn [ord] in *. lia.
Qed.

Lemma rnd_le (W1 W2 : Z) : 0 <= W1 -> W1 <= W2 -> rnd W1 <= rnd W2.
Proof. intros H0 H12. unfold rnd. pose proof (RN_le W1 W2 H0 H12). lia. Qed.

Lemma rnd_range (W : Z) : 0 <= W -> 0 <= rnd W <= INF.
Proof. intros HW. unfold rnd. pose proof (RN_nonneg W HW). pose proof INF_pos. lia. Qed.

Lemma rnd_ord (x : spec_float) : wf x -> rnd (ord x) = ord x.
Proof. apply RN_ord. Qed.

Lemma rnd_above (W : Z) : INF <= W -> rnd W = INF.
Proof.
  intros HW. unfold rnd. pose proof INF_pos.
  pose proof (RN_le INF W ltac:(lia) HW) as H1. rewrite RN_INF in H1. lia.
Qed.

Lemma binary_normalize_spec (z e : Z) :
  0 <= z -> - bias <= e ->
  let f := binary_normalize Binary64.prec Binary64.emax z e false in
  wf f /\ ord f = rnd (z * 2 ^ (e + bias)).
Proof.
  intros Hz He. cbv zeta. destruct z as [| p | p]; [| | lia].
  - cbn [binary_normalize]. split; [split; reflexivity |].
    cbn [ord]. rewrite Z.mul_0_l. unfold rnd. rewrite RN_0. pose proof INF_pos. lia.
  - cbn [binary_normalize]. now apply binary_round_spec.
Qed.

Lemma shl_align_fst (m : positive) (e ez : Z) :
  ez <= e -> Zpos (fst (shl_align m e ez)) = Zpos m * 2 ^ (e - ez).
Proof.
  intros Hle. unfold shl_align. destruct (ez - e) as [| d | d] eqn:Hd.
  - cbn [fst]. replace (e - ez) with 0 by lia. rewrite Z.pow_0_r. lia.
  - lia.
  - cbn [fst]. rewrite iter_xO. f_equal. f_equal. lia.
Qed.

Lemma aligned_value (m : positive) (e ez : Z) :
  -1074 <= ez <= e ->
  Zpos (fst (shl_align m e ez)) * 2 ^ (ez + bias) = Zpos m * 2 ^ (e + bias).
Proof.
  intros H. rewrite shl_align_fst by lia.
  replace (e + bias) with ((e - ez) + (ez + bias)) by lia.
  rewrite (pow2_add (e - ez) (ez + bias)) by (unfold bias; lia). ring.
Qed.

(** *** Addition, subtraction, multiplication *)
Lemma SFadd_spec (x y : spec_float) :
  wf x -> wf y ->
  wf (SFadd Binary64.prec Binary64.emax x y) /\ ord (SFadd Binary64.prec Binary64.emax x y) = rnd (ord x + ord y).
Proof.
  intros Hx Hy. pose proof INF_pos as HI.
  pose proof (ord_range x Hx) as Rx. pose proof (ord_range y Hy) as Ry.
  destruct x as [sx | sx | | sx mx ex]; try (destruct Hx as [Hx _]; discriminate Hx);
    destruct y as [sy | sy | | sy my ey]; try (destruct Hy as [Hy _]; discriminate Hy).
  - assert (Hz : wf (SFadd Binary64.prec Binary64.emax (S754_zero sx) (S754_zero sy))
                 /\ ord (SFadd Binary64.prec Binary64.emax (S754_zero sx) (S754_zero sy)) = 0).
    { destruct sx, sy; (split; [split |]); reflexivity. }
    destruct Hz as [Hz ->]. split; [exact Hz |].
    cbn [ord]. change (0 + 0) with 0. unfold rnd. rewrite RN_0. lia.
  - cbn [SFadd]. split; [exact Hy |]. rewrite rnd_above; cbn [ord]; lia.
  - cbn [SFadd]. split; [exact Hy |]. rewrite Z.add_0_l. symmetry. now apply rnd_ord.
  - cbn [SFadd]. split; [exact Hx |]. rewrite rnd_above; cbn [ord]; lia.
  - destruct Hx as [Hx Hvx]. destruct sx; [discriminate |].
    destruct Hy as [Hy Hvy]. destruct sy; [discriminate |].
    cbn [SFadd]. split; [split; reflexivity |]. rewrite rnd_above; cbn [ord]; lia.
  - cbn [SFadd]. split; [exact Hx |]. rewrite rnd_above; cbn [ord] in *; lia.
  - cbn [SFadd]. split; [exact Hx |]. rewrite Z.add_0_r. symmetry. now apply rnd_ord.
  - cbn [SFadd]. split; [exact Hy |]. rewrite rnd_above; cbn [ord] in *; lia.
  - destruct (wf_finite_inv _ _ _ Hx) as (-> & Hex & _).
    destruct (wf_finite_inv _ _ _ Hy) as (-> & Hey & _).
    cbn [SFadd cond_Zopp]. cbv zeta.
    set (ez := Z.min ex ey).
    replace (ord (S754_finite false mx ex) + ord (S754_finite false my ey))
      with ((Zpos (fst (shl_align mx ex ez)) + Zpos (fst (shl_align my ey ez)))
            * 2 ^ (ez + bias)).
    + apply binary_normalize_spec; [lia | subst ez; unfold bias; lia].
    + rewrite Z.mul_add_distr_r, !aligned_value by (subst ez; lia). reflexivity.
Qed.

Lemma SFsub_spec (sx sy : bool) (mx my : positive) (ex ey : Z) :
  let x := S754_finite sx mx ex in
  let y := S754_finite sy my ey in
  wf x -> wf y -> ord y <= ord x ->
  wf (SFsub Binary64.prec Binary64.emax x y) /\ ord (SFsub Binary64.prec Binary64.emax x y) = rnd (ord x - ord y).
Proof.
  intros x y Hx Hy Hle. subst x y.
  destruct (wf_finite_inv _ _ _ Hx) as (-> & Hex & _).
  destruct (wf_finite_inv _ _ _ Hy) as (-> & Hey & _).
  cbn [SFsub cond_Zopp]. cbv zeta.
  set (ez := Z.min ex ey).
  assert (Hb : 0 < 2 ^ (ez + bias)) by (apply pow2_pos; subst ez; unfold bias; lia).
  assert (Hval : (Zpos (fst (shl_align mx ex ez)) - Zpos (fst (shl_align my ey ez)))
                 * 2 ^ (ez + bias)
                 = ord (S754_finite false mx ex) - ord (S754_finite false my ey)).
  { rewrite Z.mul_sub_distr_r, !aligned_value by (subst ez; lia). reflexivity. }
  rewrite <- Hval.
  apply binary_normalize_spec; [| subst ez; unfold bias; lia].
  assert (0 <= (Zpos (fst (shl_align mx ex ez)) - Zpos (fst (shl_align my ey ez)))
               * 2 ^ (ez + bias)) by (rewrite Hval; lia).
  nia.
Qed.

Lemma SFmul_spec (x : spec_float) (sc : bool) (mc : positive) (ec : Z) :
  let c := S754_finite sc mc ec in
  wf x -> wf c -> 2 ^ 52 <= Zpos mc ->
  wf (SFmul Binary64.prec Binary64.emax x c) /\ ord (SFmul Binary64.prec Binary64.emax x c) = mulv (ord x) (ord c).
Proof.
  intros c Hx Hc Hnorm. subst c. pose proof INF_pos as HI.
  destruct (wf_finite_inv _ _ _ Hc) as (-> & Hec & _ & Hmc & _).
  unfold mulv.
  destruct x as [sx | sx | | sx mx ex]; try (destruct Hx as [Hx _]; discriminate Hx).
  - cbn [SFmul]. split; [split; reflexivity |]. cbn [ord].
    destruct (Z.eqb_spec 0 INF); [lia |].
    rewrite Z.mul_0_l, Z.div_0_l by (apply Z.pow_nonzero; unfold bias; lia).
    unfold rnd. rewrite RN_0. lia.
  - destruct Hx as [Hx _]. destruct sx; [discriminate |].
    cbn [SFmul xorb]. split; [split; reflexivity |]. cbn [ord].
    now rewrite Z.eqb_refl.
  - pose proof (ord_finite_bounds _ _ _ Hx) as Hb.
    destruct (wf_finite_inv _ _ _ Hx) as (-> & Hex & _).
    destruct (Z.eqb_spec (ord (S754_finite false mx ex)) INF) as [E | _]; [lia |].
    cbn [SFmul xorb ord].
    replace (Zpos mx * 2 ^ (ex + bias) * (Zpos mc * 2 ^ (ec + bias)) / 2 ^ bias)
      with (Zpos (mx * mc) * 2 ^ (ex + ec + bias)).
    + apply binary_round_aux_spec; [unfold bias; lia |].
      assert (53 <= Zpos (digits2_pos (mx * mc))).
      { rewrite digits2_pos_log2, Pos2Z.inj_mul.
        pose proof (Z.log2_mul_below (Zpos mx) (Zpos mc) ltac:(lia) ltac:(lia)).
        pose proof (Z.log2_nonneg (Zpos mx)).
        assert (52 <= Z.log2 (Zpos mc)) by (apply Z.log2_le_pow2; lia). lia. }
      unfold fexp64. lia.
    + rewrite Pos2Z.inj_mul.
      replace (Zpos mx * 2 ^ (ex + bias) * (Zpos mc * 2 ^ (ec + bias)))
        with (Zpos mx * Zpos mc * 2 ^ (ex + ec + bias) * 2 ^ bias).
      * rewrite Z.div_mul by (apply Z.pow_nonzero; unfold bias; lia). reflexivity.
      * assert (Hp : 2 ^ (ex + bias) * 2 ^ (ec + bias)
                     = 2 ^ (ex + ec + bias) * 2 ^ bias).
        { rewrite <- !pow2_add by (unfold bias; lia). f_equal. lia. }
        replace (Zpos mx * 2 ^ (ex + bias) * (Zpos mc * 2 ^ (ec + bias)))
          with (Zpos mx * Zpos mc * (2 ^ (ex + bias) * 2 ^ (ec + bias))) by ring.
        rewrite Hp. ring.
Qed.

End RoundingFacts.

(** ** The cost calculation at the binary64 interpretation *)

Module Binary64Facts.

Import Rounding RoundingFacts.
Local Open Scope Z_scope.

Lemma lit_0 : Binary64.lit 0 = S754_zero false.
Proof. reflexivity. Qed.

Lemma lit_0_2 : Binary64.lit 0.2 = S754_finite false 0x1999999999999A (-55).
Proof. vm_compute. reflexivity. Qed.

Lemma wf_lit_0_2 : wf (Binary64.lit 0.2) /\ 0 <= ord (Binary64.lit 0.2).
Proof.
  rewrite lit_0_2. split; [split; reflexivity |].
  cbn [ord]. apply Z.mul_nonneg_nonneg; [lia |].
  apply Z.lt_le_incl, pow2_pos. unfold bias. lia.
Qed.

(** [Math.min] and [Math.max] of non-negative numbers are the minimum and
    the maximum of their counts. *)
Lemma Math_min_spec (x y : spec_float) :
  wf x -> wf y ->
  wf (Binary64.Math_min x y)
  /\ ord (Binary64.Math_min x y) = Z.min (ord x) (ord y).
Proof.
  intros Hx Hy. unfold Binary64.Math_min. rewrite (SFcompare_ord x y Hx Hy).
  destruct (Z.compare_spec (ord x) (ord y)) as [E | L | G].
  - assert (Hm : Z.min (ord x) (ord y) = ord y) by lia. rewrite Hm.
    destruct x as [[|] | | |]; try (split; [exact Hy | reflexivity]).
    split; [exact Hx | exact E].
  - split; [exact Hx | lia].
  - split; [exact Hy | lia].
Qed.

Lemma Math_max_spec (x y : spec_float) :
  wf x -> wf y ->
  wf (Binary64.Math_max x y)
  /\ ord (Binary64.Math_max x y) = Z.max (ord x) (ord y).
Proof.
  intros Hx Hy. unfold Binary64.Math_max. rewrite (SFcompare_ord x y Hx Hy).
  destruct (Z.compare_spec (ord x) (ord y)) as [E | L | G].
  - assert (Hm : Z.max (ord x) (ord y) = ord y) by lia. rewrite Hm.
    destruct x as [[|] | | |]; try (split; [exact Hy | reflexivity]).
    split; [exact Hx | exact E].
  - split; [exact Hy | lia].
  - split; [exact Hx | lia].
Qed.

Lemma SFleb_opp_zero (x : spec_float) (sz : bool) :
  wf x -> SFleb (SFopp x) (S754_zero sz) = true.
Proof.
  intros [Hn _]. destruct x as [s | s | | s m e]; try discriminate.
  - reflexivity.
  - now destruct s.
  - now destruct s.
Qed.

(** [mulv] and [outOfPocketZ] are monotone in the count of the spend. *)
Lemma mulv_range (a c : Z) : 0 <= a -> 0 <= c -> 0 <= mulv a c <= INF.
Proof.
  intros Ha Hc. unfold mulv. pose proof INF_pos.
  destruct (a =? INF); [lia |].
  apply rnd_range. apply Z.div_pos; [| apply pow2_pos; unfold bias]; nia.
Qed.

Lemma mulv_le (a1 a2 c : Z) :
  0 <= a1 -> a1 <= a2 -> a2 <= INF -> 0 <= c -> mulv a1 c <= mulv a2 c.
Proof.
  intros H0 H12 Hinf Hc. pose proof (mulv_range a1 c H0 Hc) as R1.
  unfold mulv in *.
  destruct (Z.eqb_spec a2 INF) as [E2 | N2]; [lia |].
  destruct (Z.eqb_spec a1 INF) as [E1 | N1]; [lia |].
  assert (HP : 0 < 2 ^ bias) by (apply pow2_pos; unfold bias; lia).
  apply rnd_le.
  - apply Z.div_pos; nia.
  - apply Z.div_le_mono; nia.
Qed.

Lemma outOfPocketZ_mono (d cap a1 a2 : Z) :
  0 <= d -> rnd d = d -> 0 <= cap -> 0 <= a1 -> a1 <= a2 ->
  outOfPocketZ d cap a1 <= outOfPocketZ d cap a2.
Proof.
  intros Hd Hid Hcap H0 H12. unfold outOfPocketZ.
  destruct wf_lit_0_2 as [_ Hc].
  destruct (Z.ltb_spec d a1) as [L1 | G1]; destruct (Z.ltb_spec d a2) as [L2 | G2];
    try lia.
  - pose proof (rnd_range (a1 - d) ltac:(lia)) as R1.
    pose proof (rnd_range (a2 - d) ltac:(lia)) as R2.
    pose proof (rnd_le (a1 - d) (a2 - d) ltac:(lia) ltac:(lia)) as Hr.
    pose proof (mulv_le _ _ (ord (Binary64.lit 0.2)) (proj1 R1) Hr (proj2 R2) Hc).
    pose proof (mulv_range (rnd (a1 - d)) _ (proj1 R1) Hc).
    apply rnd_le; lia.
  - pose proof (rnd_range (a2 - d) ltac:(lia)) as R2.
    pose proof (mulv_range (rnd (a2 - d)) _ (proj1 R2) Hc).
    apply Z.le_trans with (rnd d); [rewrite Hid; lia |].
    apply rnd_le; lia.
Qed.

Lemma outOfPocketZ_le (d cap o a : Z) :
  0 <= d -> 0 <= cap -> d + cap <= o -> rnd o = o -> 0 <= a ->
  outOfPocketZ d cap a <= o.
Proof.
  intros Hd Hcap Hsum Hid Ha. unfold outOfPocketZ.
  destruct (Z.ltb_spec d a) as [L | G]; [| lia].
  destruct wf_lit_0_2 as [_ Hc].
  pose proof (rnd_range (a - d) ltac:(lia)) as R.
  pose proof (mulv_range (rnd (a - d)) _ (proj1 R) Hc).
  rewrite <- Hid. apply rnd_le; lia.
Qed.

End Binary64Facts.

(** What [thresholds_ok] checks, as propositions. *)
Lemma thresholds_ok_inv (d o : Binary64.t) :
  Rounding.thresholds_ok d o = true ->
  Rounding.wf d /\ (exists sd md ed, d = S754_finite sd md ed)
  /\ Rounding.wf o /\ Rounding.wf (Rounding.capPortion d o)
  /\ (Rounding.ord d + Rounding.ord (Rounding.capPortion d o) <= Rounding.ord o)%Z.
Proof.
  intros ok. unfold Rounding.thresholds_ok in ok.
  repeat (apply andb_true_iff in ok as [ok ?]).
  unfold Rounding.wf, Binary64.is_binary64 in *.
  repeat split; try assumption.
  - destruct d; try discriminate. now eexists _, _, _.
  - now apply Z.leb_le.
Qed.

Section Binary64Calculation.

Import Rounding RoundingFacts Binary64Facts.
Local Open Scope Z_scope.

Variables (plan : Plan Binary64.t) (coverage : Coverage) (d o : Binary64.t).
Hypothesis thresholds :
  thresholdsFor plan coverage = {| th_deductible := d; th_oopMax := o |}.
Hypothesis ok : thresholds_ok d o = true.

(** For a non-negative finite spend [s], the out-of-pocket total of the row
    is a binary64 number whose count is [outOfPocketZ] of the count of [s],
    and the row's [postDeductibleCost] is [<= 0]. *)
Lemma outOfPocket_binary64 (c s : Binary64.t) :
  wf s -> Number_isFinite s = true ->
  let r := calcPlan coverage c s plan in
  wf (outOfPocket r)
  /\ ord (outOfPocket r) = outOfPocketZ (ord d) (ord (capPortion d o)) (ord s)
  /\ (postDeductibleCost r <= lit 0)%js = true.
Proof.
  intros Hs Hfin. cbv zeta.
  destruct (thresholds_ok_inv d o ok) as (Hd & (sd & md & ed & Ed) & Ho & Hcap & Hsum).
  unfold outOfPocket, calcPlan. rewrite thresholds.
  cbn [preDeductibleCost postDeductibleCost Math_min Math_max Math_abs neg lt le
       sub mul add lit Binary64_Number coinsuranceRate].
  change (Binary64.Math_max (SFsub Binary64.prec Binary64.emax o d) (Binary64.lit 0))
    with (capPortion d o).
  destruct (Math_min_spec s d Hs Hd) as [Hmin Omin].
  destruct (wf_abs_opp _ Hmin) as [Hpre Opre]. rewrite Omin in Opre.
  rewrite (SFltb_ord d s Hd Hs). unfold outOfPocketZ.
  destruct (Z.ltb_spec (ord d) (ord s)) as [Lt | Ge].
  - (* above the deductible *)
    pose proof (ord_range d Hd) as Rd.
    destruct s as [ss | ss | | ss ms es]; try discriminate Hfin.
    { cbn [ord] in Lt. lia. }
    rewrite Ed in *.
    destruct (SFsub_spec ss sd ms md es ed Hs Hd ltac:(lia)) as [Hy Oy].
    rewrite lit_0_2.
    destruct (SFmul_spec _ false 0x1999999999999A (-55) Hy
                ltac:(split; reflexivity) ltac:(lia)) as [Hz Oz].
    match goal with
    | |- context [Binary64.Math_min ?z (capPortion ?d' ?o')] =>
        destruct (Math_min_spec z (capPortion d' o') Hz Hcap) as [Hx Ox]
    end.
    destruct (wf_abs_opp _ Hx) as [Hpost Opost].
    match goal with
    | |- context [SFadd _ _ ?a ?b] =>
        destruct (SFadd_spec a b Hpre Hpost) as [Ht Ot]
    end.
    split; [exact Ht |]. split.
    + rewrite Ot, Opre, Opost, Ox, Oz, Oy. f_equal. f_equal; lia.
    + now apply SFleb_opp_zero.
  - (* within the deductible *)
    rewrite lit_0.
    match goal with
    | |- context [SFadd _ _ ?a ?b] =>
        destruct (SFadd_spec a b Hpre ltac:(split; reflexivity)) as [Ht Ot]
    end.
    split; [exact Ht |]. split; [| reflexivity].
    rewrite Ot, Opre. cbn [SFabs SFopp ord]. rewrite Z.add_0_r.
    rewrite Z.min_l by lia. now apply rnd_ord.
Qed.

End Binary64Calculation.

(** ** Threshold selection *)

Section Thresholds.

Context {num : Type} `{Number num}.

Lemma thresholdsFor_effective (plan : Plan num) (coverage : Coverage) :
  thresholdsFor plan coverage
  = {| th_deductible := effectiveDeductible plan coverage;
       th_oopMax := effectiveOutOfPocketMax plan coverage |}.
Proof.
  unfold thresholdsFor, effectiveDeductible, effectiveOutOfPocketMax.
  destruct (deductible (details plan)), coverage; reflexivity.
Qed.

(** C2.  For every plan and every coverage, the deductible that
    [thresholdsFor] returns is the effective deductible (by shape:
    [employeeOnly] or [person] for [employee], [twoPlus] or [family] for
    the other tiers) and the out-of-pocket maximum it returns is the
    effective one ([person] for [employee], [family] otherwise). *)
Theorem thresholdsFor_selects (plan : Plan num) (coverage : Coverage) :
  th_deductible (thresholdsFor plan coverage) = effectiveDeductible plan coverage
  /\ th_oopMax (thresholdsFor plan coverage) = effectiveOutOfPocketMax plan coverage.
Proof.
  rewrite thresholdsFor_effective. split; reflexivity.
Qed.

End Thresholds.

Lemma catalog_thresholds_exact (plan : Plan Exact.t) (coverage : Coverage) :
  In plan PLAN_ORDER ->
  exists d o : Q,
    thresholdsFor plan coverage
    = {| th_deductible := Exact.Fin d; th_oopMax := Exact.Fin o |}
    /\ 0 <= d /\ d <= o.
Proof.
  intros [<- | [<- | [<- | []]]]; destruct coverage;
    (eexists; eexists; split; [reflexivity | split; discriminate]).
Qed.

Lemma finiteThresholds_exact (plan : Plan Exact.t) (coverage : Coverage) :
  finiteThresholds plan coverage = true ->
  exists d o : Q,
    thresholdsFor plan coverage
    = {| th_deductible := Exact.Fin d; th_oopMax := Exact.Fin o |}.
Proof.
  unfold finiteThresholds. intros Hfin. apply andb_true_iff in Hfin as [Hd Ho].
  destruct (thresholdsFor plan coverage) as [td to]. cbn in Hd, Ho.
  apply ExactFacts.isFinite_Fin in Hd as [d ->].
  apply ExactFacts.isFinite_Fin in Ho as [o ->].
  now exists d, o.
Qed.

Lemma catalog_finiteThresholds_exact (plan : Plan Exact.t) (coverage : Coverage) :
  In plan PLAN_ORDER -> finiteThresholds plan coverage = true.
Proof.
  intros [<- | [<- | [<- | []]]]; now destruct coverage.
Qed.

(** ** Out-of-pocket cap and monotonicity *)

Lemma out_of_pocket_cap_exact
    (plan : Plan Exact.t) (coverage : Coverage) (spend contribution : Exact.t) :
  In plan PLAN_ORDER ->
  Number_isFinite spend = true ->
  (lit 0 <= spend)%js = true ->
  let r := calcPlan coverage contribution spend plan in
  (postDeductibleCost r <= lit 0)%js = true
  /\ (outOfPocket r <= effectiveOutOfPocketMax plan coverage)%js = true.
Proof.
  intros Hin Hfin Hpos r. subst r.
  apply ExactFacts.isFinite_Fin in Hfin as [q ->].
  apply ExactFacts.le_Fin in Hpos.
  destruct (catalog_thresholds_exact plan coverage Hin) as (d & o & Hth & Hd & Hdo).
  rewrite (outOfPocket_exact _ _ _ _ Hth), (postDeductibleCost_exact _ _ _ _ Hth).
  assert (Ho : effectiveOutOfPocketMax plan coverage = Exact.Fin o).
  { rewrite thresholdsFor_effective in Hth. now injection Hth. }
  rewrite Ho. split; apply ExactFacts.le_Fin.
  - pose proof (OutOfPocketFacts.postRawQ_nonneg d o q). lra.
  - now apply OutOfPocketFacts.outOfPocketQ_le_oopMax.
Qed.

Lemma out_of_pocket_monotone_exact
    (plan : Plan Exact.t) (coverage : Coverage) (contribution s1 s2 : Exact.t) :
  finiteThresholds plan coverage = true ->
  Number_isFinite s1 = true ->
  Number_isFinite s2 = true ->
  (lit 0 <= s1)%js = true ->
  (s1 <= s2)%js = true ->
  (outOfPocket (calcPlan coverage contribution s1 plan)
   <= outOfPocket (calcPlan coverage contribution s2 plan))%js = true.
Proof.
  intros Hth Hf1 Hf2 H0 H12.
  apply ExactFacts.isFinite_Fin in Hf1 as [q1 ->].
  apply ExactFacts.isFinite_Fin in Hf2 as [q2 ->].
  apply ExactFacts.le_Fin in H0, H12.
  destruct (finiteThresholds_exact _ _ Hth) as (d & o & Heq).
  rewrite !(outOfPocket_exact _ _ _ _ Heq).
  apply ExactFacts.le_Fin. now apply OutOfPocketFacts.outOfPocketQ_monotone.
Qed.

(** The twelve threshold pairs of the catalog pass [thresholds_ok]. *)
Lemma catalog_thresholds_binary64 (plan : Plan Binary64.t) (coverage : Coverage) :
  In plan PLAN_ORDER ->
  Rounding.thresholds_ok (th_deductible (thresholdsFor plan coverage))
                         (th_oopMax (thresholdsFor plan coverage)) = true.
Proof.
  intros [<- | [<- | [<- | []]]]; destruct coverage; vm_compute; reflexivity.
Qed.

(** A binary64 spend that passes [0 <= s] is a non-negative number, and so
    is every binary64 number above it. *)
Lemma wf_spend (s : Binary64.t) :
  Binary64.is_binary64 s = true -> (lit 0 <= s)%js = true -> Rounding.wf s.
Proof.
  intros Hv Hpos. split; [| exact Hv].
  destruct s as [[|] | [|] | | [|] m e]; try reflexivity; discriminate Hpos.
Qed.

Lemma wf_above (s1 s2 : Binary64.t) :
  Rounding.wf s1 -> Binary64.is_binary64 s2 = true -> (s1 <= s2)%js = true ->
  Rounding.wf s2.
Proof.
  intros [Hn1 _] Hv H12. split; [| exact Hv].
  destruct s1 as [[|] | [|] | | [|] m1 e1]; try discriminate Hn1;
    destruct s2 as [[|] | [|] | | [|] m2 e2]; try reflexivity; discriminate H12.
Qed.

Lemma out_of_pocket_cap_binary64
    (plan : Plan Binary64.t) (coverage : Coverage) (spend contribution : Binary64.t) :
  In plan PLAN_ORDER ->
  Binary64.is_binary64 spend = true ->
  Number_isFinite spend = true ->
  (lit 0 <= spend)%js = true ->
  let r := calcPlan coverage contribution spend plan in
  (postDeductibleCost r <= lit 0)%js = true
  /\ (outOfPocket r <= effectiveOutOfPocketMax plan coverage)%js = true.
Proof.
  intros Hin Hv Hfin Hpos r. subst r.
  pose proof (wf_spend spend Hv Hpos) as Hs.
  pose proof (catalog_thresholds_binary64 plan coverage Hin) as Hok.
  assert (Ho : effectiveOutOfPocketMax plan coverage
               = th_oopMax (thresholdsFor plan coverage))
    by now rewrite thresholdsFor_effective.
  rewrite Ho. clear Ho.
  destruct (thresholdsFor plan coverage) as [d o] eqn:Hth. cbn [th_deductible th_oopMax] in *.
  destruct (outOfPocket_binary64 plan coverage d o Hth Hok contribution spend Hs Hfin)
    as (Hwf & Hord & Hpost).
  split; [exact Hpost |].
  destruct (thresholds_ok_inv d o Hok) as (Hd & _ & Howf & Hcap & Hsum).
  change (outOfPocket (calcPlan coverage contribution spend plan) <= o)%js
    with (SFleb (outOfPocket (calcPlan coverage contribution spend plan)) o).
  rewrite (RoundingFacts.SFleb_ord _ _ Hwf Howf), Hord.
  apply Z.leb_le. apply Binary64Facts.outOfPocketZ_le.
  - apply (RoundingFacts.ord_range d Hd).
  - apply (RoundingFacts.ord_range _ Hcap).
  - exact Hsum.
  - now apply RoundingFacts.rnd_ord.
  - apply (RoundingFacts.ord_range spend Hs).
Qed.

Lemma out_of_pocket_monotone_binary64
    (plan : Plan Binary64.t) (coverage : Coverage) (contribution s1 s2 : Binary64.t) :
  In plan PLAN_ORDER ->
  Binary64.is_binary64 s1 = true ->
  Binary64.is_binary64 s2 = true ->
  Number_isFinite s1 = true ->
  Number_isFinite s2 = true ->
  (lit 0 <= s1)%js = true ->
  (s1 <= s2)%js = true ->
  (outOfPocket (calcPlan coverage contribution s1 plan)
   <= outOfPocket (calcPlan coverage contribution s2 plan))%js = true.
Proof.
  intros Hin Hv1 Hv2 Hf1 Hf2 H0 H12.
  pose proof (wf_spend s1 Hv1 H0) as Hs1.
  pose proof (wf_above s1 s2 Hs1 Hv2 H12) as Hs2.
  pose proof (catalog_thresholds_binary64 plan coverage Hin) as Hok.
  destruct (thresholdsFor plan coverage) as [d o] eqn:Hth. cbn [th_deductible th_oopMax] in *.
  destruct (outOfPocket_binary64 plan coverage d o Hth Hok contribution s1 Hs1 Hf1)
    as (Hwf1 & Hord1 & _).
  destruct (outOfPocket_binary64 plan coverage d o Hth Hok contribution s2 Hs2 Hf2)
    as (Hwf2 & Hord2 & _).
  destruct (thresholds_ok_inv d o Hok) as (Hd & (sd & md & ed & Ed) & _ & Hcap & _).
  change (SFleb (outOfPocket (calcPlan coverage contribution s1 plan))
                (outOfPocket (calcPlan coverage contribution s2 plan)) = true).
  rewrite (RoundingFacts.SFleb_ord _ _ Hwf1 Hwf2), Hord1, Hord2.
  apply Z.leb_le. apply Binary64Facts.outOfPocketZ_mono.
  - apply (RoundingFacts.ord_range d Hd).
  - now apply RoundingFacts.rnd_ord.
  - apply (RoundingFacts.ord_range _ Hcap).
  - apply (RoundingFacts.ord_range s1 Hs1).
  - apply Z.leb_le. rewrite <- (RoundingFacts.SFleb_ord s1 s2 Hs1 Hs2). exact H12.
Qed.

(** C1.  Out-of-pocket cap: for every plan of the catalog, every coverage,
    every finite spend [>= 0] and every contribution (in [0, tierCap] or
    not), [postDeductibleCost <= 0] and
    [|preDeductibleCost| + |postDeductibleCost|] is at most the effective
    out-of-pocket maximum of the plan and coverage: in exact arithmetic,
    and in binary64 arithmetic with every operation rounded to nearest. *)
Theorem out_of_pocket_cap :
  (forall (plan : Plan Exact.t) (coverage : Coverage) (spend contribution : Exact.t),
      In plan PLAN_ORDER ->
      Number_isFinite spend = true ->
      (lit 0 <= spend)%js = true ->
      let r := calcPlan coverage contribution spend plan in
      (postDeductibleCost r <= lit 0)%js = true
      /\ (outOfPocket r <= effectiveOutOfPocketMax plan coverage)%js = true)
  /\
  (forall (plan : Plan Binary64.t) (coverage : Coverage)
          (spend contribution : Binary64.t),
      In plan PLAN_ORDER ->
      Binary64.is_binary64 spend = true ->
      Number_isFinite spend = true ->
      (lit 0 <= spend)%js = true ->
      let r := calcPlan coverage contribution spend plan in
      (postDeductibleCost r <= lit 0)%js = true
      /\ (outOfPocket r <= effectiveOutOfPocketMax plan coverage)%js = true).
Proof.
  split; [exact out_of_pocket_cap_exact | exact out_of_pocket_cap_binary64].
Qed.

Lemma out_of_pocket_cap_witness :
  (let r := calcPlan employee (lit 600) (lit 5000) (hdhpA (num := Exact.t)) in
   (postDeductibleCost r <= lit 0)%js = true
   /\ (outOfPocket r <= effectiveOutOfPocketMax hdhpA employee)%js = true)
  /\
  (let r := calcPlan employee (lit 600) (lit 5000) (hdhpA (num := Binary64.t)) in
   (postDeductibleCost r <= lit 0)%js = true
   /\ (outOfPocket r <= effectiveOutOfPocketMax hdhpA employee)%js = true).
Proof.
  split.
  - apply (proj1 out_of_pocket_cap hdhpA employee (lit 5000) (lit 600)).
    + right; left; reflexivity.
    + reflexivity.
    + reflexivity.
  - apply (proj2 out_of_pocket_cap hdhpA employee (lit 5000) (lit 600)).
    + right; left; reflexivity.
    + reflexivity.
    + reflexivity.
    + reflexivity.
Defined.

(** C4.  Monotonicity: for every plan, every coverage and every
    contribution, the total [|preDeductibleCost| + |postDeductibleCost|]
    does not decrease when the spend grows: finite spends [0 <= s1 <= s2]
    give [outOfPocket] at [s1] [<=] [outOfPocket] at [s2].  In exact
    arithmetic for every plan whose thresholds are finite numbers (those of
    the catalog are, [catalog_finiteThresholds_exact]); in binary64
    arithmetic, every operation rounded to nearest, for the plans of the
    catalog. *)
Theorem out_of_pocket_monotone :
  (forall (plan : Plan Exact.t) (coverage : Coverage) (contribution s1 s2 : Exact.t),
      finiteThresholds plan coverage = true ->
      Number_isFinite s1 = true ->
      Number_isFinite s2 = true ->
      (lit 0 <= s1)%js = true ->
      (s1 <= s2)%js = true ->
      (outOfPocket (calcPlan coverage contribution s1 plan)
       <= outOfPocket (calcPlan coverage contribution s2 plan))%js = true)
  /\
  (forall (plan : Plan Binary64.t) (coverage : Coverage)
          (contribution s1 s2 : Binary64.t),
      In plan PLAN_ORDER ->
      Binary64.is_binary64 s1 = true ->
      Binary64.is_binary64 s2 = true ->
      Number_isFinite s1 = true ->
      Number_isFinite s2 = true ->
      (lit 0 <= s1)%js = true ->
      (s1 <= s2)%js = true ->
      (outOfPocket (calcPlan coverage contribution s1 plan)
       <= outOfPocket (calcPlan coverage contribution s2 plan))%js = true).
Proof.
  split; [exact out_of_pocket_monotone_exact | exact out_of_pocket_monotone_binary64].
Qed.

Lemma out_of_pocket_monotone_witness :
  (outOfPocket (calcPlan family (lit 1200) (lit 9000) (hdhpB (num := Exact.t)))
   <= outOfPocket (calcPlan family (lit 1200) (lit 20000) hdhpB))%js = true
  /\
  (outOfPocket (calcPlan family (lit 1200) (lit 9000) (hdhpB (num := Binary64.t)))
   <= outOfPocket (calcPlan family (lit 1200) (lit 20000) hdhpB))%js = true.
Proof.
  split.
  - apply (proj1 out_of_pocket_monotone hdhpB family (lit 1200) (lit 9000) (lit 20000));
      reflexivity.
  - apply (proj2 out_of_pocket_monotone hdhpB family (lit 1200) (lit 9000) (lit 20000));
      try reflexivity.
    right; right; left; reflexivity.
Defined.

(** ** The concrete scenario *)

(** C3.  HDHP Plan A, [employee], spend 5000, contribution 600: the second
    row of [calcResults] is the row of HDHP Plan A, with
    [annualEmployeePremiumCost = -1056], [hsaBenefit = 600],
    [preDeductibleCost = -1700], [postDeductibleCost = -660] and
    [totalSpending = -2816]: up to [===] in exact arithmetic, and as the
    very binary64 numbers in rounded arithmetic. *)
Theorem scenario_hdhpA_employee :
  (let r := calcPlan employee (lit 600) (lit 5000) (hdhpA (num := Exact.t)) in
   nth_error (calcResults employee (lit 600) (lit 5000)) 1 = Some r
   /\ (annualEmployeePremiumCost r === lit (-1056))%js = true
   /\ (hsaBenefit r === lit 600)%js = true
   /\ (preDeductibleCost r === lit (-1700))%js = true
   /\ (postDeductibleCost r === lit (-660))%js = true
   /\ (totalSpending r === lit (-2816))%js = true)
  /\
  (let r := calcPlan employee (lit 600) (lit 5000) (hdhpA (num := Binary64.t)) in
   nth_error (calcResults employee (lit 600) (lit 5000)) 1 = Some r
   /\ annualEmployeePremiumCost r = lit (-1056)
   /\ hsaBenefit r = lit 600
   /\ preDeductibleCost r = lit (-1700)
   /\ postDeductibleCost r = lit (-660)
   /\ totalSpending r = lit (-2816)).
Proof.
  split; cbv zeta; (split; [reflexivity |]); repeat split; vm_compute; reflexivity.
Qed.

(** ** Contribution including the employer match *)

(** C5.  [totalContributionIncludingMatch] returns the employee's
    contribution unchanged when [matchCap <= 0]; otherwise the contribution
    plus [matchCap] when [employee >= matchCap]; otherwise twice the
    contribution.  In particular it maps (0, 500) to 500, (600, 600) to 1200
    and (600, 300) to 600, in exact and in binary64 arithmetic. *)
Theorem totalContributionIncludingMatch_cases :
  (forall (num : Type) (N : Number num) (matchCap employee : num),
      ((matchCap <= lit 0)%js = true ->
       totalContributionIncludingMatch matchCap employee = employee)
      /\ ((matchCap <= lit 0)%js = false -> (employee >= matchCap)%js = true ->
          totalContributionIncludingMatch matchCap employee
          = (employee + matchCap)%js)
      /\ ((matchCap <= lit 0)%js = false -> (employee >= matchCap)%js = false ->
          totalContributionIncludingMatch matchCap employee
          = (employee * lit 2)%js))
  /\ (totalContributionIncludingMatch (num := Exact.t) (lit 0) (lit 500) = lit 500
      /\ totalContributionIncludingMatch (num := Exact.t) (lit 600) (lit 600) = lit 1200
      /\ totalContributionIncludingMatch (num := Exact.t) (lit 600) (lit 300) = lit 600)
  /\ (totalContributionIncludingMatch (num := Binary64.t) (lit 0) (lit 500) = lit 500
      /\ totalContributionIncludingMatch (num := Binary64.t) (lit 600) (lit 600) = lit 1200
      /\ totalContributionIncludingMatch (num := Binary64.t) (lit 600) (lit 300) = lit 600).
Proof.
  split; [| repeat split; vm_compute; reflexivity].
  intros num N matchCap emp. unfold totalContributionIncludingMatch.
  split; [| split].
  - now intros ->.
  - now intros -> ->.
  - now intros -> ->.
Qed.

Lemma totalContributionIncludingMatch_cases_witness :
  totalContributionIncludingMatch (num := Binary64.t) (lit 600) (lit 300)
  = (lit 300 * lit 2)%js.
Proof.
  apply (proj2 (proj2 (proj1 totalContributionIncludingMatch_cases
                         Binary64.t _ (lit 600) (lit 300)))); reflexivity.
Defined.

(** ** Premium and plan order *)

Section PremiumAndOrder.

Context {num : Type} `{Number num}.
Local Open Scope js_scope.

Lemma annualEmployeePremiumCost_calcPlan
    (p : Plan num) (cov : Coverage) (contribution spend : num) :
  annualEmployeePremiumCost (calcPlan cov contribution spend p)
  = - (monthly (costs p cov) * lit 12).
Proof. unfold calcPlan. now destruct (thresholdsFor p cov). Qed.

Lemma plan_calcPlan (p : Plan num) (cov : Coverage) (contribution spend : num) :
  plan (calcPlan cov contribution spend p) = p.
Proof. unfold calcPlan. now destruct (thresholdsFor p cov). Qed.

(** C7.  In every render, every row's [annualEmployeePremiumCost] is
    [-(plan.costs[coverage].monthly * 12)]; switching the display mode
    leaves the rendered results unchanged (the mode only selects the figure
    that [premiumFor] shows), and so does replacing the stored
    per-pay-period figures of a plan. *)
Theorem annual_premium_from_monthly :
  (forall (p : Plan num) (cov : Coverage) (contribution spend : num),
      annualEmployeePremiumCost (calcPlan cov contribution spend p)
      = - (monthly (costs p cov) * lit 12))
  /\ (forall (p : Plan num) (cov : Coverage),
         premiumFor p cov monthly_mode = monthly (costs p cov)
         /\ premiumFor p cov pay_mode = pay (costs p cov))
  /\ (forall st : State num,
         Forall (fun r => annualEmployeePremiumCost r
                          = - (monthly (costs (plan r) (coverage st)) * lit 12))
                (render st))
  /\ (forall (st : State num) (m : DisplayMode),
         render (handle st (DisplayModeChange m)) = render st)
  /\ (forall (f : Coverage -> num) (p : Plan num) (cov : Coverage)
             (contribution spend : num),
         annualEmployeePremiumCost (calcPlan cov contribution spend (withPay f p))
         = annualEmployeePremiumCost (calcPlan cov contribution spend p)).
Proof.
  split; [exact annualEmployeePremiumCost_calcPlan | split; [| split; [| split]]].
  - intros p cov. split; reflexivity.
  - intros st. unfold render, calcResults. apply Forall_map, Forall_forall.
    intros p _. now rewrite annualEmployeePremiumCost_calcPlan, plan_calcPlan.
  - reflexivity.
  - intros f p cov c s. now rewrite !annualEmployeePremiumCost_calcPlan.
Qed.

(** C8.  The plan list has exactly three elements, in the order
    traditional, HDHP Plan A, HDHP Plan B; the rows of [calcResults] follow
    the same order. *)
Theorem PLAN_ORDER_fixed :
  PLAN_ORDER = [traditional; hdhpA; hdhpB]
  /\ List.length (PLAN_ORDER (num := num)) = 3%nat
  /\ map name (PLAN_ORDER (num := num))
     = ["SelectHealth Traditional"; "SelectHealth HDHP Plan A";
        "SelectHealth HDHP Plan B"]%string
  /\ (forall (cov : Coverage) (contribution spend : num),
         map plan (calcResults cov contribution spend) = PLAN_ORDER).
Proof.
  split; [reflexivity | split; [reflexivity | split; [reflexivity |]]].
  intros cov c s. unfold calcResults, PLAN_ORDER. cbn [map].
  now rewrite !plan_calcPlan.
Qed.

End PremiumAndOrder.

(** ** Catalog invariants *)

(** C9.  For every plan of the catalog and every coverage the effective
    deductible is at most the effective out-of-pocket maximum, and
    [Math.max(oopMax - deductible, 0)] is [oopMax - deductible], which is
    non-negative; in exact and in binary64 arithmetic. *)
Theorem catalog_deductible_le_oopMax :
  (forall (plan : Plan Exact.t) (coverage : Coverage),
      In plan PLAN_ORDER -> capGuardIdle plan coverage)
  /\ (forall (plan : Plan Binary64.t) (coverage : Coverage),
         In plan PLAN_ORDER -> capGuardIdle plan coverage).
Proof.
  split; intros plan coverage [<- | [<- | [<- | []]]]; destruct coverage;
    repeat split; vm_compute; reflexivity.
Qed.

Lemma catalog_deductible_le_oopMax_witness :
  capGuardIdle (hdhpB (num := Exact.t)) family
  /\ capGuardIdle (hdhpB (num := Binary64.t)) family.
Proof.
  split.
  - apply (proj1 catalog_deductible_le_oopMax hdhpB family).
    right; right; left; reflexivity.
  - apply (proj2 catalog_deductible_le_oopMax hdhpB family).
    right; right; left; reflexivity.
Defined.

(** C10.  For every coverage, HDHP Plan A and HDHP Plan B define the same
    employer match, 600 for [employee] and 1200 otherwise, and
    [maxMatchForCoverage] is that common value; in exact and in binary64
    arithmetic. *)
Theorem maxMatchForCoverage_common (coverage : Coverage) :
  (hsaMatch (hdhpA (num := Exact.t)) coverage = hsaMatch hdhpB coverage
   /\ hsaMatch (hdhpA (num := Exact.t)) coverage
      = (if Coverage_eqb coverage employee then lit 600 else lit 1200)
   /\ maxMatchForCoverage (num := Exact.t) coverage
      = hsaMatch hdhpA coverage)
  /\
  (hsaMatch (hdhpA (num := Binary64.t)) coverage = hsaMatch hdhpB coverage
   /\ hsaMatch (hdhpA (num := Binary64.t)) coverage
      = (if Coverage_eqb coverage employee then lit 600 else lit 1200)
   /\ maxMatchForCoverage (num := Binary64.t) coverage
      = hsaMatch hdhpA coverage).
Proof.
  destruct coverage; repeat split; vm_compute; reflexivity.
Qed.

(** ** What the input handlers pass to the calculation *)

Section Inputs.

Context {num : Type} `{Number num}.

(** The spend handler stores [Number(e.target.value)] as it is. *)
Lemma expectedSpend_stored (st : State num) (value : num) :
  expectedSpend (handle st (ExpectedSpendChange value)) = value.
Proof. reflexivity. Qed.

(** A coverage change leaves the stored contribution as it is. *)
Lemma contribution_kept_on_coverage_change (st : State num) (c : Coverage) :
  employeeContribution (handle st (CoverageChange c)) = employeeContribution st.
Proof. reflexivity. Qed.

End Inputs.

Lemma coverageMaxHSA_exact (coverage : Coverage) :
  exists k : Q, coverageMaxHSA coverage = Exact.Fin k /\ 4400 <= k /\ k <= 8750.
Proof.
  destruct coverage; eexists; (split; [reflexivity | split; discriminate]).
Qed.

(** [onSetContribution] does normalise and clamp: whatever number arrives,
    the stored contribution is finite and within [[0, coverageMaxHSA]] of the
    coverage selected at that moment. *)
Lemma onSetContribution_in_range (st : State Exact.t) (val : Exact.t) :
  let st' := onSetContribution st val in
  exists q k : Q,
    employeeContribution st' = Exact.Fin q
    /\ coverageMaxHSA (coverage st') = Exact.Fin k
    /\ 0 <= q /\ q <= k.
Proof.
  cbv zeta. unfold onSetContribution, hsaMaxByCoverage.
  cbn [employeeContribution coverage].
  destruct (coverageMaxHSA_exact (coverage st)) as (k & -> & Hk & _).
  assert (Hn : exists n, (if Number_isFinite val then val else lit 0) = Exact.Fin n).
  { destruct val; cbn; eauto. }
  destruct Hn as [n ->].
  cbn [Math_min Math_max lit Exact_Number].
  rewrite ExactFacts.Math_min_Fin, ExactFacts.Math_max_Fin.
  exists (Qmax 0 (Qmin k n)), k. repeat split.
  - apply Q.le_max_l.
  - apply Q.max_lub; [lra | apply Q.le_min_l].
Qed.

(** Along every sequence of events the stored contribution stays finite and
    within [[0, 8750]], the larger of the two caps. *)
Lemma run_contribution_bounded (evs : list (Event Exact.t)) :
  exists q : Q,
    employeeContribution (run evs initialState) = Exact.Fin q
    /\ 0 <= q /\ q <= 8750.
Proof.
  unfold run.
  assert (Hgen : forall st : State Exact.t,
             (exists q, employeeContribution st = Exact.Fin q /\ 0 <= q /\ q <= 8750) ->
             exists q, employeeContribution (fold_left handle evs st) = Exact.Fin q
                       /\ 0 <= q /\ q <= 8750).
  { induction evs as [| ev evs IH]; intros st Hst; [exact Hst |].
    cbn [fold_left]. apply IH. destruct ev as [c | m | v | v]; try exact Hst.
    cbn [handle].
    destruct (onSetContribution_in_range st v) as (q & k & Hq & Hk & H0 & Hqk).
    destruct (coverageMaxHSA_exact (coverage (onSetContribution st v)))
      as (k' & Hk' & _ & Hle).
    rewrite Hk in Hk'. injection Hk' as <-.
    exists q. repeat split; try assumption. lra. }
  apply Hgen. exists 0. repeat split; discriminate.
Qed.

(** The same at the binary64 interpretation: the clamp of a finite number
    against a positive finite cap is a finite number between [0] and the
    cap. *)
Lemma clamp_binary64 (cap n : Binary64.t) :
  Rounding.wf cap -> Number_isFinite cap = true ->
  Binary64.is_binary64 n = true -> Number_isFinite n = true ->
  let r := Math_max (lit 0) (Math_min cap n) in
  Number_isFinite r = true /\ (lit 0 <= r)%js = true /\ (r <= cap)%js = true.
Proof.
  intros Hcap Hcf Hn Hnf. cbv zeta.
  cbn [Math_min Math_max lit le Binary64_Number]. rewrite Binary64Facts.lit_0.
  assert (H0 : Rounding.wf (S754_zero false)) by (split; reflexivity).
  destruct (Bool.bool_dec (Rounding.nonneg n) true) as [Hpos | Hneg].
  - assert (Hwn : Rounding.wf n) by (split; assumption).
    destruct (Binary64Facts.Math_min_spec cap n Hcap Hwn) as [Hm Om].
    destruct (Binary64Facts.Math_max_spec _ _ H0 Hm) as [Hr Or].
    pose proof (RoundingFacts.ord_range cap Hcap) as Rc.
    pose proof (RoundingFacts.ord_range n Hwn) as Rn.
    change (Rounding.ord (S754_zero false)) with 0%Z in Or.
    rewrite (RoundingFacts.SFleb_ord _ _ H0 Hr), (RoundingFacts.SFleb_ord _ _ Hr Hcap).
    rewrite Or, Om. cbn [Rounding.ord]. repeat split; try (apply Z.leb_le; lia).
    destruct (Binary64.Math_max (S754_zero false) (Binary64.Math_min cap n))
      as [s | s | | s m e] eqn:E; try reflexivity.
    + exfalso. cbn [Rounding.ord] in Or.
      destruct cap as [sc | sc | | sc mc ec]; try discriminate Hcf.
      * cbn [Rounding.ord] in *. pose proof RoundingFacts.INF_pos. lia.
      * pose proof (RoundingFacts.ord_finite_bounds _ _ _ Hcap). lia.
    + destruct Hr as [Hr _]. discriminate Hr.
  - assert (Hm : Binary64.Math_max (S754_zero false) (Binary64.Math_min cap n)
                 = S754_zero false).
    { destruct Hcap as [Hcn _].
      destruct cap as [sc | sc | | sc mc ec]; try discriminate Hcf;
        destruct n as [[|] | sn | | [|] mn en]; try discriminate Hnf;
        try (exfalso; apply Hneg; reflexivity);
        destruct sc; try discriminate Hcn; reflexivity. }
    rewrite Hm. repeat split.
    destruct Hcap as [Hcn _].
    destruct cap as [sc | sc | | [|] mc ec]; try discriminate Hcf;
      try discriminate Hcn; reflexivity.
Qed.

Lemma onSetContribution_in_range_binary64 (st : State Binary64.t) (val : Binary64.t) :
  Binary64.is_binary64 val = true ->
  let st' := onSetContribution st val in
  Number_isFinite (employeeContribution st') = true
  /\ (lit 0 <= employeeContribution st')%js = true
  /\ (employeeContribution st' <= coverageMaxHSA (coverage st'))%js = true.
Proof.
  intros Hv. cbv zeta. unfold onSetContribution, hsaMaxByCoverage.
  cbn [employeeContribution coverage].
  apply clamp_binary64.
  - now destruct (coverage st).
  - now destruct (coverage st).
  - destruct (Number_isFinite val); [exact Hv | reflexivity].
  - destruct (Number_isFinite val) eqn:E; [exact E | reflexivity].
Qed.

(** A typed negative amount reaches the calculation as the spend. *)
Lemma negative_spend_reaches_calculation :
  let st := run [ExpectedSpendChange (lit (-500))] (initialState (num := Exact.t)) in
  inRange st = false
  /\ render st = calcResults family (lit 0) (lit (-500)).
Proof. split; vm_compute; reflexivity. Qed.

(** C6.  The calculation can receive a contribution above the cap of the
    selected coverage: with the initial coverage [family], entering 8000 is
    accepted (8000 <= 8750); selecting [employee] afterwards keeps 8000,
    above [coverageMaxHSA employee = 4400], and the next render calls the
    calculation with it.  Exact and binary64 arithmetic. *)
Theorem contribution_above_cap_after_coverage_change :
  (let st := run [ContributionChange (lit 8000); CoverageChange employee]
                 (initialState (num := Exact.t)) in
   coverage st = employee
   /\ employeeContribution st = lit 8000
   /\ coverageMaxHSA (num := Exact.t) (coverage st) = lit 4400
   /\ (employeeContribution st <= coverageMaxHSA (coverage st))%js = false
   /\ inRange st = false
   /\ render st = calcResults employee (lit 8000) (lit 0))
  /\
  (let st := run [ContributionChange (lit 8000); CoverageChange employee]
                 (initialState (num := Binary64.t)) in
   coverage st = employee
   /\ employeeContribution st = lit 8000
   /\ coverageMaxHSA (num := Binary64.t) (coverage st) = lit 4400
   /\ (employeeContribution st <= coverageMaxHSA (coverage st))%js = false
   /\ inRange st = false
   /\ render st = calcResults employee (lit 8000) (lit 0)).
Proof.
  split; cbv zeta; repeat split; vm_compute; reflexivity.
Qed.

(** * Further properties *)

(** ** Text and keys *)

Section ViewFacts.

Context {num : Type} `{Number num}.
Variable currency : num -> string.

(** X1.  The two amounts that [deductibleText] and [oopText] show are the
    thresholds that the calculation uses: the first line carries the
    threshold of [employee], the second line the threshold of every other
    coverage. *)
Theorem texts_show_thresholds (plan : Plan num) (coverage : Coverage) :
  coverage <> employee ->
  deductibleText currency plan
  = (fst (deductibleLabels plan)
     ++ currency (th_deductible (thresholdsFor plan employee)) ++ "
" ++ snd (deductibleLabels plan)
     ++ currency (th_deductible (thresholdsFor plan coverage)))%string
  /\ oopText currency plan
     = ("Person " ++ currency (th_oopMax (thresholdsFor plan employee)) ++ "
Family " ++ currency (th_oopMax (thresholdsFor plan coverage)))%string.
Proof.
  intros Hc. unfold deductibleText, oopText, deductibleLabels, thresholdsFor.
  cbn [th_deductible th_oopMax].
  destruct (deductible (details plan)); destruct coverage;
    try (exfalso; apply Hc; reflexivity); split; reflexivity.
Qed.

End ViewFacts.

Lemma texts_show_thresholds_witness :
  let currency := fun _ : Exact.t => "$"%string in
  deductibleText currency hdhpA
  = (fst (deductibleLabels (hdhpA (num := Exact.t)))
     ++ currency (th_deductible (thresholdsFor hdhpA employee)) ++ "
" ++ snd (deductibleLabels (hdhpA (num := Exact.t)))
     ++ currency (th_deductible (thresholdsFor hdhpA family)))%string
  /\ oopText currency hdhpA
     = ("Person " ++ currency (th_oopMax (thresholdsFor hdhpA employee)) ++ "
Family " ++ currency (th_oopMax (thresholdsFor hdhpA family)))%string.
Proof.
  apply (texts_show_thresholds (fun _ : Exact.t => "$"%string) hdhpA family).
  discriminate.
Defined.

Section KeyFacts.

Context {num : Type} `{Number num}.

(** X2.  Keys never repeat among siblings: for every suffix the keys of a
    table row are pairwise different, and so are the keys of a row of the
    calculated costs in every render. *)
Theorem keys_distinct (suffix : string) (st : State num) :
  NoDup (planKeys (num := num) suffix) /\ NoDup (resultKeys suffix st).
Proof.
  assert (Hk : NoDup (planKeys (num := num) suffix)).
  { unfold planKeys, PLAN_ORDER. cbn [map name traditional hdhpA hdhpB append].
    repeat constructor; cbn [In]; intros H'; repeat destruct H' as [H' | H'];
      try discriminate H'; exact H'. }
  split; [exact Hk |].
  unfold resultKeys, render, calcResults. rewrite map_map.
  erewrite map_ext; [exact Hk |].
  intros p. cbn beta. now rewrite plan_calcPlan.
Qed.

End KeyFacts.

(** ** The rows of the calculation in exact arithmetic *)

Lemma catalog_row_exact (plan : Plan Exact.t) (coverage : Coverage) :
  In plan PLAN_ORDER ->
  exists mo m d o : Q,
    monthly (costs plan coverage) = Exact.Fin mo
    /\ hsaMatch plan coverage = Exact.Fin m
    /\ thresholdsFor plan coverage
       = {| th_deductible := Exact.Fin d; th_oopMax := Exact.Fin o |}
    /\ 0 <= mo /\ 0 <= m /\ 0 <= d /\ d <= o.
Proof.
  intros [<- | [<- | [<- | []]]]; destruct coverage;
    (do 4 eexists; repeat (split; [reflexivity |]); repeat split; discriminate).
Qed.

Section ExactRow.

Import ExactFacts.
Local Open Scope js_scope.

Variables (plan : Plan Exact.t) (coverage : Coverage) (mo m d o : Q).
Hypothesis premium : monthly (costs plan coverage) = Exact.Fin mo.
Hypothesis employerMatch : hsaMatch plan coverage = Exact.Fin m.
Hypothesis thresholds :
  thresholdsFor plan coverage
  = {| th_deductible := Exact.Fin d; th_oopMax := Exact.Fin o |}.

Lemma hsaBenefit_exact (c : Q) (s : Exact.t) :
  hsaBenefit (calcPlan coverage (Exact.Fin c) s plan) = Exact.Fin (Qmin c m).
Proof.
  unfold calcPlan, employerMatchFor. rewrite thresholds, employerMatch.
  cbn [hsaBenefit Math_min Exact_Number]. apply Math_min_Fin.
Qed.

Lemma totalSpending_exact (c q : Q) :
  totalSpending (calcPlan coverage (Exact.Fin c) (Exact.Fin q) plan)
  = Exact.Fin (- (mo * 12) + Qmin c m + - Qmin q d + - postRawQ d o q).
Proof.
  pose proof (hsaBenefit_exact c (Exact.Fin q)) as Hh.
  pose proof (preDeductibleCost_exact plan coverage d o thresholds (Exact.Fin c) q) as Hp.
  pose proof (postDeductibleCost_exact plan coverage d o thresholds (Exact.Fin c) q) as Hq.
  unfold calcPlan in *. rewrite thresholds in *.
  cbn [totalSpending hsaBenefit preDeductibleCost postDeductibleCost] in *.
  rewrite Hh, Hp, Hq, premium.
  reflexivity.
Qed.

End ExactRow.

Module ExactRowFacts.

Import Exact ExactFacts OutOfPocketFacts.

Lemma eq_Fin (p q : Q) : strict_eq (Fin p) (Fin q) = true <-> p == q.
Proof.
  unfold strict_eq. rewrite compare_Fin.
  destruct (Qcompare_spec p q) as [E | L | G]; split; intros; try easy.
  - exfalso. rewrite H in L. now apply (Qlt_irrefl q).
  - exfalso. rewrite H in G. now apply (Qlt_irrefl q).
Qed.

Lemma postRawQ_within (d o q : Q) : q <= d -> postRawQ d o q = 0.
Proof.
  intros Hle. unfold postRawQ.
  destruct (Qlt_bool d q) eqn:E; [| reflexivity].
  apply Qlt_bool_iff in E. lra.
Qed.

Lemma postRawQ_saturated (d o q : Q) :
  d <= o -> d + (o - d) * 5 <= q -> postRawQ d o q == o - d.
Proof.
  intros Hdo Hq. unfold postRawQ. destruct (Qlt_bool d q) eqn:E.
  - assert (Hmax : Qmax (o - d) 0 == o - d) by (apply Q.max_l; lra).
    rewrite Hmax. apply Q.min_r. lra.
  - apply not_true_iff_false in E. rewrite Qlt_bool_iff in E. lra.
Qed.

Lemma outOfPocketQ_within (d o q : Q) :
  0 <= q -> q <= d -> outOfPocketQ d o q == q.
Proof.
  intros H0 Hle. unfold outOfPocketQ. rewrite postRawQ_within by assumption.
  rewrite Qabs_opp.
  assert (Hm : Qmin q d == q) by now apply Q.min_l.
  rewrite Hm, (Qabs_pos q H0). change (Qabs (- 0)) with 0. lra.
Qed.

Lemma outOfPocketQ_saturated (d o q : Q) :
  0 <= d -> d <= o -> d + (o - d) * 5 <= q -> outOfPocketQ d o q == o.
Proof.
  intros Hd Hdo Hq. unfold outOfPocketQ.
  rewrite abs_postRawQ, postRawQ_saturated, Qabs_opp by assumption.
  assert (Hm : Qmin q d == d) by (apply Q.min_r; lra).
  rewrite Hm, (Qabs_pos d Hd). lra.
Qed.

End ExactRowFacts.

Lemma preDeductibleCost_bounds_exact
    (plan : Plan Exact.t) (coverage : Coverage) (spend contribution : Exact.t) :
  In plan PLAN_ORDER ->
  Number_isFinite spend = true ->
  (lit 0 <= spend)%js = true ->
  let r := calcPlan coverage contribution spend plan in
  (preDeductibleCost r <= lit 0)%js = true
  /\ (Math_abs (preDeductibleCost r) <= th_deductible (thresholdsFor plan coverage))%js
     = true.
Proof.
  intros Hin Hfin Hpos r. subst r.
  apply ExactFacts.isFinite_Fin in Hfin as [q ->].
  apply ExactFacts.le_Fin in Hpos.
  destruct (catalog_thresholds_exact plan coverage Hin) as (d & o & Hth & Hd & Hdo).
  rewrite (preDeductibleCost_exact _ _ _ _ Hth), Hth. cbn [th_deductible].
  assert (Hmin : 0 <= Qmin q d) by now apply Q.min_glb.
  split; apply ExactFacts.le_Fin.
  - lra.
  - rewrite Qabs_opp, (Qabs_pos _ Hmin). apply Q.le_min_r.
Qed.

Lemma within_deductible_exact
    (plan : Plan Exact.t) (coverage : Coverage) (spend contribution : Exact.t) :
  In plan PLAN_ORDER ->
  Number_isFinite spend = true ->
  (lit 0 <= spend)%js = true ->
  (spend <= th_deductible (thresholdsFor plan coverage))%js = true ->
  let r := calcPlan coverage contribution spend plan in
  (postDeductibleCost r === lit 0)%js = true
  /\ (preDeductibleCost r === - spend)%js = true
  /\ (outOfPocket r === spend)%js = true.
Proof.
  intros Hin Hfin Hpos Hle r. subst r.
  apply ExactFacts.isFinite_Fin in Hfin as [q ->].
  apply ExactFacts.le_Fin in Hpos.
  destruct (catalog_thresholds_exact plan coverage Hin) as (d & o & Hth & Hd & Hdo).
  rewrite Hth in Hle. cbn [th_deductible] in Hle. apply ExactFacts.le_Fin in Hle.
  rewrite (outOfPocket_exact _ _ _ _ Hth), (postDeductibleCost_exact _ _ _ _ Hth),
    (preDeductibleCost_exact _ _ _ _ Hth).
  repeat split; apply ExactRowFacts.eq_Fin.
  - rewrite ExactRowFacts.postRawQ_within by assumption. reflexivity.
  - assert (Hm : Qmin q d == q) by now apply Q.min_l. now rewrite Hm.
  - now apply ExactRowFacts.outOfPocketQ_within.
Qed.

Lemma saturation_exact
    (plan : Plan Exact.t) (coverage : Coverage) (spend contribution : Exact.t) :
  In plan PLAN_ORDER ->
  Number_isFinite spend = true ->
  (saturationSpend plan coverage <= spend)%js = true ->
  (outOfPocket (calcPlan coverage contribution spend plan)
   === th_oopMax (thresholdsFor plan coverage))%js = true.
Proof.
  intros Hin Hfin Hsat.
  apply ExactFacts.isFinite_Fin in Hfin as [q ->].
  destruct (catalog_thresholds_exact plan coverage Hin) as (d & o & Hth & Hd & Hdo).
  unfold saturationSpend in Hsat. rewrite Hth in *. cbn [th_deductible th_oopMax] in *.
  apply ExactFacts.le_Fin in Hsat.
  rewrite (outOfPocket_exact _ _ _ _ Hth).
  apply ExactRowFacts.eq_Fin. now apply ExactRowFacts.outOfPocketQ_saturated.
Qed.

Lemma hsaBenefit_props_exact
    (plan : Plan Exact.t) (coverage : Coverage) (spend contribution : Exact.t) :
  In plan PLAN_ORDER ->
  Number_isFinite contribution = true ->
  (lit 0 <= contribution)%js = true ->
  let r := calcPlan coverage contribution spend plan in
  (lit 0 <= hsaBenefit r)%js = true
  /\ (hsaBenefit r <= contribution)%js = true
  /\ (hsaBenefit r <= employerMatchFor plan coverage)%js = true
  /\ (hsaBenefit r
      === (if (contribution <= employerMatchFor plan coverage)%js
           then contribution else employerMatchFor plan coverage))%js = true.
Proof.
  intros Hin Hfin Hpos r. subst r.
  apply ExactFacts.isFinite_Fin in Hfin as [c ->].
  apply ExactFacts.le_Fin in Hpos.
  destruct (catalog_row_exact plan coverage Hin)
    as (mo & m & d & o & Hmo & Hm & Hth & _ & Hm0 & _).
  rewrite (hsaBenefit_exact plan coverage m d o Hm Hth c spend).
  unfold employerMatchFor. rewrite Hm.
  repeat split; try apply ExactFacts.le_Fin.
  - now apply Q.min_glb.
  - apply Q.le_min_l.
  - apply Q.le_min_r.
  - destruct (Exact.le (Exact.Fin c) (Exact.Fin m)) eqn:E;
      cbn [le Exact_Number]; rewrite E; apply ExactRowFacts.eq_Fin.
    + apply ExactFacts.le_Fin in E. now apply Q.min_l.
    + apply not_true_iff_false in E. rewrite ExactFacts.le_Fin in E.
      apply Q.min_r. lra.
Qed.

Lemma totalSpending_bounds_exact
    (plan : Plan Exact.t) (coverage : Coverage) (spend contribution : Exact.t) :
  In plan PLAN_ORDER ->
  Number_isFinite spend = true ->
  Number_isFinite contribution = true ->
  (lit 0 <= spend)%js = true ->
  (lit 0 <= contribution)%js = true ->
  let r := calcPlan coverage contribution spend plan in
  (annualEmployeePremiumCost r - th_oopMax (thresholdsFor plan coverage)
   <= totalSpending r)%js = true
  /\ (totalSpending r
      <= annualEmployeePremiumCost r + employerMatchFor plan coverage)%js = true.
Proof.
  intros Hin Hfs Hfc Hs Hc r. subst r.
  apply ExactFacts.isFinite_Fin in Hfs as [q ->].
  apply ExactFacts.isFinite_Fin in Hfc as [c ->].
  apply ExactFacts.le_Fin in Hs, Hc.
  destruct (catalog_row_exact plan coverage Hin)
    as (mo & m & d & o & Hmo & Hm & Hth & _ & Hm0 & Hd & Hdo).
  rewrite (totalSpending_exact plan coverage mo m d o Hmo Hm Hth c q).
  rewrite annualEmployeePremiumCost_calcPlan, Hmo, Hth.
  unfold employerMatchFor. rewrite Hm. cbn [th_oopMax].
  pose proof (OutOfPocketFacts.postRawQ_nonneg d o q) as Hp0.
  pose proof (OutOfPocketFacts.postRawQ_le_cap d o q Hdo) as Hp1.
  assert (0 <= Qmin c m <= m) by (split; [now apply Q.min_glb | apply Q.le_min_r]).
  assert (0 <= Qmin q d <= d) by (split; [now apply Q.min_glb | apply Q.le_min_r]).
  split; apply ExactFacts.le_Fin; lra.
Qed.

Lemma totalSpending_monotone_exact
    (plan : Plan Exact.t) (coverage : Coverage) (s1 s2 c1 c2 : Exact.t) :
  In plan PLAN_ORDER ->
  Number_isFinite s1 = true -> Number_isFinite s2 = true ->
  Number_isFinite c1 = true -> Number_isFinite c2 = true ->
  (s1 <= s2)%js = true ->
  (c1 <= c2)%js = true ->
  (totalSpending (calcPlan coverage c1 s2 plan)
   <= totalSpending (calcPlan coverage c2 s1 plan))%js = true.
Proof.
  intros Hin Hf1 Hf2 Hg1 Hg2 H12 Hc.
  apply ExactFacts.isFinite_Fin in Hf1 as [q1 ->].
  apply ExactFacts.isFinite_Fin in Hf2 as [q2 ->].
  apply ExactFacts.isFinite_Fin in Hg1 as [k1 ->].
  apply ExactFacts.isFinite_Fin in Hg2 as [k2 ->].
  apply ExactFacts.le_Fin in H12, Hc.
  destruct (catalog_row_exact plan coverage Hin)
    as (mo & m & d & o & Hmo & Hm & Hth & _ & Hm0 & Hd & Hdo).
  rewrite !(totalSpending_exact plan coverage mo m d o Hmo Hm Hth).
  apply ExactFacts.le_Fin.
  pose proof (OutOfPocketFacts.postRawQ_monotone d o q1 q2 H12).
  assert (Qmin q1 d <= Qmin q2 d) by now apply Q.min_le_compat_r.
  assert (Qmin k1 m <= Qmin k2 m) by now apply Q.min_le_compat_r.
  lra.
Qed.

(** ** The contribution handler in exact arithmetic *)

Lemma onSetContribution_cases_exact (st : State Exact.t) (val : Exact.t) :
  let c' := employeeContribution (onSetContribution st val) in
  let cap := coverageMaxHSA (coverage st) in
  (Number_isFinite val = false -> c' = lit 0)
  /\ ((val < lit 0)%js = true -> c' = lit 0)
  /\ (Number_isFinite val = true -> (val > cap)%js = true -> c' = cap)
  /\ ((lit 0 <= val)%js = true -> (val <= cap)%js = true -> (c' === val)%js = true).
Proof.
  cbv zeta. unfold onSetContribution, hsaMaxByCoverage. cbn [employeeContribution].
  destruct (coverageMaxHSA_exact (coverage st)) as (k & -> & Hk & _).
  cbn [Math_min Math_max lit lt le strict_eq Number_isFinite Exact_Number].
  split; [| split; [| split]].
  - intros Hnf. rewrite Hnf. rewrite ExactFacts.Math_min_Fin, ExactFacts.Math_max_Fin.
    assert (E : (k ?= 0) = Gt) by (apply Qgt_alt; lra).
    unfold Qmin, Qmax, GenericMinMax.gmin, GenericMinMax.gmax. rewrite E. reflexivity.
  - intros Hneg.
    assert (E0 : (k ?= 0) = Gt) by (apply Qgt_alt; lra).
    destruct val as [q | s | ]; cbn [Exact.Number_isFinite];
      rewrite ExactFacts.Math_min_Fin, ExactFacts.Math_max_Fin;
      unfold Qmin, Qmax, GenericMinMax.gmin, GenericMinMax.gmax;
      try (rewrite E0; reflexivity).
    apply ExactFacts.lt_Fin in Hneg.
    assert (E : (k ?= q) = Gt) by (apply Qgt_alt; lra).
    assert (E' : (0 ?= q) = Gt) by (apply Qgt_alt; lra).
    rewrite E, E'. reflexivity.
  - intros Hf Hgt. rewrite Hf. apply ExactFacts.isFinite_Fin in Hf as [q ->].
    apply ExactFacts.lt_Fin in Hgt.
    rewrite ExactFacts.Math_min_Fin, ExactFacts.Math_max_Fin.
    assert (E : (k ?= q) = Lt) by (apply (proj1 (Qlt_alt k q)); lra).
    assert (E' : (0 ?= k) = Lt) by (apply (proj1 (Qlt_alt 0 k)); lra).
    unfold Qmin, Qmax, GenericMinMax.gmin, GenericMinMax.gmax. rewrite E, E'. reflexivity.
  - intros H0 Hle.
    destruct val as [q | s | ]; try discriminate H0.
    2: { destruct s; discriminate. }
    apply ExactFacts.le_Fin in H0, Hle. cbn [Exact.Number_isFinite].
    rewrite ExactFacts.Math_min_Fin, ExactFacts.Math_max_Fin.
    apply ExactRowFacts.eq_Fin.
    assert (Hm : Qmin k q == q) by now apply Q.min_r.
    rewrite Hm. now apply Q.max_r.
Qed.

Lemma onSetContribution_idempotent_exact (st : State Exact.t) (val : Exact.t) :
  let st' := onSetContribution st val in
  (employeeContribution (onSetContribution st' (employeeContribution st'))
   === employeeContribution st')%js = true.
Proof.
  cbv zeta.
  destruct (onSetContribution_in_range st val) as (q & k & Hq & Hk & H0 & Hle).
  set (st' := onSetContribution st val) in *.
  destruct (onSetContribution_cases_exact st' (employeeContribution st'))
    as (_ & _ & _ & Hin).
  apply Hin; rewrite Hq.
  - now apply ExactFacts.le_Fin.
  - rewrite Hk. now apply ExactFacts.le_Fin.
Qed.

(** ** More on binary64 numbers *)

Module Binary64MoreFacts.

Import Rounding RoundingFacts Binary64Facts.
Local Open Scope Z_scope.

Lemma SFcompare_opp (x y : spec_float) :
  SFcompare (SFopp x) (SFopp y) = SFcompare y x.
Proof.
  destruct x as [sx | sx | | sx mx ex]; destruct y as [sy | sy | | sy my ey];
    try reflexivity;
    try (destruct sx; reflexivity); try (destruct sy; reflexivity);
    try (destruct sx, sy; reflexivity).
  destruct sx, sy; cbn [SFopp SFcompare negb]; try reflexivity; f_equal;
    rewrite (Z.compare_antisym ex ey);
    destruct (ex ?= ey); cbn [CompOpp]; try reflexivity.
  - now rewrite (Pos.compare_cont_antisym my mx Eq).
  - now rewrite (Pos.compare_cont_antisym mx my Eq).
Qed.

Lemma SFeqb_ord (x y : spec_float) :
  wf x -> wf y -> SFeqb x y = (ord x =? ord y).
Proof.
  intros Hx Hy. unfold SFeqb. rewrite (SFcompare_ord x y Hx Hy).
  rewrite Z.eqb_compare. now destruct (ord x ?= ord y).
Qed.

Lemma SFeqb_opp (x y : spec_float) : SFeqb (SFopp x) (SFopp y) = SFeqb y x.
Proof. unfold SFeqb. now rewrite SFcompare_opp. Qed.

Lemma wf_ord_0 (x : spec_float) : wf x -> ord x = 0 -> exists s, x = S754_zero s.
Proof.
  intros Hx H0. pose proof INF_pos.
  destruct x as [s | s | | s m e]; cbn [ord] in H0; try lia.
  - now exists s.
  - destruct Hx as [Hn _]. discriminate Hn.
  - pose proof (ord_finite_bounds s m e Hx). cbn [ord] in *. lia.
Qed.

Lemma wf_finite_lt_INF (x : spec_float) :
  wf x -> Number_isFinite x = true -> ord x < INF.
Proof.
  intros Hx Hf. pose proof INF_pos.
  destruct x as [s | s | | s m e]; try discriminate Hf; cbn [ord]; [lia |].
  apply (ord_finite_bounds s m e Hx).
Qed.

Lemma wf_lt_INF_finite (x : spec_float) :
  wf x -> ord x < INF -> Number_isFinite x = true.
Proof.
  intros [Hn _] Hlt.
  destruct x as [s | s | | s m e]; try reflexivity; try discriminate Hn.
  cbn [ord] in Hlt. lia.
Qed.

Lemma postZ_range (d cap a : Z) : 0 <= cap -> 0 <= a -> 0 <= postZ d cap a <= cap.
Proof.
  intros Hcap Ha. unfold postZ. destruct wf_lit_0_2 as [_ Hc].
  destruct (Z.ltb_spec d a) as [L | G]; [| lia].
  destruct (Z.le_gt_cases 0 (a - d)) as [Hn | Hn].
  - pose proof (rnd_range (a - d) Hn) as R.
    pose proof (mulv_range (rnd (a - d)) _ (proj1 R) Hc). lia.
  - lia.
Qed.

Lemma postZ_mono (d cap a1 a2 : Z) :
  0 <= d -> 0 <= cap -> 0 <= a1 -> a1 <= a2 -> postZ d cap a1 <= postZ d cap a2.
Proof.
  intros Hd Hcap H0 H12. pose proof (postZ_range d cap a2 Hcap ltac:(lia)) as R2.
  unfold postZ in *. destruct wf_lit_0_2 as [_ Hc].
  destruct (Z.ltb_spec d a1) as [L1 | G1]; destruct (Z.ltb_spec d a2) as [L2 | G2];
    try lia.
  pose proof (rnd_range (a1 - d) ltac:(lia)) as R1.
  pose proof (rnd_range (a2 - d) ltac:(lia)) as R2'.
  pose proof (rnd_le (a1 - d) (a2 - d) ltac:(lia) ltac:(lia)) as Hr.
  pose proof (mulv_le _ _ (ord (Binary64.lit 0.2)) (proj1 R1) Hr (proj2 R2') Hc).
  lia.
Qed.

End Binary64MoreFacts.

Section Binary64Row.

Import Rounding RoundingFacts Binary64Facts Binary64MoreFacts.
Local Open Scope Z_scope.

Variables (plan : Plan Binary64.t) (coverage : Coverage) (d o : Binary64.t).
Hypothesis thresholds :
  thresholdsFor plan coverage = {| th_deductible := d; th_oopMax := o |}.
Hypothesis ok : thresholds_ok d o = true.

(** For a non-negative finite spend [s], the two costs of the row are the
    opposites of non-negative binary64 numbers, of counts
    [min (ord s) (ord d)] and [postZ]. *)
Lemma costs_binary64 (c s : Binary64.t) :
  wf s -> Number_isFinite s = true ->
  let r := calcPlan coverage c s plan in
  exists m1 x : Binary64.t,
    preDeductibleCost r = SFopp m1 /\ wf m1 /\ ord m1 = Z.min (ord s) (ord d)
    /\ postDeductibleCost r = SFopp x /\ wf x
    /\ ord x = postZ (ord d) (ord (capPortion d o)) (ord s).
Proof.
  intros Hs Hfin. cbv zeta.
  destruct (thresholds_ok_inv d o ok) as (Hd & (sd & md & ed & Ed) & Ho & Hcap & Hsum).
  unfold calcPlan. rewrite thresholds.
  cbn [preDeductibleCost postDeductibleCost Math_min Math_max neg lt
       sub mul lit Binary64_Number coinsuranceRate].
  change (Binary64.Math_max (SFsub Binary64.prec Binary64.emax o d) (Binary64.lit 0))
    with (capPortion d o).
  destruct (Math_min_spec s d Hs Hd) as [Hmin Omin].
  exists (Binary64.Math_min s d).
  rewrite (SFltb_ord d s Hd Hs). unfold postZ.
  destruct (Z.ltb_spec (ord d) (ord s)) as [Lt | Ge].
  - pose proof (ord_range d Hd) as Rd.
    destruct s as [ss | ss | | ss ms es]; try discriminate Hfin.
    { cbn [ord] in Lt. lia. }
    rewrite Ed in *.
    destruct (SFsub_spec ss sd ms md es ed Hs Hd ltac:(lia)) as [Hy Oy].
    rewrite lit_0_2.
    destruct (SFmul_spec _ false 0x1999999999999A (-55) Hy
                ltac:(split; reflexivity) ltac:(lia)) as [Hz Oz].
    match goal with
    | |- context [Binary64.Math_min ?z (capPortion ?d' ?o')] =>
        destruct (Math_min_spec z (capPortion d' o') Hz Hcap) as [Hx Ox];
        exists (Binary64.Math_min z (capPortion d' o'))
    end.
    split; [reflexivity |]. split; [exact Hmin |]. split; [exact Omin |].
    split; [reflexivity |]. split; [exact Hx |].
    rewrite Ox, Oz, Oy. reflexivity.
  - exists (Binary64.lit 0). rewrite lit_0.
    split; [reflexivity |]. split; [exact Hmin |]. split; [exact Omin |].
    split; [reflexivity |]. split; [split; reflexivity | reflexivity].
Qed.

End Binary64Row.

(** ** The rows of the calculation in binary64 arithmetic *)

Lemma preDeductibleCost_bounds_binary64
    (plan : Plan Binary64.t) (coverage : Coverage) (spend contribution : Binary64.t) :
  In plan PLAN_ORDER ->
  Binary64.is_binary64 spend = true ->
  Number_isFinite spend = true ->
  (lit 0 <= spend)%js = true ->
  let r := calcPlan coverage contribution spend plan in
  (preDeductibleCost r <= lit 0)%js = true
  /\ (Math_abs (preDeductibleCost r) <= th_deductible (thresholdsFor plan coverage))%js
     = true.
Proof.
  intros Hin Hv Hfin Hpos r. subst r.
  pose proof (wf_spend spend Hv Hpos) as Hs.
  pose proof (catalog_thresholds_binary64 plan coverage Hin) as Hok.
  destruct (thresholdsFor plan coverage) as [d o] eqn:Hth. cbn [th_deductible th_oopMax] in *.
  destruct (costs_binary64 plan coverage d o Hth Hok contribution spend Hs Hfin)
    as (m1 & x & Epre & Hm1 & Om1 & _).
  destruct (thresholds_ok_inv d o Hok) as (Hd & _).
  rewrite Epre. split.
  - now apply Binary64Facts.SFleb_opp_zero.
  - destruct (RoundingFacts.wf_abs_opp m1 Hm1) as [Ha Oa].
    change (SFleb (SFabs (SFopp m1)) d = true).
    rewrite (RoundingFacts.SFleb_ord _ _ Ha Hd), Oa, Om1. apply Z.leb_le. lia.
Qed.

Lemma within_deductible_binary64
    (plan : Plan Binary64.t) (coverage : Coverage) (spend contribution : Binary64.t) :
  In plan PLAN_ORDER ->
  Binary64.is_binary64 spend = true ->
  Number_isFinite spend = true ->
  (lit 0 <= spend)%js = true ->
  (spend <= th_deductible (thresholdsFor plan coverage))%js = true ->
  let r := calcPlan coverage contribution spend plan in
  (postDeductibleCost r === lit 0)%js = true
  /\ (preDeductibleCost r === - spend)%js = true
  /\ (outOfPocket r === spend)%js = true.
Proof.
  intros Hin Hv Hfin Hpos Hle r. subst r.
  pose proof (wf_spend spend Hv Hpos) as Hs.
  pose proof (catalog_thresholds_binary64 plan coverage Hin) as Hok.
  destruct (thresholdsFor plan coverage) as [d o] eqn:Hth. cbn [th_deductible th_oopMax] in *.
  destruct (thresholds_ok_inv d o Hok) as (Hd & _ & _ & Hcap & _).
  change (SFleb spend d = true) in Hle.
  rewrite (RoundingFacts.SFleb_ord _ _ Hs Hd) in Hle. apply Z.leb_le in Hle.
  destruct (costs_binary64 plan coverage d o Hth Hok contribution spend Hs Hfin)
    as (m1 & x & Epre & Hm1 & Om1 & Epost & Hx & Ox).
  destruct (outOfPocket_binary64 plan coverage d o Hth Hok contribution spend Hs Hfin)
    as (Hwf & Hord & _).
  unfold Rounding.postZ in Ox. unfold Rounding.outOfPocketZ in Hord.
  destruct (Z.ltb_spec (Rounding.ord d) (Rounding.ord spend)) as [L | _]; [lia |].
  split; [| split].
  - rewrite Epost. destruct (Binary64MoreFacts.wf_ord_0 x Hx Ox) as [sx ->].
    now destruct sx.
  - rewrite Epre. change (SFeqb (SFopp m1) (SFopp spend) = true).
    rewrite Binary64MoreFacts.SFeqb_opp, (Binary64MoreFacts.SFeqb_ord _ _ Hs Hm1), Om1.
    apply Z.eqb_eq. lia.
  - change (SFeqb (outOfPocket (calcPlan coverage contribution spend plan)) spend = true).
    rewrite (Binary64MoreFacts.SFeqb_ord _ _ Hwf Hs), Hord. apply Z.eqb_refl.
Qed.

Lemma catalog_saturation_ok (plan : Plan Binary64.t) (coverage : Coverage) :
  In plan PLAN_ORDER -> saturation_ok plan coverage = true.
Proof.
  intros [<- | [<- | [<- | []]]]; destruct coverage; vm_compute; reflexivity.
Qed.

Lemma saturation_binary64
    (plan : Plan Binary64.t) (coverage : Coverage) (spend contribution : Binary64.t) :
  In plan PLAN_ORDER ->
  Binary64.is_binary64 spend = true ->
  Number_isFinite spend = true ->
  (saturationSpend plan coverage <= spend)%js = true ->
  (outOfPocket (calcPlan coverage contribution spend plan)
   === th_oopMax (thresholdsFor plan coverage))%js = true.
Proof.
  intros Hin Hv Hfin Hsat.
  pose proof (catalog_saturation_ok plan coverage Hin) as Hs0.
  unfold saturation_ok in Hs0. cbv zeta in Hs0.
  repeat (apply andb_true_iff in Hs0 as [Hs0 ?]).
  set (s0 := saturationSpend plan coverage) in *.
  assert (Hw0 : Rounding.wf s0) by (split; assumption).
  pose proof (wf_above s0 spend Hw0 Hv Hsat) as Hs.
  pose proof (catalog_thresholds_binary64 plan coverage Hin) as Hok.
  destruct (thresholdsFor plan coverage) as [d o] eqn:Hth. cbn [th_deductible th_oopMax] in *.
  destruct (thresholds_ok_inv d o Hok) as (Hd & (sd & md & ed & Ed) & Ho & Hcap & Hsum).
  destruct (outOfPocket_binary64 plan coverage d o Hth Hok (lit 0) s0 Hw0 ltac:(assumption))
    as (Hwf0 & Hord0 & _).
  destruct (outOfPocket_binary64 plan coverage d o Hth Hok contribution spend Hs Hfin)
    as (Hwf & Hord & _).
  change (SFeqb (outOfPocket (calcPlan coverage contribution spend plan)) o = true).
  rewrite (Binary64MoreFacts.SFeqb_ord _ _ Hwf Ho), Hord. apply Z.eqb_eq.
  match goal with
  | H : strict_eq _ _ = true |- _ =>
      change (SFeqb (outOfPocket (calcPlan coverage (lit 0) s0 plan)) o = true) in H;
      rewrite (Binary64MoreFacts.SFeqb_ord _ _ Hwf0 Ho), Hord0 in H;
      apply Z.eqb_eq in H; rename H into Heq0
  end.
  change (SFleb s0 spend = true) in Hsat.
  rewrite (RoundingFacts.SFleb_ord _ _ Hw0 Hs) in Hsat. apply Z.leb_le in Hsat.
  pose proof (RoundingFacts.ord_range d Hd) as Rd.
  pose proof (RoundingFacts.ord_range _ Hcap) as Rc.
  pose proof (RoundingFacts.ord_range s0 Hw0) as R0.
  pose proof (Binary64Facts.outOfPocketZ_mono (Rounding.ord d)
                (Rounding.ord (Rounding.capPortion d o)) _ _
                (proj1 Rd) (RoundingFacts.rnd_ord d Hd) (proj1 Rc) (proj1 R0) Hsat) as Hmono.
  pose proof (Binary64Facts.outOfPocketZ_le (Rounding.ord d)
                (Rounding.ord (Rounding.capPortion d o)) (Rounding.ord o) (Rounding.ord spend)
                (proj1 Rd) (proj1 Rc) Hsum (RoundingFacts.rnd_ord o Ho) ltac:(lia)) as Hle.
  lia.
Qed.

Lemma catalog_match_binary64 (plan : Plan Binary64.t) (coverage : Coverage) :
  In plan PLAN_ORDER -> Rounding.wf (hsaMatch plan coverage).
Proof.
  intros [<- | [<- | [<- | []]]]; destruct coverage; split; reflexivity.
Qed.

Lemma hsaBenefit_props_binary64
    (plan : Plan Binary64.t) (coverage : Coverage) (spend contribution : Binary64.t) :
  In plan PLAN_ORDER ->
  Binary64.is_binary64 contribution = true ->
  Number_isFinite contribution = true ->
  (lit 0 <= contribution)%js = true ->
  let r := calcPlan coverage contribution spend plan in
  (lit 0 <= hsaBenefit r)%js = true
  /\ (hsaBenefit r <= contribution)%js = true
  /\ (hsaBenefit r <= employerMatchFor plan coverage)%js = true
  /\ (hsaBenefit r
      === (if (contribution <= employerMatchFor plan coverage)%js
           then contribution else employerMatchFor plan coverage))%js = true.
Proof.
  intros Hin Hv Hfin Hpos r. subst r.
  pose proof (wf_spend contribution Hv Hpos) as Hc.
  pose proof (catalog_match_binary64 plan coverage Hin) as Hm.
  assert (Hh : hsaBenefit (calcPlan coverage contribution spend plan)
               = Binary64.Math_min contribution (hsaMatch plan coverage)).
  { unfold calcPlan. now destruct (thresholdsFor plan coverage). }
  rewrite Hh. unfold employerMatchFor.
  destruct (Binary64Facts.Math_min_spec _ _ Hc Hm) as [Hw Ow].
  assert (H0 : Rounding.wf (S754_zero false)) by (split; reflexivity).
  pose proof (RoundingFacts.ord_range _ Hc) as Rc.
  pose proof (RoundingFacts.ord_range _ Hm) as Rm.
  cbn [le strict_eq lit Binary64_Number]. rewrite Binary64Facts.lit_0.
  rewrite (RoundingFacts.SFleb_ord _ _ H0 Hw), (RoundingFacts.SFleb_ord _ _ Hw Hc),
    (RoundingFacts.SFleb_ord _ _ Hw Hm), (RoundingFacts.SFleb_ord _ _ Hc Hm), Ow.
  cbn [Rounding.ord].
  repeat split; try (apply Z.leb_le; lia).
  destruct (Z.leb_spec (Rounding.ord contribution) (Rounding.ord (hsaMatch plan coverage))).
  - rewrite (Binary64MoreFacts.SFeqb_ord _ _ Hw Hc), Ow. apply Z.eqb_eq. lia.
  - rewrite (Binary64MoreFacts.SFeqb_ord _ _ Hw Hm), Ow. apply Z.eqb_eq. lia.
Qed.

(** ** The contribution handler in binary64 arithmetic *)

Lemma coverageMaxHSA_binary64 (coverage : Coverage) :
  exists (m : positive) (e : Z),
    coverageMaxHSA (num := Binary64.t) coverage = S754_finite false m e
    /\ Rounding.wf (S754_finite false m e).
Proof.
  destruct coverage; vm_compute; do 2 eexists; (split; [reflexivity |]);
    split; reflexivity.
Qed.

Module CompareFacts.

Local Open Scope Z_scope.

Lemma SFcompare_refl (x : spec_float) :
  SFcompare x x = match x with S754_nan => None | _ => Some Eq end.
Proof.
  destruct x as [s | s | | s m e]; try reflexivity.
  - now destruct s.
  - cbn [SFcompare]. rewrite Z.compare_refl, Pos.compare_cont_refl. now destruct s.
Qed.

Lemma SFcompare_antisym (x y : spec_float) :
  SFcompare y x = option_map CompOpp (SFcompare x y).
Proof.
  destruct x as [sx | sx | | sx mx ex]; destruct y as [sy | sy | | sy my ey];
    try reflexivity;
    try (destruct sx; reflexivity); try (destruct sy; reflexivity);
    try (destruct sx, sy; reflexivity).
  destruct sx, sy; cbn [SFcompare option_map]; try reflexivity; f_equal;
    rewrite (Z.compare_antisym ex ey);
    destruct (ex ?= ey); cbn [CompOpp]; try reflexivity;
    rewrite (Pos.compare_cont_antisym mx my Eq); cbn [CompOpp];
    destruct (Pos.compare_cont Eq mx my); reflexivity.
Qed.

End CompareFacts.

(** The clamp against a positive finite cap, case by case on the number
    that arrives; no assumption on the number. *)
Lemma clamp_cases_binary64 (mc : positive) (ec : Z) (val : Binary64.t) :
  let cap := S754_finite false mc ec in
  let r := Math_max (lit 0)
             (Math_min cap (if Number_isFinite val then val else lit 0)) in
  (Number_isFinite val = false -> r = lit 0)
  /\ ((val < lit 0)%js = true -> r = lit 0)
  /\ (Number_isFinite val = true -> (val > cap)%js = true -> r = cap)
  /\ ((lit 0 <= val)%js = true -> (val <= cap)%js = true -> (r === val)%js = true)
  /\ (Number_isFinite r = true /\ (lit 0 <= r)%js = true /\ (r <= cap)%js = true).
Proof.
  cbv zeta.
  cbn [Math_min Math_max lit lt le strict_eq Number_isFinite Binary64_Number].
  rewrite Binary64Facts.lit_0.
  pose proof (CompareFacts.SFcompare_refl (S754_finite false mc ec)) as Hcc.
  cbn iota in Hcc.
  destruct val as [s | s | | s m e]; cbn [Binary64.Number_isFinite].
  - destruct s; repeat split; try discriminate; try reflexivity.
  - destruct s; repeat split; try discriminate; try reflexivity.
  - repeat split; try discriminate; try reflexivity.
  - destruct s.
    + repeat split; try discriminate; try reflexivity.
    + unfold SFltb, SFleb, SFeqb, Binary64.Math_min, Binary64.Math_max.
      pose proof (CompareFacts.SFcompare_refl (S754_finite false m e)) as Hvv.
      cbn iota in Hvv.
      pose proof (CompareFacts.SFcompare_antisym (S754_finite false mc ec)
                    (S754_finite false m e)) as Ha.
      assert (H0v : SFcompare (S754_zero false) (S754_finite false m e) = Some Lt)
        by reflexivity.
      assert (H0c : SFcompare (S754_zero false) (S754_finite false mc ec) = Some Lt)
        by reflexivity.
      assert (Hv0 : SFcompare (S754_finite false m e) (S754_zero false) = Some Gt)
        by reflexivity.
      destruct (SFcompare (S754_finite false mc ec) (S754_finite false m e))
        as [[ | | ] | ] eqn:E; cbn [option_map CompOpp] in Ha;
        [ | | | discriminate E];
        rewrite ?Ha, ?H0v, ?H0c, ?Hv0, ?Hvv, ?Hcc;
        repeat split; try discriminate; try reflexivity;
        rewrite ?Ha, ?H0v, ?H0c, ?Hv0, ?Hvv, ?Hcc; reflexivity.
Qed.

Lemma onSetContribution_cases_binary64 (st : State Binary64.t) (val : Binary64.t) :
  let c' := employeeContribution (onSetContribution st val) in
  let cap := coverageMaxHSA (coverage st) in
  (Number_isFinite val = false -> c' = lit 0)
  /\ ((val < lit 0)%js = true -> c' = lit 0)
  /\ (Number_isFinite val = true -> (val > cap)%js = true -> c' = cap)
  /\ ((lit 0 <= val)%js = true -> (val <= cap)%js = true -> (c' === val)%js = true).
Proof.
  cbv zeta. unfold onSetContribution, hsaMaxByCoverage. cbn [employeeContribution].
  destruct (coverageMaxHSA_binary64 (coverage st)) as (m & e & -> & _).
  destruct (clamp_cases_binary64 m e val) as (H1 & H2 & H3 & H4 & _).
  split; [exact H1 | split; [exact H2 | split; [exact H3 | exact H4]]].
Qed.

(** Whatever arrives, the stored contribution is a finite number within
    [[0, coverageMaxHSA]] of the coverage selected at that moment. *)
Lemma onSetContribution_contributionInRange_exact
    (st : State Exact.t) (val : Exact.t) :
  contributionInRange (onSetContribution st val) = true.
Proof.
  destruct (onSetContribution_in_range st val) as (q & k & Hq & Hk & H0 & Hle).
  unfold contributionInRange. rewrite Hq, Hk.
  cbn [Number_isFinite lit le Exact_Number Exact.Number_isFinite andb].
  apply andb_true_intro. split; now apply ExactFacts.le_Fin.
Qed.

Lemma onSetContribution_contributionInRange_binary64
    (st : State Binary64.t) (val : Binary64.t) :
  contributionInRange (onSetContribution st val) = true.
Proof.
  unfold contributionInRange, onSetContribution, hsaMaxByCoverage.
  cbn [employeeContribution coverage].
  destruct (coverageMaxHSA_binary64 (coverage st)) as (m & e & -> & _).
  destruct (clamp_cases_binary64 m e val) as (_ & _ & _ & _ & Hf & H0 & Hle).
  apply andb_true_intro; split; [apply andb_true_intro; split |].
  - exact Hf.
  - exact H0.
  - exact Hle.
Qed.

Lemma onSetContribution_idempotent_binary64
    (st : State Binary64.t) (val : Binary64.t) :
  let st' := onSetContribution st val in
  (employeeContribution (onSetContribution st' (employeeContribution st'))
   === employeeContribution st')%js = true.
Proof.
  cbv zeta.
  pose proof (onSetContribution_contributionInRange_binary64 st val) as Hin.
  set (st' := onSetContribution st val) in *.
  unfold contributionInRange in Hin.
  apply andb_prop in Hin as [Hin Hle]. apply andb_prop in Hin as [_ H0].
  destruct (onSetContribution_cases_binary64 st' (employeeContribution st'))
    as (_ & _ & _ & Hin).
  now apply Hin.
Qed.

(** ** The range of the stored contribution along a run *)

Lemma le_cap_family_exact (x : Exact.t) (coverage : Coverage) :
  (x <= coverageMaxHSA coverage)%js = true ->
  (x <= coverageMaxHSA family)%js = true.
Proof.
  destruct (coverageMaxHSA_exact coverage) as (k & -> & _ & Hk).
  cbn [le Exact_Number]. destruct x as [q | [|] | ]; try discriminate; try reflexivity.
  intros Hle. apply ExactFacts.le_Fin in Hle.
  change (coverageMaxHSA (num := Exact.t) family) with (Exact.Fin 8750).
  apply ExactFacts.le_Fin. lra.
Qed.

Lemma le_cap_family_binary64 (x : Binary64.t) (coverage : Coverage) :
  (x <= coverageMaxHSA coverage)%js = true ->
  (x <= coverageMaxHSA family)%js = true.
Proof.
  destruct coverage; try (intros Hle; exact Hle).
  cbn [le Binary64_Number].
  assert (E1 : coverageMaxHSA (num := Binary64.t) employee
               = S754_finite false 0x11300000000000 (-40)) by (vm_compute; reflexivity).
  assert (E2 : coverageMaxHSA (num := Binary64.t) family
               = S754_finite false 0x11170000000000 (-39)) by (vm_compute; reflexivity).
  rewrite E1, E2. unfold SFleb.
  destruct x as [s | s | | s m e]; try (destruct s; intros H'; exact H' || reflexivity).
  - discriminate.
  - destruct s; [reflexivity |]. cbn [SFcompare].
    destruct (Z.compare_spec e (-40)) as [El | Ll | Gl]; try discriminate; intros _.
    + subst e. reflexivity.
    + assert (Hlt : (e ?= -39)%Z = Lt) by (apply Z.compare_lt_iff; lia).
      rewrite Hlt. reflexivity.
Qed.

Section RunRange.

Context {num : Type} `{Number num}.

Hypothesis clamp_in_range :
  forall (st : State num) (val : num),
    contributionInRange (onSetContribution st val) = true.

Hypothesis le_cap_family :
  forall (x : num) (coverage : Coverage),
    (x <= coverageMaxHSA coverage)%js = true ->
    (x <= coverageMaxHSA family)%js = true.

Lemma handle_contributionInRange (st : State num) (ev : Event num) :
  contributionInRange st = true ->
  selectsEmployee ev = false ->
  contributionInRange (handle st ev) = true.
Proof.
  intros Hin Hev. destruct ev as [c | m | v | v]; cbn [handle].
  - unfold contributionInRange in *. cbn [employeeContribution coverage].
    apply andb_prop in Hin as [Hin Hle]. rewrite Hin. cbn [andb].
    apply le_cap_family in Hle.
    destruct c; try discriminate Hev; exact Hle.
  - exact Hin.
  - exact Hin.
  - apply clamp_in_range.
Qed.

Lemma run_contributionInRange (evs : list (Event num)) :
  forall st : State num,
    contributionInRange st = true ->
    forallb (fun ev => negb (selectsEmployee ev)) evs = true ->
    contributionInRange (run evs st) = true.
Proof.
  unfold run. induction evs as [| ev evs IH]; intros st Hin Hevs; [exact Hin |].
  cbn [forallb] in Hevs. apply andb_prop in Hevs as [Hev Hevs].
  cbn [fold_left]. apply IH; [| exact Hevs].
  apply handle_contributionInRange; [exact Hin |].
  now destruct (selectsEmployee ev).
Qed.

End RunRange.

(** ** The summary line against the rows *)

Lemma catalog_matched_exact (plan : Plan Exact.t) (coverage : Coverage) :
  In plan PLAN_ORDER ->
  (employerMatchFor plan coverage > lit 0)%js = true ->
  exists M : Q,
    employerMatchFor plan coverage = Exact.Fin M
    /\ maxMatchForCoverage coverage = Exact.Fin M
    /\ 0 < M.
Proof.
  intros [<- | [<- | [<- | []]]] Hpos; destruct coverage; try discriminate Hpos;
    eexists; (split; [reflexivity | split; reflexivity]).
Qed.

Lemma totalContributionIncludingMatch_exact (M q : Q) :
  0 < M ->
  (totalContributionIncludingMatch (Exact.Fin M) (Exact.Fin q)
   === Exact.Fin q + Math_min (Exact.Fin q) (Exact.Fin M))%js = true.
Proof.
  intros HM. unfold totalContributionIncludingMatch.
  cbn [le lit add mul strict_eq Math_min Exact_Number].
  rewrite ExactFacts.Math_min_Fin.
  destruct (Exact.le (Exact.Fin M) (Exact.Fin 0)) eqn:E0.
  { apply ExactFacts.le_Fin in E0. lra. }
  destruct (Exact.le (Exact.Fin M) (Exact.Fin q)) eqn:E;
    cbn [Exact.add Exact.mul]; apply ExactRowFacts.eq_Fin.
  - apply ExactFacts.le_Fin in E.
    assert (Hm : Qmin q M == M) by now apply Q.min_r.
    rewrite Hm. reflexivity.
  - apply not_true_iff_false in E. rewrite ExactFacts.le_Fin in E.
    assert (Hm : Qmin q M == q) by (apply Q.min_l; lra).
    rewrite Hm. ring.
Qed.

Lemma summary_matches_row_exact (st : State Exact.t) (plan : Plan Exact.t) :
  In plan PLAN_ORDER ->
  (employerMatchFor plan (coverage st) > lit 0)%js = true ->
  Number_isFinite (employeeContribution st) = true ->
  (totalInclMatch st
   === employeeContribution st
       + hsaBenefit (calcPlan (coverage st) (employeeContribution st)
                       (expectedSpend st) plan))%js = true.
Proof.
  intros Hin Hpos Hfin.
  destruct (catalog_matched_exact plan (coverage st) Hin Hpos) as (M & Hm & HM & HM0).
  apply ExactFacts.isFinite_Fin in Hfin as [q Hq].
  assert (Hh : hsaBenefit (calcPlan (coverage st) (employeeContribution st)
                             (expectedSpend st) plan)
               = Math_min (employeeContribution st) (employerMatchFor plan (coverage st))).
  { unfold calcPlan. now destruct (thresholdsFor plan (coverage st)). }
  rewrite Hh. unfold totalInclMatch. rewrite HM, Hm, Hq.
  now apply totalContributionIncludingMatch_exact.
Qed.

Lemma catalog_matched_binary64 (plan : Plan Binary64.t) (coverage : Coverage) :
  In plan PLAN_ORDER ->
  (employerMatchFor plan coverage > lit 0)%js = true ->
  exists (m : positive) (e : Z),
    employerMatchFor plan coverage = S754_finite false m e
    /\ maxMatchForCoverage (num := Binary64.t) coverage = S754_finite false m e
    /\ Rounding.wf (S754_finite false m e).
Proof.
  intros [<- | [<- | [<- | []]]] Hpos; destruct coverage; try discriminate Hpos;
    do 2 eexists; (split; [vm_compute; reflexivity | split; [vm_compute; reflexivity |]]);
    split; reflexivity.
Qed.

Lemma double_binary64 (c : Binary64.t) :
  Rounding.wf c -> Number_isFinite c = true ->
  Rounding.wf (c * lit 2)%js
  /\ Rounding.ord (c * lit 2)%js = Rounding.rnd (Rounding.ord c + Rounding.ord c).
Proof.
  intros Hc Hf.
  assert (E2 : Binary64.lit 2 = S754_finite false 0x10000000000000 (-51))
    by (vm_compute; reflexivity).
  cbn [mul lit Binary64_Number]. rewrite E2.
  assert (H2 : Rounding.wf (S754_finite false 0x10000000000000 (-51)))
    by (split; reflexivity).
  destruct (RoundingFacts.SFmul_spec c false 0x10000000000000 (-51) Hc H2) as [Hw Ho].
  { apply Z.le_refl. }
  split; [exact Hw |]. rewrite Ho. unfold Rounding.mulv.
  pose proof (Binary64MoreFacts.wf_finite_lt_INF c Hc Hf) as Hlt.
  destruct (Z.eqb_spec (Rounding.ord c) Rounding.INF) as [E | _]; [lia |].
  f_equal. cbn [Rounding.ord].
  assert (HP : (0 < 2 ^ Rounding.bias)%Z) by (apply RoundingFacts.pow2_pos; unfold Rounding.bias; lia).
  assert (E : (Z.pos 0x10000000000000 * 2 ^ (-51 + Rounding.bias)
               = 2 * 2 ^ Rounding.bias)%Z).
  { change (Z.pos 0x10000000000000) with (2 ^ 52)%Z.
    change 2%Z with (2 ^ 1)%Z at 3.
    rewrite <- !Z.pow_add_r by (unfold Rounding.bias; lia).
    f_equal. }
  rewrite E.
  replace (Rounding.ord c * (2 * 2 ^ Rounding.bias))%Z
    with ((Rounding.ord c + Rounding.ord c) * 2 ^ Rounding.bias)%Z by ring.
  now apply Z.div_mul, Z.neq_sym, Z.lt_neq.
Qed.

Lemma summary_matches_row_binary64 (st : State Binary64.t) (plan : Plan Binary64.t) :
  In plan PLAN_ORDER ->
  (employerMatchFor plan (coverage st) > lit 0)%js = true ->
  Binary64.is_binary64 (employeeContribution st) = true ->
  Number_isFinite (employeeContribution st) = true ->
  (lit 0 <= employeeContribution st)%js = true ->
  (totalInclMatch st
   === employeeContribution st
       + hsaBenefit (calcPlan (coverage st) (employeeContribution st)
                       (expectedSpend st) plan))%js = true.
Proof.
  intros Hin Hpos Hv Hfin H0.
  destruct (catalog_matched_binary64 plan (coverage st) Hin Hpos)
    as (m & e & Hm & HM & HwM).
  pose proof (wf_spend _ Hv H0) as Hc.
  assert (Hh : hsaBenefit (calcPlan (coverage st) (employeeContribution st)
                             (expectedSpend st) plan)
               = Math_min (employeeContribution st) (employerMatchFor plan (coverage st))).
  { unfold calcPlan. now destruct (thresholdsFor plan (coverage st)). }
  rewrite Hh. unfold totalInclMatch. rewrite HM, Hm.
  unfold totalContributionIncludingMatch.
  set (c := employeeContribution st) in *.
  destruct (Binary64Facts.Math_min_spec c _ Hc HwM) as [Hwh Oh].
  destruct (RoundingFacts.SFadd_spec c _ Hc Hwh) as [Hws Os].
  cbn [le lit add strict_eq Math_min Binary64_Number] in *.
  rewrite Binary64Facts.lit_0.
  change (SFleb (S754_finite false m e) (S754_zero false)) with false. cbv iota.
  rewrite (RoundingFacts.SFleb_ord _ _ HwM Hc).
  destruct (Z.leb_spec (Rounding.ord (S754_finite false m e)) (Rounding.ord c)) as [L | G].
  - destruct (RoundingFacts.SFadd_spec c _ Hc HwM) as [Hwt Ot].
    rewrite (Binary64MoreFacts.SFeqb_ord _ _ Hwt Hws), Ot, Os, Oh.
    apply Z.eqb_eq. f_equal. lia.
  - destruct (double_binary64 c Hc Hfin) as [Hwt Ot].
    cbn [mul lit Binary64_Number] in Hwt, Ot |- *.
    rewrite (Binary64MoreFacts.SFeqb_ord _ _ Hwt Hws), Ot, Os, Oh.
    apply Z.eqb_eq. f_equal. lia.
Qed.

(** ** A negative spend *)

Lemma negative_spend_exact
    (plan : Plan Exact.t) (coverage : Coverage) (spend contribution : Exact.t) :
  In plan PLAN_ORDER ->
  Number_isFinite spend = true ->
  (spend < lit 0)%js = true ->
  let r := calcPlan coverage contribution spend plan in
  (postDeductibleCost r === lit 0)%js = true
  /\ (preDeductibleCost r === - spend)%js = true
  /\ (preDeductibleCost r > lit 0)%js = true
  /\ (outOfPocket r === - spend)%js = true.
Proof.
  intros Hin Hfin Hneg r. subst r.
  apply ExactFacts.isFinite_Fin in Hfin as [q ->].
  apply ExactFacts.lt_Fin in Hneg.
  destruct (catalog_thresholds_exact plan coverage Hin) as (d & o & Hth & Hd & Hdo).
  rewrite (outOfPocket_exact _ _ _ _ Hth), (postDeductibleCost_exact _ _ _ _ Hth),
    (preDeductibleCost_exact _ _ _ _ Hth).
  assert (Hm : Qmin q d == q) by (apply Q.min_l; lra).
  assert (Hp : postRawQ d o q = 0) by (apply ExactRowFacts.postRawQ_within; lra).
  cbn [neg lit lt Exact_Number Exact.neg].
  split; [| split; [| split]].
  - apply ExactRowFacts.eq_Fin. rewrite Hp. reflexivity.
  - apply ExactRowFacts.eq_Fin. now rewrite Hm.
  - apply ExactFacts.lt_Fin. rewrite Hm. lra.
  - apply ExactRowFacts.eq_Fin. unfold outOfPocketQ. rewrite Hp, Hm.
    change (Qabs (- 0)) with 0. rewrite Qabs_pos by lra. lra.
Qed.

Lemma negative_spend_binary64
    (plan : Plan Binary64.t) (coverage : Coverage) (spend contribution : Binary64.t) :
  In plan PLAN_ORDER ->
  Number_isFinite spend = true ->
  (spend < lit 0)%js = true ->
  let r := calcPlan coverage contribution spend plan in
  (postDeductibleCost r === lit 0)%js = true
  /\ (preDeductibleCost r === - spend)%js = true
  /\ (preDeductibleCost r > lit 0)%js = true
  /\ (outOfPocket r === - spend)%js = true.
Proof.
  intros Hin Hfin Hneg r. subst r.
  pose proof (catalog_thresholds_binary64 plan coverage Hin) as Hok.
  destruct (thresholdsFor plan coverage) as [d o] eqn:Hth.
  cbn [th_deductible th_oopMax] in Hok.
  destruct (thresholds_ok_inv d o Hok) as ([Hnd _] & (sd & md & ed & ->) & _).
  destruct sd; [discriminate Hnd |].
  destruct spend as [s | s | | s m e]; try discriminate Hfin; try discriminate Hneg.
  destruct s; [| discriminate Hneg].
  unfold outOfPocket, calcPlan. rewrite Hth.
  cbn [preDeductibleCost postDeductibleCost].
  cbn [Math_min Math_abs neg lt lit add strict_eq Binary64_Number].
  rewrite Binary64Facts.lit_0.
  change (SFltb (S754_finite false md ed) (S754_finite true m e)) with false.
  change (Binary64.Math_min (S754_finite true m e) (S754_finite false md ed))
    with (S754_finite true m e).
  cbv iota. cbn [SFopp SFabs negb SFadd].
  pose proof (CompareFacts.SFcompare_refl (S754_finite false m e)) as Hr.
  cbn iota in Hr. unfold SFeqb. rewrite Hr.
  split; [reflexivity | split; [reflexivity | split; reflexivity]].
Qed.

(** ** Binary64 numbers of either sign *)

Module SignedFacts.

Import Rounding RoundingFacts Binary64Facts Binary64MoreFacts.
Local Open Scope Z_scope.

Lemma swf_of_wf (x : spec_float) : wf x -> swf x.
Proof.
  intros [Hn Hv]. unfold swf.
  destruct x as [s | s | | s m e]; try discriminate Hn; split; try reflexivity.
  exact Hv.
Qed.

Lemma swf_opp (x : spec_float) : swf x -> swf (SFopp x).
Proof. unfold swf. now destruct x. Qed.

Lemma ord_abs (x : spec_float) : ord (SFabs x) = ord x.
Proof. now destruct x. Qed.

Lemma sval_wf (x : spec_float) : wf x -> sval x = ord x.
Proof.
  intros [Hn _]. destruct x as [s | s | | s m e]; try reflexivity;
    destruct s; try discriminate Hn; reflexivity.
Qed.

Lemma sval_opp (x : spec_float) : sval (SFopp x) = - sval x.
Proof.
  destruct x as [s | s | | s m e]; try reflexivity; destruct s; cbn [SFopp negb sval ord]; lia.
Qed.

(** A number is non-negative, or the opposite of a positive one. *)
Lemma swf_cases (x : spec_float) :
  swf x ->
  wf x \/ exists x', wf x' /\ 0 < ord x' /\ x = SFopp x'.
Proof.
  intros Hx. unfold swf in Hx. pose proof INF_pos.
  destruct x as [s | s | | s m e].
  - left. split; reflexivity.
  - destruct s; [right | left; exact Hx].
    exists (S754_infinity false). split; [split; reflexivity | split; [exact H | reflexivity]].
  - destruct Hx as [Hn _]. discriminate Hn.
  - destruct s; [right | left; exact Hx].
    exists (S754_finite false m e). split; [exact Hx |]. split; [| reflexivity].
    apply (ord_finite_bounds _ _ _ Hx).
Qed.

Lemma sval_range (x : spec_float) : swf x -> - INF <= sval x <= INF.
Proof.
  intros Hx. destruct (swf_cases x Hx) as [Hw | (x' & Hw & Hp & ->)].
  - rewrite (sval_wf x Hw). pose proof (ord_range x Hw). pose proof INF_pos. lia.
  - rewrite sval_opp, (sval_wf x' Hw). pose proof (ord_range x' Hw). lia.
Qed.

Lemma swf_finite (x : spec_float) :
  swf x -> - INF < sval x < INF -> Number_isFinite x = true.
Proof.
  intros Hx Hb. destruct x as [s | s | | s m e]; try reflexivity.
  - destruct s; cbn [sval ord] in Hb; lia.
  - destruct Hx as [Hn _]. discriminate Hn.
Qed.

Lemma finite_opp (x : spec_float) :
  Number_isFinite (SFopp x) = Number_isFinite x.
Proof. now destruct x. Qed.

(** *** Order *)
Lemma SFcompare_signed (x y : spec_float) :
  swf x -> swf y -> SFcompare x y = Some (sval x ?= sval y).
Proof.
  intros Hx Hy.
  destruct (swf_cases x Hx) as [Wx | (x' & Wx & Px & ->)];
    destruct (swf_cases y Hy) as [Wy | (y' & Wy & Py & ->)];
    rewrite ?sval_opp, ?(sval_wf _ Wx), ?(sval_wf _ Wy).
  - now apply SFcompare_ord.
  - pose proof (ord_range x Wx) as Rx.
    assert (Hc : (ord x ?= - ord y') = Gt) by (apply Z.compare_gt_iff; lia).
    rewrite Hc. destruct Wx as [Nx _]. destruct Wy as [Ny _].
    destruct x as [sx | sx | | sx mx ex]; try discriminate Nx;
      destruct y' as [sy | sy | | sy my ey]; try discriminate Ny;
      cbn [ord] in Py; try lia;
      destruct sx; try discriminate Nx; destruct sy; try discriminate Ny; reflexivity.
  - pose proof (ord_range y Wy) as Ry.
    assert (Hc : (- ord x' ?= ord y) = Lt) by (apply Z.compare_lt_iff; lia).
    rewrite Hc. destruct Wx as [Nx _]. destruct Wy as [Ny _].
    destruct y as [sy | sy | | sy my ey]; try discriminate Ny;
      destruct x' as [sx | sx | | sx mx ex]; try discriminate Nx;
      cbn [ord] in Px; try lia;
      destruct sx; try discriminate Nx; destruct sy; try discriminate Ny; reflexivity.
  - rewrite SFcompare_opp, (SFcompare_ord y' x' Wy Wx). f_equal.
    symmetry. apply Z.compare_opp.
Qed.

Lemma SFleb_signed (x y : spec_float) :
  swf x -> swf y -> SFleb x y = (sval x <=? sval y).
Proof.
  intros Hx Hy. unfold SFleb. rewrite (SFcompare_signed x y Hx Hy).
  unfold Z.leb. now destruct (sval x ?= sval y).
Qed.

(** *** Rounding *)
Lemma rnd_0 : rnd 0 = 0.
Proof. unfold rnd. rewrite RN_0. pose proof INF_pos. lia. Qed.

Lemma srnd_nonneg (W : Z) : 0 <= W -> srnd W = rnd W.
Proof. intros HW. unfold srnd. destruct (Z.ltb_spec W 0); [lia | reflexivity]. Qed.

Lemma srnd_nonpos (W : Z) : W <= 0 -> srnd W = - rnd (- W).
Proof.
  intros HW. unfold srnd. destruct (Z.ltb_spec W 0); [reflexivity |].
  assert (W = 0) by lia. subst W. change (- 0) with 0. rewrite rnd_0. reflexivity.
Qed.

Lemma srnd_le (W1 W2 : Z) : W1 <= W2 -> srnd W1 <= srnd W2.
Proof.
  intros Hle. unfold srnd.
  destruct (Z.ltb_spec W1 0) as [N1 | P1]; destruct (Z.ltb_spec W2 0) as [N2 | P2].
  - pose proof (rnd_le (- W2) (- W1) ltac:(lia) ltac:(lia)). lia.
  - pose proof (rnd_range (- W1) ltac:(lia)). pose proof (rnd_range W2 P2). lia.
  - lia.
  - now apply rnd_le.
Qed.

Lemma srnd_sval (x : spec_float) : swf x -> srnd (sval x) = sval x.
Proof.
  intros Hx. destruct (swf_cases x Hx) as [Hw | (x' & Hw & Hp & ->)].
  - rewrite (sval_wf x Hw). pose proof (ord_range x Hw).
    rewrite srnd_nonneg by lia. now apply rnd_ord.
  - rewrite sval_opp, (sval_wf x' Hw). rewrite srnd_nonpos by lia.
    rewrite Z.opp_involutive. now rewrite (rnd_ord x' Hw).
Qed.

(** Rounding keeps a count within a bound that is itself a number. *)
Lemma srnd_bound (W : Z) (b : spec_float) :
  wf b -> - ord b <= W <= ord b -> - ord b <= srnd W <= ord b.
Proof.
  intros Hb HW. pose proof (ord_range b Hb) as Rb.
  pose proof (srnd_le _ _ (proj1 HW)) as H1.
  pose proof (srnd_le _ _ (proj2 HW)) as H2.
  rewrite (srnd_nonpos (- ord b)), Z.opp_involutive, (rnd_ord b Hb) in H1 by lia.
  rewrite (srnd_nonneg (ord b)), (rnd_ord b Hb) in H2 by lia.
  lia.
Qed.

(** *** Addition *)
Lemma binary_round_true (m : positive) (e : Z) :
  binary_round Binary64.prec Binary64.emax true m e
  = SFopp (binary_round Binary64.prec Binary64.emax false m e).
Proof.
  unfold binary_round.
  destruct (shl_align m e _) as [mz ez]. unfold binary_round_aux.
  destruct (shr_fexp Binary64.prec Binary64.emax (Z.pos mz) ez loc_Exact) as [mrs' e'].
  destruct (shr_fexp Binary64.prec Binary64.emax _ e' loc_Exact) as [mrs'' e''].
  destruct (shr_m mrs''); try reflexivity.
  now destruct (e'' <=? Binary64.emax - Binary64.prec).
Qed.

Lemma binary_normalize_signed (z e : Z) :
  - bias <= e ->
  let f := binary_normalize Binary64.prec Binary64.emax z e false in
  swf f /\ sval f = srnd (z * 2 ^ (e + bias)).
Proof.
  intros He. cbv zeta.
  assert (HP : 0 < 2 ^ (e + bias)) by (apply pow2_pos; lia).
  destruct z as [| p | p].
  - cbn [binary_normalize]. split; [split; reflexivity |].
    rewrite Z.mul_0_l. cbn [sval ord]. rewrite srnd_nonneg, rnd_0 by lia. reflexivity.
  - destruct (binary_normalize_spec (Z.pos p) e ltac:(lia) He) as [Hw Ho].
    split; [now apply swf_of_wf |].
    rewrite (sval_wf _ Hw), Ho, srnd_nonneg by lia. reflexivity.
  - cbn [binary_normalize]. rewrite binary_round_true.
    destruct (binary_round_spec p e He) as [Hw Ho].
    split; [now apply swf_opp, swf_of_wf |].
    rewrite sval_opp, (sval_wf _ Hw), Ho, srnd_nonpos by lia.
    unfold rnd. f_equal. f_equal. f_equal. lia.
Qed.

Lemma sval_finite (s : bool) (m : positive) (e : Z) :
  sval (S754_finite s m e) = cond_Zopp s (Z.pos m * 2 ^ (e + bias)).
Proof. now destruct s. Qed.

Lemma SFadd_signed (x y : spec_float) :
  swf x -> swf y -> Number_isFinite x = true -> Number_isFinite y = true ->
  swf (SFadd Binary64.prec Binary64.emax x y)
  /\ sval (SFadd Binary64.prec Binary64.emax x y) = srnd (sval x + sval y).
Proof.
  intros Hx Hy Fx Fy.
  destruct x as [sx | sx | | sx mx ex]; try discriminate Fx;
    destruct y as [sy | sy | | sy my ey]; try discriminate Fy.
  - assert (Hz : swf (SFadd Binary64.prec Binary64.emax (S754_zero sx) (S754_zero sy))
                 /\ sval (SFadd Binary64.prec Binary64.emax (S754_zero sx) (S754_zero sy)) = 0).
    { destruct sx, sy; (split; [split |]); reflexivity. }
    destruct Hz as [Hz ->]. split; [exact Hz |].
    cbn [sval ord]. change (0 + 0) with 0. rewrite srnd_nonneg, rnd_0 by lia. reflexivity.
  - cbn [SFadd]. split; [exact Hy |].
    change (sval (S754_zero sx)) with 0. rewrite Z.add_0_l. symmetry. now apply srnd_sval.
  - cbn [SFadd]. split; [exact Hx |].
    change (sval (S754_zero sy)) with 0. rewrite Z.add_0_r. symmetry. now apply srnd_sval.
  - destruct (wf_finite_inv _ _ _ Hx) as (_ & Hex & _).
    destruct (wf_finite_inv _ _ _ Hy) as (_ & Hey & _).
    cbn [SFadd]. cbv zeta.
    set (ez := Z.min ex ey).
    replace (sval (S754_finite sx mx ex) + sval (S754_finite sy my ey))
      with ((cond_Zopp sx (Zpos (fst (shl_align mx ex ez)))
             + cond_Zopp sy (Zpos (fst (shl_align my ey ez))))
            * 2 ^ (ez + bias)).
    + apply binary_normalize_signed. subst ez. unfold bias. lia.
    + rewrite !sval_finite, Z.mul_add_distr_r.
      rewrite <- (aligned_value mx ex ez), <- (aligned_value my ey ez) by (subst ez; lia).
      destruct sx, sy; cbn [cond_Zopp]; ring.
Qed.

(** *** The count of [totalSpending] *)
Lemma totalZ_mono (A m d cap c1 c2 s1 s2 : Z) :
  0 <= d -> 0 <= cap -> Z.min c1 m <= Z.min c2 m -> 0 <= s1 -> s1 <= s2 ->
  totalZ A m d cap c1 s2 <= totalZ A m d cap c2 s1.
Proof.
  intros Hd Hcap Hc H0 H12. unfold totalZ.
  pose proof (postZ_mono d cap s1 s2 Hd Hcap H0 H12) as Hp.
  apply srnd_le.
  assert (H2 : srnd (srnd (A + Z.min c1 m) - Z.min s2 d)
               <= srnd (srnd (A + Z.min c2 m) - Z.min s1 d)).
  { apply srnd_le.
    assert (H1 : srnd (A + Z.min c1 m) <= srnd (A + Z.min c2 m)) by (apply srnd_le; lia).
    lia. }
  lia.
Qed.

End SignedFacts.

(** ** The total of a row in binary64 arithmetic *)

Lemma catalog_row_ok (plan : Plan Binary64.t) (coverage : Coverage) :
  In plan PLAN_ORDER -> row_ok plan coverage = true.
Proof.
  intros [<- | [<- | [<- | []]]]; destruct coverage; vm_compute; reflexivity.
Qed.

Lemma row_ok_inv (plan : Plan Binary64.t) (coverage : Coverage) :
  row_ok plan coverage = true ->
  let A := (- (monthly (costs plan coverage) * lit 12))%js in
  let m := employerMatchFor plan coverage in
  let d := th_deductible (thresholdsFor plan coverage) in
  let o := th_oopMax (thresholdsFor plan coverage) in
  let cap := Rounding.ord (Rounding.capPortion d o) in
  (Rounding.swf A /\ Number_isFinite A = true
   /\ - Rounding.ord (Binary64.lit 8192) <= Rounding.sval A <= 0
   /\ Rounding.wf m /\ Rounding.ord m <= Rounding.ord (Binary64.lit 8192)
   /\ Rounding.ord d <= Rounding.ord (Binary64.lit 16384)
   /\ Rounding.ord o <= Rounding.ord (Binary64.lit 16384))%Z
  /\ (Rounding.swf (A - o)%js
      /\ Rounding.sval (A - o)%js
         <= Rounding.totalZ (Rounding.sval A) (Rounding.ord m) (Rounding.ord d) cap
              0 Rounding.INF)%Z
  /\ (Rounding.swf (A + m)%js
      /\ Rounding.totalZ (Rounding.sval A) (Rounding.ord m) (Rounding.ord d) cap
           (Rounding.ord m) 0
         <= Rounding.sval (A + m)%js)%Z.
Proof.
  intros Hok. cbv zeta. unfold row_ok in Hok. cbv zeta in Hok.
  repeat (apply andb_true_iff in Hok as [Hok ?]).
  repeat match goal with H : (_ <=? _)%Z = true |- _ => apply Z.leb_le in H end.
  unfold Rounding.swf, Rounding.wf, Binary64.is_binary64 in *.
  repeat split; try assumption;
    set (A := (- (monthly (costs plan coverage) * lit 12))%js) in *; clearbody A;
    destruct A as [s | s | | s m' e']; try discriminate; try reflexivity; assumption.
Qed.

Section Binary64Total.

Import Rounding RoundingFacts Binary64Facts Binary64MoreFacts SignedFacts.
Local Open Scope Z_scope.

Variables (plan : Plan Binary64.t) (coverage : Coverage) (d o : Binary64.t).
Hypothesis thresholds :
  thresholdsFor plan coverage = {| th_deductible := d; th_oopMax := o |}.
Hypothesis ok : thresholds_ok d o = true.
Hypothesis row : row_ok plan coverage = true.

(** For a non-negative finite contribution [c] and spend [s], the total of
    the row is a number of signed count [totalZ]: three rounded additions. *)
Lemma totalSpending_binary64 (c s : Binary64.t) :
  wf c -> wf s -> Number_isFinite s = true ->
  let r := calcPlan coverage c s plan in
  swf (totalSpending r)
  /\ sval (totalSpending r)
     = totalZ (sval (annualEmployeePremiumCost r)) (ord (employerMatchFor plan coverage))
         (ord d) (ord (capPortion d o)) (ord c) (ord s).
Proof.
  intros Hc Hs Fs. cbv zeta.
  destruct (row_ok_inv plan coverage row)
    as ((HA & FA & RA & Hm & Rm & Rd & Ro) & _). cbv zeta in *.
  rewrite thresholds in Rd, Ro. cbn [th_deductible th_oopMax] in Rd, Ro.
  destruct (thresholds_ok_inv d o ok) as (Hd & _ & Ho & Hcap & Hsum).
  destruct (costs_binary64 plan coverage d o thresholds ok c s Hs Fs)
    as (m1 & x & Epre & Hm1 & Om1 & Epost & Hx & Ox).
  cbv zeta in Epre, Epost.
  rewrite annualEmployeePremiumCost_calcPlan.
  set (A := (- (monthly (costs plan coverage) * lit 12))%js) in *.
  assert (Et : totalSpending (calcPlan coverage c s plan)
               = (A + Math_min c (employerMatchFor plan coverage)
                  + preDeductibleCost (calcPlan coverage c s plan)
                  + postDeductibleCost (calcPlan coverage c s plan))%js).
  { unfold calcPlan. now destruct (thresholdsFor plan coverage). }
  rewrite Et, Epre, Epost. clear Et Epre Epost.
  cbn [add Math_min Binary64_Number].
  set (m := employerMatchFor plan coverage) in *.
  assert (E13 : ord (Binary64.lit 16384) = 2 * ord (Binary64.lit 8192))
    by (vm_compute; reflexivity).
  assert (E15 : ord (Binary64.lit 32768) = 4 * ord (Binary64.lit 8192))
    by (vm_compute; reflexivity).
  assert (L15 : ord (Binary64.lit 32768) < INF)
    by (apply Z.ltb_lt; vm_compute; reflexivity).
  assert (W13 : wf (Binary64.lit 8192)) by (split; vm_compute; reflexivity).
  assert (W15 : wf (Binary64.lit 32768)) by (split; vm_compute; reflexivity).
  pose proof (ord_range _ W13) as R13.
  pose proof (ord_range c Hc) as Rc. pose proof (ord_range s Hs) as Rs.
  pose proof (ord_range m Hm) as Rmm. pose proof (ord_range d Hd) as Rdd.
  pose proof (ord_range _ Hcap) as Rcap.
  pose proof (postZ_range (ord d) (ord (capPortion d o)) (ord s) (proj1 Rcap) (proj1 Rs))
    as Rx.
  (* the benefit *)
  destruct (Math_min_spec c m Hc Hm) as [Hh Oh].
  assert (Fh : Number_isFinite (Binary64.Math_min c m) = true)
    by (apply (wf_lt_INF_finite _ Hh); lia).
  destruct (SFadd_signed A _ HA (swf_of_wf _ Hh) FA Fh) as [H1 O1].
  rewrite (sval_wf _ Hh), Oh in O1.
  assert (B1 : - ord (Binary64.lit 8192) <= sval A + Z.min (ord c) (ord m)
               <= ord (Binary64.lit 8192)) by lia.
  pose proof (srnd_bound _ _ W13 B1) as B1'. rewrite <- O1 in B1'.
  assert (F1 : Number_isFinite (SFadd Binary64.prec Binary64.emax A (Binary64.Math_min c m))
               = true) by (apply (swf_finite _ H1); lia).
  (* the cost before the deductible *)
  assert (Fm1 : Number_isFinite (SFopp m1) = true).
  { rewrite finite_opp. apply (wf_lt_INF_finite _ Hm1). lia. }
  destruct (SFadd_signed _ _ H1 (swf_opp _ (swf_of_wf _ Hm1)) F1 Fm1) as [H2 O2].
  rewrite sval_opp, (sval_wf _ Hm1), Om1, O1 in O2.
  assert (B2 : - ord (Binary64.lit 32768)
               <= srnd (sval A + Z.min (ord c) (ord m)) + - Z.min (ord s) (ord d)
               <= ord (Binary64.lit 32768)) by (rewrite <- O1; lia).
  pose proof (srnd_bound _ _ W15 B2) as B2'. rewrite <- O2 in B2'.
  match type of H2 with swf ?t =>
    assert (F2 : Number_isFinite t = true) by (apply (swf_finite _ H2); lia)
  end.
  (* the cost after the deductible *)
  assert (Fx : Number_isFinite (SFopp x) = true).
  { rewrite finite_opp. apply (wf_lt_INF_finite _ Hx). lia. }
  destruct (SFadd_signed _ _ H2 (swf_opp _ (swf_of_wf _ Hx)) F2 Fx) as [H3 O3].
  rewrite sval_opp, (sval_wf _ Hx), Ox, O2 in O3.
  split; [exact H3 |]. rewrite O3. unfold totalZ. reflexivity.
Qed.

End Binary64Total.

Lemma totalSpending_monotone_binary64
    (plan : Plan Binary64.t) (coverage : Coverage) (s1 s2 c1 c2 : Binary64.t) :
  In plan PLAN_ORDER ->
  Binary64.is_binary64 s1 = true -> Binary64.is_binary64 s2 = true ->
  Binary64.is_binary64 c1 = true -> Binary64.is_binary64 c2 = true ->
  Number_isFinite s1 = true -> Number_isFinite s2 = true ->
  (lit 0 <= s1)%js = true -> (s1 <= s2)%js = true ->
  (lit 0 <= c1)%js = true -> (c1 <= c2)%js = true ->
  (totalSpending (calcPlan coverage c1 s2 plan)
   <= totalSpending (calcPlan coverage c2 s1 plan))%js = true.
Proof.
  intros Hin Vs1 Vs2 Vc1 Vc2 Fs1 Fs2 Hs1 Hs12 Hc1 Hc12.
  pose proof (wf_spend s1 Vs1 Hs1) as Ws1.
  pose proof (wf_above s1 s2 Ws1 Vs2 Hs12) as Ws2.
  pose proof (wf_spend c1 Vc1 Hc1) as Wc1.
  pose proof (wf_above c1 c2 Wc1 Vc2 Hc12) as Wc2.
  pose proof (catalog_thresholds_binary64 plan coverage Hin) as Hok.
  pose proof (catalog_row_ok plan coverage Hin) as Hrow.
  destruct (thresholdsFor plan coverage) as [d o] eqn:Hth.
  cbn [th_deductible th_oopMax] in Hok.
  destruct (totalSpending_binary64 plan coverage d o Hth Hok Hrow c1 s2 Wc1 Ws2 Fs2)
    as [H1 O1].
  destruct (totalSpending_binary64 plan coverage d o Hth Hok Hrow c2 s1 Wc2 Ws1 Fs1)
    as [H2 O2].
  cbv zeta in *.
  change (SFleb (totalSpending (calcPlan coverage c1 s2 plan))
                (totalSpending (calcPlan coverage c2 s1 plan)) = true).
  rewrite (SignedFacts.SFleb_signed _ _ H1 H2), O1, O2.
  rewrite !annualEmployeePremiumCost_calcPlan.
  destruct (thresholds_ok_inv d o Hok) as (Hd & _ & _ & Hcap & _).
  change (SFleb s1 s2 = true) in Hs12. change (SFleb c1 c2 = true) in Hc12.
  rewrite (RoundingFacts.SFleb_ord _ _ Ws1 Ws2) in Hs12.
  rewrite (RoundingFacts.SFleb_ord _ _ Wc1 Wc2) in Hc12.
  apply Z.leb_le in Hs12, Hc12. apply Z.leb_le.
  apply SignedFacts.totalZ_mono.
  - apply (RoundingFacts.ord_range d Hd).
  - apply (RoundingFacts.ord_range _ Hcap).
  - lia.
  - apply (RoundingFacts.ord_range s1 Ws1).
  - exact Hs12.
Qed.

Lemma totalSpending_bounds_binary64
    (plan : Plan Binary64.t) (coverage : Coverage) (spend contribution : Binary64.t) :
  In plan PLAN_ORDER ->
  Binary64.is_binary64 spend = true ->
  Binary64.is_binary64 contribution = true ->
  Number_isFinite spend = true ->
  (lit 0 <= spend)%js = true ->
  (lit 0 <= contribution)%js = true ->
  let r := calcPlan coverage contribution spend plan in
  (annualEmployeePremiumCost r - th_oopMax (thresholdsFor plan coverage)
   <= totalSpending r)%js = true
  /\ (totalSpending r
      <= annualEmployeePremiumCost r + employerMatchFor plan coverage)%js = true.
Proof.
  intros Hin Vs Vc Fs Hs Hc r. subst r.
  pose proof (wf_spend spend Vs Hs) as Ws.
  pose proof (wf_spend contribution Vc Hc) as Wc.
  pose proof (catalog_thresholds_binary64 plan coverage Hin) as Hok.
  pose proof (catalog_row_ok plan coverage Hin) as Hrow.
  destruct (row_ok_inv plan coverage Hrow) as (_ & (Hlo & Llo) & (Hhi & Lhi)).
  cbv zeta in *.
  destruct (thresholdsFor plan coverage) as [d o] eqn:Hth.
  cbn [th_deductible th_oopMax] in *.
  destruct (totalSpending_binary64 plan coverage d o Hth Hok Hrow
              contribution spend Wc Ws Fs) as [Ht Ot].
  cbv zeta in *. rewrite !annualEmployeePremiumCost_calcPlan in *.
  destruct (thresholds_ok_inv d o Hok) as (Hd & _ & _ & Hcap & _).
  pose proof (RoundingFacts.ord_range d Hd) as Rd.
  pose proof (RoundingFacts.ord_range _ Hcap) as Rcap.
  pose proof (RoundingFacts.ord_range spend Ws) as Rs.
  pose proof (RoundingFacts.ord_range contribution Wc) as Rc.
  split.
  - change (SFleb (- (monthly (costs plan coverage) * lit 12) - o)%js
                  (totalSpending (calcPlan coverage contribution spend plan)) = true).
    rewrite (SignedFacts.SFleb_signed _ _ Hlo Ht), Ot. apply Z.leb_le.
    etransitivity; [exact Llo |].
    apply SignedFacts.totalZ_mono; lia.
  - change (SFleb (totalSpending (calcPlan coverage contribution spend plan))
                  (- (monthly (costs plan coverage) * lit 12)
                   + employerMatchFor plan coverage)%js = true).
    rewrite (SignedFacts.SFleb_signed _ _ Ht Hhi), Ot. apply Z.leb_le.
    etransitivity; [| exact Lhi].
    apply SignedFacts.totalZ_mono; lia.
Qed.

(** ** Between the deductible and the saturation spend *)

Lemma postRawQ_coinsurance (d o q : Q) :
  d < q -> q <= d + (o - d) * 5 -> postRawQ d o q == (q - d) * 0.2.
Proof.
  intros Hdq Hq. unfold postRawQ. destruct (Exact.Qlt_bool d q) eqn:E.
  - assert (Hmax : Qmax (o - d) 0 == o - d) by (apply Q.max_l; lra).
    rewrite Hmax. apply Q.min_l. lra.
  - apply not_true_iff_false in E. rewrite ExactFacts.Qlt_bool_iff in E. lra.
Qed.

Lemma coinsurance_exact
    (plan : Plan Exact.t) (coverage : Coverage) (spend contribution : Exact.t) :
  In plan PLAN_ORDER ->
  Number_isFinite spend = true ->
  (spend > th_deductible (thresholdsFor plan coverage))%js = true ->
  (spend <= saturationSpend plan coverage)%js = true ->
  let r := calcPlan coverage contribution spend plan in
  let d := th_deductible (thresholdsFor plan coverage) in
  (preDeductibleCost r === - d)%js = true
  /\ (postDeductibleCost r === - ((spend - d) * coinsuranceRate))%js = true
  /\ (outOfPocket r === d + (spend - d) * coinsuranceRate)%js = true.
Proof.
  intros Hin Hfin Hgt Hsat r dd. subst r dd.
  apply ExactFacts.isFinite_Fin in Hfin as [q ->].
  destruct (catalog_thresholds_exact plan coverage Hin) as (d & o & Hth & Hd & Hdo).
  unfold saturationSpend in Hsat. rewrite Hth in *. cbn [th_deductible th_oopMax] in *.
  apply ExactFacts.lt_Fin in Hgt. apply ExactFacts.le_Fin in Hsat.
  rewrite (outOfPocket_exact _ _ _ _ Hth), (postDeductibleCost_exact _ _ _ _ Hth),
    (preDeductibleCost_exact _ _ _ _ Hth).
  pose proof (postRawQ_coinsurance d o q Hgt Hsat) as Hp.
  assert (Hm : Qmin q d == d) by (apply Q.min_r; lra).
  split; [| split]; apply ExactRowFacts.eq_Fin.
  - now rewrite Hm.
  - now rewrite Hp.
  - unfold outOfPocketQ. rewrite Hp, Hm, !Qabs_opp, !Qabs_pos by lra. reflexivity.
Qed.

Lemma catalog_coinsurance_ok (plan : Plan Binary64.t) (coverage : Coverage) :
  In plan PLAN_ORDER -> coinsurance_ok plan coverage = true.
Proof.
  intros [<- | [<- | [<- | []]]]; destruct coverage; vm_compute; reflexivity.
Qed.

Lemma coinsurance_binary64
    (plan : Plan Binary64.t) (coverage : Coverage) (spend contribution : Binary64.t) :
  In plan PLAN_ORDER ->
  Binary64.is_binary64 spend = true ->
  Number_isFinite spend = true ->
  (spend > th_deductible (thresholdsFor plan coverage))%js = true ->
  (spend <= saturationSpend plan coverage)%js = true ->
  let r := calcPlan coverage contribution spend plan in
  let d := th_deductible (thresholdsFor plan coverage) in
  (preDeductibleCost r === - d)%js = true
  /\ (postDeductibleCost r === - ((spend - d) * coinsuranceRate))%js = true
  /\ (outOfPocket r === d + (spend - d) * coinsuranceRate)%js = true.
Proof.
  intros Hin Hv Hfin Hgt Hsat r dd. subst r dd.
  pose proof (catalog_coinsurance_ok plan coverage Hin) as Hs0.
  unfold coinsurance_ok in Hs0. cbv zeta in Hs0.
  repeat (apply andb_true_iff in Hs0 as [Hs0 ?]).
  set (s0 := saturationSpend plan coverage) in *.
  assert (Hw0 : Rounding.wf s0) by (split; assumption).
  assert (Hf0 : Number_isFinite s0 = true) by assumption.
  pose proof (catalog_thresholds_binary64 plan coverage Hin) as Hok.
  destruct (thresholdsFor plan coverage) as [d o] eqn:Hth. cbn [th_deductible th_oopMax] in *.
  destruct (thresholds_ok_inv d o Hok) as (Hd & (sd & md & ed & Ed) & Ho & Hcap & Hsum).
  assert (Hs : Rounding.wf spend).
  { apply (wf_above d spend Hd Hv).
    change (SFleb d spend = true). change (SFltb d spend = true) in Hgt.
    unfold SFleb. unfold SFltb in Hgt. now destruct (SFcompare d spend) as [[ | | ] |]. }
  change (SFltb d spend = true) in Hgt. change (SFleb spend s0 = true) in Hsat.
  rewrite (RoundingFacts.SFltb_ord _ _ Hd Hs) in Hgt.
  rewrite (RoundingFacts.SFleb_ord _ _ Hs Hw0) in Hsat.
  apply Z.ltb_lt in Hgt. apply Z.leb_le in Hsat.
  pose proof (RoundingFacts.ord_range d Hd) as Rd.
  pose proof (RoundingFacts.ord_range _ Hcap) as Rcap.
  destruct (Binary64Facts.wf_lit_0_2) as [Hw02 Hc02].
  (* the coinsurance portion at the saturation spend and at the spend *)
  assert (Hy : forall s : Binary64.t,
             Rounding.wf s -> Number_isFinite s = true ->
             (Rounding.ord d < Rounding.ord s)%Z ->
             Rounding.wf ((s - d) * coinsuranceRate)%js
             /\ Rounding.ord ((s - d) * coinsuranceRate)%js
                = Rounding.mulv (Rounding.rnd (Rounding.ord s - Rounding.ord d))
                    (Rounding.ord (Binary64.lit 0.2))).
  { intros s Ws Fs Hlt.
    destruct s as [ss | ss | | ss ms es]; try discriminate Fs.
    { cbn [Rounding.ord] in Hlt. lia. }
    rewrite Ed in *.
    destruct (RoundingFacts.SFsub_spec ss sd ms md es ed Ws Hd ltac:(lia)) as [Wy Oy].
    unfold coinsuranceRate. cbn [sub mul lit Binary64_Number].
    rewrite Binary64Facts.lit_0_2.
    destruct (RoundingFacts.SFmul_spec _ false 0x1999999999999A (-55) Wy
                ltac:(split; reflexivity) ltac:(lia)) as [Wz Oz].
    split; [exact Wz |]. rewrite Oz, Oy. reflexivity. }
  destruct (Hy s0 Hw0 Hf0 ltac:(lia)) as [Wz0 Oz0].
  destruct (Hy spend Hs Hfin Hgt) as [Wz Oz].
  match goal with
  | H : (_ <= Rounding.capPortion d o)%js = true |- _ =>
      change (SFleb ((s0 - d) * coinsuranceRate)%js (Rounding.capPortion d o) = true) in H;
      rewrite (RoundingFacts.SFleb_ord _ _ Wz0 Hcap), Oz0 in H;
      apply Z.leb_le in H; rename H into Hle0
  end.
  assert (Hle : (Rounding.ord ((spend - d) * coinsuranceRate)%js
                 <= Rounding.ord (Rounding.capPortion d o))%Z).
  { rewrite Oz. etransitivity; [| exact Hle0].
    pose proof (RoundingFacts.rnd_range (Rounding.ord spend - Rounding.ord d) ltac:(lia)).
    pose proof (RoundingFacts.rnd_range (Rounding.ord s0 - Rounding.ord d) ltac:(lia)).
    apply Binary64Facts.mulv_le; try lia.
    apply RoundingFacts.rnd_le; lia. }
  destruct (costs_binary64 plan coverage d o Hth Hok contribution spend Hs Hfin)
    as (m1 & x & Epre & Hm1 & Om1 & Epost & Hx & Ox).
  destruct (outOfPocket_binary64 plan coverage d o Hth Hok contribution spend Hs Hfin)
    as (Hwf & Hord & _).
  unfold Rounding.postZ in Ox. unfold Rounding.outOfPocketZ in Hord.
  destruct (Z.ltb_spec (Rounding.ord d) (Rounding.ord spend)) as [_ | G]; [| lia].
  rewrite <- Oz in Ox, Hord.
  split; [| split].
  - rewrite Epre. change (SFeqb (SFopp m1) (SFopp d) = true).
    rewrite Binary64MoreFacts.SFeqb_opp, (Binary64MoreFacts.SFeqb_ord _ _ Hd Hm1), Om1.
    apply Z.eqb_eq. lia.
  - rewrite Epost.
    change (SFeqb (SFopp x) (SFopp ((spend - d) * coinsuranceRate)%js) = true).
    rewrite Binary64MoreFacts.SFeqb_opp, (Binary64MoreFacts.SFeqb_ord _ _ Wz Hx), Ox.
    apply Z.eqb_eq. lia.
  - destruct (RoundingFacts.SFadd_spec d _ Hd Wz) as [Wt Ot].
    change (SFeqb (outOfPocket (calcPlan coverage contribution spend plan))
                  (SFadd Binary64.prec Binary64.emax d ((spend - d) * coinsuranceRate)%js)
            = true).
    rewrite (Binary64MoreFacts.SFeqb_ord _ _ Hwf Wt), Hord, Ot.
    apply Z.eqb_eq. f_equal. lia.
Qed.

(** ** The benefit against the match cell *)

Lemma hsaBenefit_positive_exact
    (plan : Plan Exact.t) (coverage : Coverage) (spend contribution : Exact.t) :
  In plan PLAN_ORDER ->
  Number_isFinite contribution = true ->
  (hsaBenefit (calcPlan coverage contribution spend plan) > lit 0)%js
  = ((employerMatchFor plan coverage > lit 0)%js && (contribution > lit 0)%js).
Proof.
  intros Hin Hfin.
  apply ExactFacts.isFinite_Fin in Hfin as [c ->].
  destruct (catalog_row_exact plan coverage Hin)
    as (mo & m & d & o & Hmo & Hm & Hth & _ & Hm0 & _).
  rewrite (hsaBenefit_exact plan coverage m d o Hm Hth c spend).
  unfold employerMatchFor. rewrite Hm.
  cbn [lt lit Exact_Number]. rewrite !ExactFacts.lt_Fin_bool.
  apply eq_true_iff_eq. rewrite andb_true_iff, !ExactFacts.Qlt_bool_iff.
  split.
  - intros Hlt. split.
    + apply (Qlt_le_trans _ _ _ Hlt), Q.le_min_r.
    + apply (Qlt_le_trans _ _ _ Hlt), Q.le_min_l.
  - intros [H1 H2]. now apply Q.min_glb_lt.
Qed.

Lemma hsaBenefit_positive_binary64
    (plan : Plan Binary64.t) (coverage : Coverage) (spend contribution : Binary64.t) :
  In plan PLAN_ORDER ->
  Binary64.is_binary64 contribution = true ->
  (lit 0 <= contribution)%js = true ->
  (hsaBenefit (calcPlan coverage contribution spend plan) > lit 0)%js
  = ((employerMatchFor plan coverage > lit 0)%js && (contribution > lit 0)%js).
Proof.
  intros Hin Hv Hpos.
  pose proof (wf_spend contribution Hv Hpos) as Hc.
  pose proof (catalog_match_binary64 plan coverage Hin) as Hm.
  assert (Hh : hsaBenefit (calcPlan coverage contribution spend plan)
               = Binary64.Math_min contribution (hsaMatch plan coverage)).
  { unfold calcPlan. now destruct (thresholdsFor plan coverage). }
  rewrite Hh. unfold employerMatchFor.
  destruct (Binary64Facts.Math_min_spec _ _ Hc Hm) as [Hw Ow].
  assert (H0 : Rounding.wf (S754_zero false)) by (split; reflexivity).
  cbn [lt lit Binary64_Number]. rewrite Binary64Facts.lit_0.
  rewrite (RoundingFacts.SFltb_ord _ _ H0 Hw), (RoundingFacts.SFltb_ord _ _ H0 Hc),
    (RoundingFacts.SFltb_ord _ _ H0 Hm), Ow.
  cbn [Rounding.ord].
  apply eq_true_iff_eq. rewrite andb_true_iff, !Z.ltb_lt. lia.
Qed.

(** ** A contribution above the match *)

Lemma contribution_above_match_exact
    (plan : Plan Exact.t) (coverage : Coverage) (spend c1 c2 : Exact.t) :
  In plan PLAN_ORDER ->
  Number_isFinite spend = true ->
  Number_isFinite c1 = true -> Number_isFinite c2 = true ->
  (c1 >= employerMatchFor plan coverage)%js = true ->
  (c2 >= employerMatchFor plan coverage)%js = true ->
  let r1 := calcPlan coverage c1 spend plan in
  let r2 := calcPlan coverage c2 spend plan in
  (hsaBenefit r1 === employerMatchFor plan coverage)%js = true
  /\ (hsaBenefit r2 === employerMatchFor plan coverage)%js = true
  /\ (totalSpending r1 === totalSpending r2)%js = true.
Proof.
  intros Hin Hfs Hf1 Hf2 H1 H2 r1 r2. subst r1 r2.
  apply ExactFacts.isFinite_Fin in Hfs as [q ->].
  apply ExactFacts.isFinite_Fin in Hf1 as [k1 ->].
  apply ExactFacts.isFinite_Fin in Hf2 as [k2 ->].
  destruct (catalog_row_exact plan coverage Hin)
    as (mo & m & d & o & Hmo & Hm & Hth & _).
  unfold employerMatchFor in *. rewrite Hm in *.
  apply ExactFacts.le_Fin in H1, H2.
  rewrite !(hsaBenefit_exact plan coverage m d o Hm Hth),
    !(totalSpending_exact plan coverage mo m d o Hmo Hm Hth).
  assert (E1 : Qmin k1 m == m) by now apply Q.min_r.
  assert (E2 : Qmin k2 m == m) by now apply Q.min_r.
  split; [| split]; apply ExactRowFacts.eq_Fin.
  - exact E1.
  - exact E2.
  - now rewrite E1, E2.
Qed.

Lemma SFeqb_signed (x y : spec_float) :
  Rounding.swf x -> Rounding.swf y ->
  SFeqb x y = (Rounding.sval x =? Rounding.sval y)%Z.
Proof.
  intros Hx Hy. unfold SFeqb. rewrite (SignedFacts.SFcompare_signed x y Hx Hy).
  rewrite Z.eqb_compare. now destruct (Rounding.sval x ?= Rounding.sval y)%Z.
Qed.

Lemma contribution_above_match_binary64
    (plan : Plan Binary64.t) (coverage : Coverage) (spend c1 c2 : Binary64.t) :
  In plan PLAN_ORDER ->
  Binary64.is_binary64 spend = true ->
  Number_isFinite spend = true ->
  (lit 0 <= spend)%js = true ->
  Binary64.is_binary64 c1 = true -> Binary64.is_binary64 c2 = true ->
  (c1 >= employerMatchFor plan coverage)%js = true ->
  (c2 >= employerMatchFor plan coverage)%js = true ->
  let r1 := calcPlan coverage c1 spend plan in
  let r2 := calcPlan coverage c2 spend plan in
  (hsaBenefit r1 === employerMatchFor plan coverage)%js = true
  /\ (hsaBenefit r2 === employerMatchFor plan coverage)%js = true
  /\ (totalSpending r1 === totalSpending r2)%js = true.
Proof.
  intros Hin Vs Fs Hs V1 V2 H1 H2 r1 r2. subst r1 r2.
  pose proof (wf_spend spend Vs Hs) as Ws.
  pose proof (catalog_match_binary64 plan coverage Hin) as Hm.
  unfold employerMatchFor in *.
  pose proof (wf_above _ c1 Hm V1 H1) as W1.
  pose proof (wf_above _ c2 Hm V2 H2) as W2.
  change (SFleb (hsaMatch plan coverage) c1 = true) in H1.
  change (SFleb (hsaMatch plan coverage) c2 = true) in H2.
  rewrite (RoundingFacts.SFleb_ord _ _ Hm W1) in H1.
  rewrite (RoundingFacts.SFleb_ord _ _ Hm W2) in H2.
  apply Z.leb_le in H1, H2.
  assert (Hh : forall c, hsaBenefit (calcPlan coverage c spend plan)
                         = Binary64.Math_min c (hsaMatch plan coverage)).
  { intros c. unfold calcPlan. now destruct (thresholdsFor plan coverage). }
  destruct (Binary64Facts.Math_min_spec _ _ W1 Hm) as [Wh1 Oh1].
  destruct (Binary64Facts.Math_min_spec _ _ W2 Hm) as [Wh2 Oh2].
  pose proof (catalog_thresholds_binary64 plan coverage Hin) as Hok.
  pose proof (catalog_row_ok plan coverage Hin) as Hrow.
  destruct (thresholdsFor plan coverage) as [d o] eqn:Hth.
  cbn [th_deductible th_oopMax] in Hok.
  destruct (totalSpending_binary64 plan coverage d o Hth Hok Hrow c1 spend W1 Ws Fs)
    as [Ht1 Ot1].
  destruct (totalSpending_binary64 plan coverage d o Hth Hok Hrow c2 spend W2 Ws Fs)
    as [Ht2 Ot2].
  cbv zeta in *. rewrite !annualEmployeePremiumCost_calcPlan in *.
  unfold employerMatchFor in *.
  split; [| split].
  - rewrite Hh. change (SFeqb (Binary64.Math_min c1 (hsaMatch plan coverage))
                              (hsaMatch plan coverage) = true).
    rewrite (Binary64MoreFacts.SFeqb_ord _ _ Wh1 Hm), Oh1. apply Z.eqb_eq. lia.
  - rewrite Hh. change (SFeqb (Binary64.Math_min c2 (hsaMatch plan coverage))
                              (hsaMatch plan coverage) = true).
    rewrite (Binary64MoreFacts.SFeqb_ord _ _ Wh2 Hm), Oh2. apply Z.eqb_eq. lia.
  - change (SFeqb (totalSpending (calcPlan coverage c1 spend plan))
                  (totalSpending (calcPlan coverage c2 spend plan)) = true).
    rewrite (SFeqb_signed _ _ Ht1 Ht2), Ot1, Ot2. apply Z.eqb_eq.
    unfold Rounding.totalZ.
    replace (Z.min (Rounding.ord c1) (Rounding.ord (hsaMatch plan coverage)))
      with (Rounding.ord (hsaMatch plan coverage)) by lia.
    replace (Z.min (Rounding.ord c2) (Rounding.ord (hsaMatch plan coverage)))
      with (Rounding.ord (hsaMatch plan coverage)) by lia.
    reflexivity.
Qed.

(** * The rows, the handler and the summary line *)

(** ** The three regions of the spend *)

(** X3.  The cost before the deductible: for every plan of the catalog,
    every coverage, every contribution and every finite spend [>= 0],
    [preDeductibleCost <= 0] and [|preDeductibleCost|] is at most the
    deductible selected for the coverage; in exact and in binary64
    arithmetic. *)
Theorem preDeductibleCost_bounds :
  (forall (plan : Plan Exact.t) (coverage : Coverage) (spend contribution : Exact.t),
      In plan PLAN_ORDER ->
      Number_isFinite spend = true ->
      (lit 0 <= spend)%js = true ->
      let r := calcPlan coverage contribution spend plan in
      (preDeductibleCost r <= lit 0)%js = true
      /\ (Math_abs (preDeductibleCost r)
          <= th_deductible (thresholdsFor plan coverage))%js = true)
  /\
  (forall (plan : Plan Binary64.t) (coverage : Coverage)
          (spend contribution : Binary64.t),
      In plan PLAN_ORDER ->
      Binary64.is_binary64 spend = true ->
      Number_isFinite spend = true ->
      (lit 0 <= spend)%js = true ->
      let r := calcPlan coverage contribution spend plan in
      (preDeductibleCost r <= lit 0)%js = true
      /\ (Math_abs (preDeductibleCost r)
          <= th_deductible (thresholdsFor plan coverage))%js = true).
Proof.
  split; [exact preDeductibleCost_bounds_exact | exact preDeductibleCost_bounds_binary64].
Qed.

Lemma preDeductibleCost_bounds_witness :
  (let r := calcPlan employee (lit 600) (lit 5000) (hdhpA (num := Exact.t)) in
   (preDeductibleCost r <= lit 0)%js = true
   /\ (Math_abs (preDeductibleCost r)
       <= th_deductible (thresholdsFor hdhpA employee))%js = true)
  /\
  (let r := calcPlan employee (lit 600) (lit 5000) (hdhpA (num := Binary64.t)) in
   (preDeductibleCost r <= lit 0)%js = true
   /\ (Math_abs (preDeductibleCost r)
       <= th_deductible (thresholdsFor hdhpA employee))%js = true).
Proof.
  split.
  - apply (proj1 preDeductibleCost_bounds hdhpA employee (lit 5000) (lit 600)).
    + right; left; reflexivity.
    + reflexivity.
    + reflexivity.
  - apply (proj2 preDeductibleCost_bounds hdhpA employee (lit 5000) (lit 600)).
    + right; left; reflexivity.
    + reflexivity.
    + reflexivity.
    + reflexivity.
Defined.

(** X4.  Within the deductible: for every plan of the catalog, every
    coverage and every contribution, a finite spend between 0 and the
    selected deductible is paid in full and nothing more:
    [postDeductibleCost === 0], [preDeductibleCost === -spend] and
    [|preDeductibleCost| + |postDeductibleCost| === spend]; in exact and in
    binary64 arithmetic. *)
Theorem spend_within_deductible :
  (forall (plan : Plan Exact.t) (coverage : Coverage) (spend contribution : Exact.t),
      In plan PLAN_ORDER ->
      Number_isFinite spend = true ->
      (lit 0 <= spend)%js = true ->
      (spend <= th_deductible (thresholdsFor plan coverage))%js = true ->
      let r := calcPlan coverage contribution spend plan in
      (postDeductibleCost r === lit 0)%js = true
      /\ (preDeductibleCost r === - spend)%js = true
      /\ (outOfPocket r === spend)%js = true)
  /\
  (forall (plan : Plan Binary64.t) (coverage : Coverage)
          (spend contribution : Binary64.t),
      In plan PLAN_ORDER ->
      Binary64.is_binary64 spend = true ->
      Number_isFinite spend = true ->
      (lit 0 <= spend)%js = true ->
      (spend <= th_deductible (thresholdsFor plan coverage))%js = true ->
      let r := calcPlan coverage contribution spend plan in
      (postDeductibleCost r === lit 0)%js = true
      /\ (preDeductibleCost r === - spend)%js = true
      /\ (outOfPocket r === spend)%js = true).
Proof.
  split; [exact within_deductible_exact | exact within_deductible_binary64].
Qed.

Lemma spend_within_deductible_witness :
  (let r := calcPlan employee (lit 600) (lit 1000) (hdhpA (num := Exact.t)) in
   (postDeductibleCost r === lit 0)%js = true
   /\ (preDeductibleCost r === - lit 1000)%js = true
   /\ (outOfPocket r === lit 1000)%js = true)
  /\
  (let r := calcPlan employee (lit 600) (lit 1000) (hdhpA (num := Binary64.t)) in
   (postDeductibleCost r === lit 0)%js = true
   /\ (preDeductibleCost r === - lit 1000)%js = true
   /\ (outOfPocket r === lit 1000)%js = true).
Proof.
  split.
  - apply (proj1 spend_within_deductible hdhpA employee (lit 1000) (lit 600)).
    + right; left; reflexivity.
    + reflexivity.
    + reflexivity.
    + reflexivity.
  - apply (proj2 spend_within_deductible hdhpA employee (lit 1000) (lit 600)).
    + right; left; reflexivity.
    + reflexivity.
    + reflexivity.
    + reflexivity.
    + reflexivity.
Defined.

(** X5.  Between the deductible and the saturation spend
    [deductible + (oopMax - deductible) * 5]: for every plan of the catalog,
    every coverage and every contribution, the whole deductible is paid,
    [preDeductibleCost === -deductible], the cap is idle,
    [postDeductibleCost === -((spend - deductible) * 0.2)], and the two add
    up to [deductible + (spend - deductible) * 0.2]; in exact arithmetic,
    and in binary64 arithmetic with the right-hand sides computed in
    binary64 too. *)
Theorem spend_in_coinsurance_region :
  (forall (plan : Plan Exact.t) (coverage : Coverage) (spend contribution : Exact.t),
      In plan PLAN_ORDER ->
      Number_isFinite spend = true ->
      (spend > th_deductible (thresholdsFor plan coverage))%js = true ->
      (spend <= saturationSpend plan coverage)%js = true ->
      let r := calcPlan coverage contribution spend plan in
      let d := th_deductible (thresholdsFor plan coverage) in
      (preDeductibleCost r === - d)%js = true
      /\ (postDeductibleCost r === - ((spend - d) * coinsuranceRate))%js = true
      /\ (outOfPocket r === d + (spend - d) * coinsuranceRate)%js = true)
  /\
  (forall (plan : Plan Binary64.t) (coverage : Coverage)
          (spend contribution : Binary64.t),
      In plan PLAN_ORDER ->
      Binary64.is_binary64 spend = true ->
      Number_isFinite spend = true ->
      (spend > th_deductible (thresholdsFor plan coverage))%js = true ->
      (spend <= saturationSpend plan coverage)%js = true ->
      let r := calcPlan coverage contribution spend plan in
      let d := th_deductible (thresholdsFor plan coverage) in
      (preDeductibleCost r === - d)%js = true
      /\ (postDeductibleCost r === - ((spend - d) * coinsuranceRate))%js = true
      /\ (outOfPocket r === d + (spend - d) * coinsuranceRate)%js = true).
Proof.
  split; [exact coinsurance_exact | exact coinsurance_binary64].
Qed.

Lemma spend_in_coinsurance_region_witness :
  (let r := calcPlan employee (lit 600) (lit 5000) (hdhpA (num := Exact.t)) in
   let d := th_deductible (thresholdsFor (hdhpA (num := Exact.t)) employee) in
   (preDeductibleCost r === - d)%js = true
   /\ (postDeductibleCost r === - ((lit 5000 - d) * coinsuranceRate))%js = true
   /\ (outOfPocket r === d + (lit 5000 - d) * coinsuranceRate)%js = true)
  /\
  (let r := calcPlan employee (lit 600) (lit 5000) (hdhpA (num := Binary64.t)) in
   let d := th_deductible (thresholdsFor (hdhpA (num := Binary64.t)) employee) in
   (preDeductibleCost r === - d)%js = true
   /\ (postDeductibleCost r === - ((lit 5000 - d) * coinsuranceRate))%js = true
   /\ (outOfPocket r === d + (lit 5000 - d) * coinsuranceRate)%js = true).
Proof.
  split.
  - apply (proj1 spend_in_coinsurance_region hdhpA employee (lit 5000) (lit 600)).
    + right; left; reflexivity.
    + reflexivity.
    + reflexivity.
    + reflexivity.
  - apply (proj2 spend_in_coinsurance_region hdhpA employee (lit 5000) (lit 600)).
    + right; left; reflexivity.
    + reflexivity.
    + reflexivity.
    + reflexivity.
    + reflexivity.
Defined.

(** X6.  Saturation: for every plan of the catalog, every coverage and
    every contribution, a finite spend of at least
    [deductible + (oopMax - deductible) * 5] costs exactly the out-of-pocket
    maximum, [|preDeductibleCost| + |postDeductibleCost| === oopMax]; in
    exact and in binary64 arithmetic. *)
Theorem out_of_pocket_saturates :
  (forall (plan : Plan Exact.t) (coverage : Coverage) (spend contribution : Exact.t),
      In plan PLAN_ORDER ->
      Number_isFinite spend = true ->
      (saturationSpend plan coverage <= spend)%js = true ->
      (outOfPocket (calcPlan coverage contribution spend plan)
       === th_oopMax (thresholdsFor plan coverage))%js = true)
  /\
  (forall (plan : Plan Binary64.t) (coverage : Coverage)
          (spend contribution : Binary64.t),
      In plan PLAN_ORDER ->
      Binary64.is_binary64 spend = true ->
      Number_isFinite spend = true ->
      (saturationSpend plan coverage <= spend)%js = true ->
      (outOfPocket (calcPlan coverage contribution spend plan)
       === th_oopMax (thresholdsFor plan coverage))%js = true).
Proof.
  split; [exact saturation_exact | exact saturation_binary64].
Qed.

Lemma out_of_pocket_saturates_witness :
  (outOfPocket (calcPlan employee (lit 600) (lit 20000) (hdhpA (num := Exact.t)))
   === th_oopMax (thresholdsFor hdhpA employee))%js = true
  /\
  (outOfPocket (calcPlan employee (lit 600) (lit 20000) (hdhpA (num := Binary64.t)))
   === th_oopMax (thresholdsFor hdhpA employee))%js = true.
Proof.
  split.
  - apply (proj1 out_of_pocket_saturates hdhpA employee (lit 20000) (lit 600)).
    + right; left; reflexivity.
    + reflexivity.
    + reflexivity.
  - apply (proj2 out_of_pocket_saturates hdhpA employee (lit 20000) (lit 600)).
    + right; left; reflexivity.
    + reflexivity.
    + reflexivity.
    + reflexivity.
Defined.

(** X7.  A negative spend is not rejected by the calculation: for every
    plan of the catalog, every coverage and every contribution, a finite
    spend [< 0] gives [postDeductibleCost === 0] and a positive
    [preDeductibleCost === -spend], counted as [-spend] out of pocket; in
    exact and in binary64 arithmetic. *)
Theorem negative_spend_is_a_gain :
  (forall (plan : Plan Exact.t) (coverage : Coverage) (spend contribution : Exact.t),
      In plan PLAN_ORDER ->
      Number_isFinite spend = true ->
      (spend < lit 0)%js = true ->
      let r := calcPlan coverage contribution spend plan in
      (postDeductibleCost r === lit 0)%js = true
      /\ (preDeductibleCost r === - spend)%js = true
      /\ (preDeductibleCost r > lit 0)%js = true
      /\ (outOfPocket r === - spend)%js = true)
  /\
  (forall (plan : Plan Binary64.t) (coverage : Coverage)
          (spend contribution : Binary64.t),
      In plan PLAN_ORDER ->
      Number_isFinite spend = true ->
      (spend < lit 0)%js = true ->
      let r := calcPlan coverage contribution spend plan in
      (postDeductibleCost r === lit 0)%js = true
      /\ (preDeductibleCost r === - spend)%js = true
      /\ (preDeductibleCost r > lit 0)%js = true
      /\ (outOfPocket r === - spend)%js = true).
Proof.
  split; [exact negative_spend_exact | exact negative_spend_binary64].
Qed.

Lemma negative_spend_is_a_gain_witness :
  (let r := calcPlan family (lit 0) (lit (-500)) (traditional (num := Exact.t)) in
   (postDeductibleCost r === lit 0)%js = true
   /\ (preDeductibleCost r === - lit (-500))%js = true
   /\ (preDeductibleCost r > lit 0)%js = true
   /\ (outOfPocket r === - lit (-500))%js = true)
  /\
  (let r := calcPlan family (lit 0) (lit (-500)) (traditional (num := Binary64.t)) in
   (postDeductibleCost r === lit 0)%js = true
   /\ (preDeductibleCost r === - lit (-500))%js = true
   /\ (preDeductibleCost r > lit 0)%js = true
   /\ (outOfPocket r === - lit (-500))%js = true).
Proof.
  split.
  - apply (proj1 negative_spend_is_a_gain traditional family (lit (-500)) (lit 0)).
    + left; reflexivity.
    + reflexivity.
    + reflexivity.
  - apply (proj2 negative_spend_is_a_gain traditional family (lit (-500)) (lit 0)).
    + left; reflexivity.
    + reflexivity.
    + reflexivity.
Defined.

(** ** The benefit and the total *)

(** X8.  The HSA benefit of a row is the contribution as far as the plan
    matches it: for every plan of the catalog, every coverage, every spend
    and every finite contribution [>= 0], [0 <= hsaBenefit],
    [hsaBenefit <= contribution], [hsaBenefit <= employerMatchFor], and
    [hsaBenefit] is the contribution when that is at most the match, the
    match otherwise; it is positive exactly when the match cell of the plan
    shows an amount ([employerMatchFor > 0]) and the contribution is
    positive.  In exact and in binary64 arithmetic. *)
Theorem hsaBenefit_is_matched_contribution :
  (forall (plan : Plan Exact.t) (coverage : Coverage) (spend contribution : Exact.t),
      In plan PLAN_ORDER ->
      Number_isFinite contribution = true ->
      (lit 0 <= contribution)%js = true ->
      let r := calcPlan coverage contribution spend plan in
      (lit 0 <= hsaBenefit r)%js = true
      /\ (hsaBenefit r <= contribution)%js = true
      /\ (hsaBenefit r <= employerMatchFor plan coverage)%js = true
      /\ (hsaBenefit r
          === (if (contribution <= employerMatchFor plan coverage)%js
               then contribution else employerMatchFor plan coverage))%js = true
      /\ (hsaBenefit r > lit 0)%js
         = ((employerMatchFor plan coverage > lit 0)%js && (contribution > lit 0)%js))
  /\
  (forall (plan : Plan Binary64.t) (coverage : Coverage)
          (spend contribution : Binary64.t),
      In plan PLAN_ORDER ->
      Binary64.is_binary64 contribution = true ->
      Number_isFinite contribution = true ->
      (lit 0 <= contribution)%js = true ->
      let r := calcPlan coverage contribution spend plan in
      (lit 0 <= hsaBenefit r)%js = true
      /\ (hsaBenefit r <= contribution)%js = true
      /\ (hsaBenefit r <= employerMatchFor plan coverage)%js = true
      /\ (hsaBenefit r
          === (if (contribution <= employerMatchFor plan coverage)%js
               then contribution else employerMatchFor plan coverage))%js = true
      /\ (hsaBenefit r > lit 0)%js
         = ((employerMatchFor plan coverage > lit 0)%js && (contribution > lit 0)%js)).
Proof.
  split.
  - intros plan coverage spend contribution Hin Hfin Hpos r.
    destruct (hsaBenefit_props_exact plan coverage spend contribution Hin Hfin Hpos)
      as (H1 & H2 & H3 & H4).
    repeat (split; [assumption |]).
    now apply hsaBenefit_positive_exact.
  - intros plan coverage spend contribution Hin Hv Hfin Hpos r.
    destruct (hsaBenefit_props_binary64 plan coverage spend contribution Hin Hv Hfin Hpos)
      as (H1 & H2 & H3 & H4).
    repeat (split; [assumption |]).
    now apply hsaBenefit_positive_binary64.
Qed.

Lemma hsaBenefit_is_matched_contribution_witness :
  (let p := hdhpA (num := Exact.t) in
   let c := lit (num := Exact.t) 900 in
   let r := calcPlan employee c (lit 5000) p in
   (lit 0 <= hsaBenefit r)%js = true
   /\ (hsaBenefit r <= c)%js = true
   /\ (hsaBenefit r <= employerMatchFor p employee)%js = true
   /\ (hsaBenefit r
       === (if (c <= employerMatchFor p employee)%js
            then c else employerMatchFor p employee))%js = true
   /\ (hsaBenefit r > lit 0)%js
      = ((employerMatchFor p employee > lit 0)%js && (c > lit 0)%js))
  /\
  (let p := hdhpA (num := Binary64.t) in
   let c := lit (num := Binary64.t) 900 in
   let r := calcPlan employee c (lit 5000) p in
   (lit 0 <= hsaBenefit r)%js = true
   /\ (hsaBenefit r <= c)%js = true
   /\ (hsaBenefit r <= employerMatchFor p employee)%js = true
   /\ (hsaBenefit r
       === (if (c <= employerMatchFor p employee)%js
            then c else employerMatchFor p employee))%js = true
   /\ (hsaBenefit r > lit 0)%js
      = ((employerMatchFor p employee > lit 0)%js && (c > lit 0)%js)).
Proof.
  split; cbv zeta.
  - apply (proj1 hsaBenefit_is_matched_contribution hdhpA employee (lit 5000) (lit 900)).
    + right; left; reflexivity.
    + reflexivity.
    + reflexivity.
  - apply (proj2 hsaBenefit_is_matched_contribution hdhpA employee (lit 5000) (lit 900)).
    + right; left; reflexivity.
    + reflexivity.
    + reflexivity.
    + reflexivity.
Defined.

(** X9.  The total of a row lies between the worst and the best case: for
    every plan of the catalog, every coverage, every finite spend [>= 0]
    and every finite contribution [>= 0],
    [annualEmployeePremiumCost - oopMax <= totalSpending] and
    [totalSpending <= annualEmployeePremiumCost + employerMatchFor].  In
    exact arithmetic, and in binary64 arithmetic with the two bounds
    computed in binary64 too. *)
Theorem totalSpending_bounds :
  (forall (plan : Plan Exact.t) (coverage : Coverage) (spend contribution : Exact.t),
      In plan PLAN_ORDER ->
      Number_isFinite spend = true ->
      Number_isFinite contribution = true ->
      (lit 0 <= spend)%js = true ->
      (lit 0 <= contribution)%js = true ->
      let r := calcPlan coverage contribution spend plan in
      (annualEmployeePremiumCost r - th_oopMax (thresholdsFor plan coverage)
       <= totalSpending r)%js = true
      /\ (totalSpending r
          <= annualEmployeePremiumCost r + employerMatchFor plan coverage)%js = true)
  /\
  (forall (plan : Plan Binary64.t) (coverage : Coverage)
          (spend contribution : Binary64.t),
      In plan PLAN_ORDER ->
      Binary64.is_binary64 spend = true ->
      Binary64.is_binary64 contribution = true ->
      Number_isFinite spend = true ->
      (lit 0 <= spend)%js = true ->
      (lit 0 <= contribution)%js = true ->
      let r := calcPlan coverage contribution spend plan in
      (annualEmployeePremiumCost r - th_oopMax (thresholdsFor plan coverage)
       <= totalSpending r)%js = true
      /\ (totalSpending r
          <= annualEmployeePremiumCost r + employerMatchFor plan coverage)%js = true).
Proof.
  split; [exact totalSpending_bounds_exact | exact totalSpending_bounds_binary64].
Qed.

Lemma totalSpending_bounds_witness :
  (let r := calcPlan employee (lit 600) (lit 5000) (hdhpA (num := Exact.t)) in
   (annualEmployeePremiumCost r - th_oopMax (thresholdsFor hdhpA employee)
    <= totalSpending r)%js = true
   /\ (totalSpending r
       <= annualEmployeePremiumCost r + employerMatchFor hdhpA employee)%js = true)
  /\
  (let r := calcPlan employee (lit 600) (lit 5000) (hdhpA (num := Binary64.t)) in
   (annualEmployeePremiumCost r - th_oopMax (thresholdsFor hdhpA employee)
    <= totalSpending r)%js = true
   /\ (totalSpending r
       <= annualEmployeePremiumCost r + employerMatchFor hdhpA employee)%js = true).
Proof.
  split.
  - apply (proj1 totalSpending_bounds hdhpA employee (lit 5000) (lit 600)).
    + right; left; reflexivity.
    + reflexivity.
    + reflexivity.
    + reflexivity.
    + reflexivity.
  - apply (proj2 totalSpending_bounds hdhpA employee (lit 5000) (lit 600)).
    + right; left; reflexivity.
    + reflexivity.
    + reflexivity.
    + reflexivity.
    + reflexivity.
    + reflexivity.
Defined.

(** X10.  The total of a row does not grow with the spend and does not
    shrink with the contribution: for every plan of the catalog and every
    coverage, finite spends [s1 <= s2] and finite contributions [c1 <= c2]
    give [totalSpending] at ([c1], [s2]) [<=] [totalSpending] at
    ([c2], [s1]).  In exact arithmetic, and for non-negative spends and
    contributions in binary64 arithmetic, the three additions rounded. *)
Theorem totalSpending_monotone :
  (forall (plan : Plan Exact.t) (coverage : Coverage) (s1 s2 c1 c2 : Exact.t),
      In plan PLAN_ORDER ->
      Number_isFinite s1 = true -> Number_isFinite s2 = true ->
      Number_isFinite c1 = true -> Number_isFinite c2 = true ->
      (s1 <= s2)%js = true ->
      (c1 <= c2)%js = true ->
      (totalSpending (calcPlan coverage c1 s2 plan)
       <= totalSpending (calcPlan coverage c2 s1 plan))%js = true)
  /\
  (forall (plan : Plan Binary64.t) (coverage : Coverage) (s1 s2 c1 c2 : Binary64.t),
      In plan PLAN_ORDER ->
      Binary64.is_binary64 s1 = true -> Binary64.is_binary64 s2 = true ->
      Binary64.is_binary64 c1 = true -> Binary64.is_binary64 c2 = true ->
      Number_isFinite s1 = true -> Number_isFinite s2 = true ->
      (lit 0 <= s1)%js = true -> (s1 <= s2)%js = true ->
      (lit 0 <= c1)%js = true -> (c1 <= c2)%js = true ->
      (totalSpending (calcPlan coverage c1 s2 plan)
       <= totalSpending (calcPlan coverage c2 s1 plan))%js = true).
Proof.
  split; [exact totalSpending_monotone_exact | exact totalSpending_monotone_binary64].
Qed.

Lemma totalSpending_monotone_witness :
  (totalSpending (calcPlan family (lit 0) (lit 20000) (hdhpB (num := Exact.t)))
   <= totalSpending (calcPlan family (lit 500) (lit 9000) hdhpB))%js = true
  /\
  (totalSpending (calcPlan family (lit 0) (lit 20000) (hdhpB (num := Binary64.t)))
   <= totalSpending (calcPlan family (lit 500) (lit 9000) hdhpB))%js = true.
Proof.
  split.
  - apply (proj1 totalSpending_monotone hdhpB family
             (lit 9000) (lit 20000) (lit 0) (lit 500)); try reflexivity.
    right; right; left; reflexivity.
  - apply (proj2 totalSpending_monotone hdhpB family
             (lit 9000) (lit 20000) (lit 0) (lit 500)); try reflexivity.
    right; right; left; reflexivity.
Defined.

(** ** The contribution input *)

(** X11.  What [onSetContribution] stores, case by case on the number
    that arrives: 0 for [NaN] and the two infinities, 0 for a number
    [< 0], the cap [coverageMaxHSA] of the selected coverage for a finite
    number above it, and the number itself (up to [===]) when it lies
    within [[0, cap]].  In exact arithmetic, and in binary64 arithmetic for
    every number whatever. *)
Theorem onSetContribution_cases :
  (forall (st : State Exact.t) (val : Exact.t),
      let c' := employeeContribution (onSetContribution st val) in
      let cap := coverageMaxHSA (coverage st) in
      (Number_isFinite val = false -> c' = lit 0)
      /\ ((val < lit 0)%js = true -> c' = lit 0)
      /\ (Number_isFinite val = true -> (val > cap)%js = true -> c' = cap)
      /\ ((lit 0 <= val)%js = true -> (val <= cap)%js = true ->
          (c' === val)%js = true))
  /\
  (forall (st : State Binary64.t) (val : Binary64.t),
      let c' := employeeContribution (onSetContribution st val) in
      let cap := coverageMaxHSA (coverage st) in
      (Number_isFinite val = false -> c' = lit 0)
      /\ ((val < lit 0)%js = true -> c' = lit 0)
      /\ (Number_isFinite val = true -> (val > cap)%js = true -> c' = cap)
      /\ ((lit 0 <= val)%js = true -> (val <= cap)%js = true ->
          (c' === val)%js = true)).
Proof.
  split; [exact onSetContribution_cases_exact | exact onSetContribution_cases_binary64].
Qed.

Lemma onSetContribution_cases_witness :
  employeeContribution (onSetContribution (initialState (num := Exact.t)) (lit 9000))
  = coverageMaxHSA family
  /\ employeeContribution (onSetContribution (initialState (num := Binary64.t)) (lit (-3)))
     = lit 0.
Proof.
  split.
  - apply (proj1 (proj2 (proj2 (proj1 onSetContribution_cases initialState (lit 9000)))));
      reflexivity.
  - apply (proj1 (proj2 (proj2 onSetContribution_cases initialState (lit (-3)))));
      reflexivity.
Defined.

(** X12.  Clamping is idempotent: feeding the stored contribution back
    into [onSetContribution] stores the same number again (up to [===]),
    whatever number arrived first; in exact and in binary64 arithmetic. *)
Theorem onSetContribution_idempotent :
  (forall (st : State Exact.t) (val : Exact.t),
      let st' := onSetContribution st val in
      (employeeContribution (onSetContribution st' (employeeContribution st'))
       === employeeContribution st')%js = true)
  /\
  (forall (st : State Binary64.t) (val : Binary64.t),
      let st' := onSetContribution st val in
      (employeeContribution (onSetContribution st' (employeeContribution st'))
       === employeeContribution st')%js = true).
Proof.
  split; [exact onSetContribution_idempotent_exact
         | exact onSetContribution_idempotent_binary64].
Qed.

(** X13.  The range of the stored contribution along a run.  A
    contribution input always leaves a finite contribution within
    [[0, coverageMaxHSA]] of the selected coverage, whatever the state and
    the number; the initial state is in range; and from a state in range,
    every sequence of events that never selects the coverage [employee]
    ends in range.  In exact and in binary64 arithmetic. *)
Theorem contribution_in_range_along_run :
  (contributionInRange (initialState (num := Exact.t)) = true
   /\ (forall (st : State Exact.t) (val : Exact.t),
          contributionInRange (handle st (ContributionChange val)) = true)
   /\ (forall (evs : list (Event Exact.t)) (st : State Exact.t),
          contributionInRange st = true ->
          forallb (fun ev => negb (selectsEmployee ev)) evs = true ->
          contributionInRange (run evs st) = true))
  /\
  (contributionInRange (initialState (num := Binary64.t)) = true
   /\ (forall (st : State Binary64.t) (val : Binary64.t),
          contributionInRange (handle st (ContributionChange val)) = true)
   /\ (forall (evs : list (Event Binary64.t)) (st : State Binary64.t),
          contributionInRange st = true ->
          forallb (fun ev => negb (selectsEmployee ev)) evs = true ->
          contributionInRange (run evs st) = true)).
Proof.
  split; (split; [reflexivity | split]).
  - exact onSetContribution_contributionInRange_exact.
  - exact (run_contributionInRange onSetContribution_contributionInRange_exact
             le_cap_family_exact).
  - exact onSetContribution_contributionInRange_binary64.
  - exact (run_contributionInRange onSetContribution_contributionInRange_binary64
             le_cap_family_binary64).
Qed.

Lemma contribution_in_range_along_run_witness :
  contributionInRange
    (run [ContributionChange (lit 8000); CoverageChange spouse;
          ExpectedSpendChange (lit (-5))] (initialState (num := Exact.t))) = true
  /\
  contributionInRange
    (run [ContributionChange (lit 8000); CoverageChange spouse;
          ExpectedSpendChange (lit (-5))] (initialState (num := Binary64.t))) = true.
Proof.
  split.
  - apply (proj2 (proj2 (proj1 contribution_in_range_along_run))); reflexivity.
  - apply (proj2 (proj2 (proj2 contribution_in_range_along_run))); reflexivity.
Defined.

(** ** The summary line *)

(** X14.  The summary line agrees with the table: in every render whose
    stored contribution is finite (and, in binary64 arithmetic, a number
    [>= 0]), the amount of "Total Contribution Including Nu Skin Match" is
    the contribution plus the [hsaBenefit] of every row whose plan shows a
    match ([employerMatchFor > 0]). *)
Theorem summary_matches_rows :
  (forall (st : State Exact.t) (r : Result Exact.t),
      In r (render st) ->
      (employerMatchFor (plan r) (coverage st) > lit 0)%js = true ->
      Number_isFinite (employeeContribution st) = true ->
      (totalInclMatch st === employeeContribution st + hsaBenefit r)%js = true)
  /\
  (forall (st : State Binary64.t) (r : Result Binary64.t),
      In r (render st) ->
      (employerMatchFor (plan r) (coverage st) > lit 0)%js = true ->
      Binary64.is_binary64 (employeeContribution st) = true ->
      Number_isFinite (employeeContribution st) = true ->
      (lit 0 <= employeeContribution st)%js = true ->
      (totalInclMatch st === employeeContribution st + hsaBenefit r)%js = true).
Proof.
  split.
  - intros st r Hr. unfold render, calcResults in Hr.
    apply in_map_iff in Hr as (p & <- & Hp). rewrite plan_calcPlan.
    now apply summary_matches_row_exact.
  - intros st r Hr. unfold render, calcResults in Hr.
    apply in_map_iff in Hr as (p & <- & Hp). rewrite plan_calcPlan.
    now apply summary_matches_row_binary64.
Qed.

Lemma summary_matches_rows_witness :
  (let st := run [ContributionChange (lit 300)] (initialState (num := Exact.t)) in
   (totalInclMatch st
    === employeeContribution st
        + hsaBenefit (calcPlan (coverage st) (employeeContribution st)
                        (expectedSpend st) hdhpA))%js = true)
  /\
  (let st := run [ContributionChange (lit 300)] (initialState (num := Binary64.t)) in
   (totalInclMatch st
    === employeeContribution st
        + hsaBenefit (calcPlan (coverage st) (employeeContribution st)
                        (expectedSpend st) hdhpA))%js = true).
Proof.
  split; cbv zeta.
  - apply (proj1 summary_matches_rows).
    + right; left; reflexivity.
    + reflexivity.
    + reflexivity.
  - apply (proj2 summary_matches_rows).
    + right; left; reflexivity.
    + reflexivity.
    + reflexivity.
    + reflexivity.
    + reflexivity.
Defined.

(** ** The coverages other than [employee] *)

Section CoverageTiers.

Context {num : Type} `{Number num}.

(** X15.  The three coverages other than [employee] differ in the premium
    only: for every plan of the catalog, two coverages that are not
    [employee] select the same thresholds, the same employer match and the
    same HSA maximum, and every contribution and spend give the same
    [hsaBenefit], [preDeductibleCost] and [postDeductibleCost]; the summary
    line is the same too.  For any interpretation of the numbers. *)
Theorem non_employee_coverages_share_costs
    (plan : Plan num) (c1 c2 : Coverage) (contribution spend : num) :
  In plan PLAN_ORDER ->
  c1 <> employee -> c2 <> employee ->
  let r1 := calcPlan c1 contribution spend plan in
  let r2 := calcPlan c2 contribution spend plan in
  thresholdsFor plan c1 = thresholdsFor plan c2
  /\ employerMatchFor plan c1 = employerMatchFor plan c2
  /\ coverageMaxHSA (num := num) c1 = coverageMaxHSA c2
  /\ maxMatchForCoverage (num := num) c1 = maxMatchForCoverage c2
  /\ hsaBenefit r1 = hsaBenefit r2
  /\ preDeductibleCost r1 = preDeductibleCost r2
  /\ postDeductibleCost r1 = postDeductibleCost r2.
Proof.
  intros Hin H1 H2.
  destruct c1; try (exfalso; apply H1; reflexivity);
    destruct c2; try (exfalso; apply H2; reflexivity);
    destruct Hin as [<- | [<- | [<- | []]]];
    cbv zeta; repeat split; reflexivity.
Qed.

End CoverageTiers.

Lemma non_employee_coverages_share_costs_witness :
  let r1 := calcPlan spouse (lit 600) (lit 5000) (hdhpB (num := Binary64.t)) in
  let r2 := calcPlan family (lit 600) (lit 5000) (hdhpB (num := Binary64.t)) in
  thresholdsFor (hdhpB (num := Binary64.t)) spouse = thresholdsFor hdhpB family
  /\ employerMatchFor (hdhpB (num := Binary64.t)) spouse = employerMatchFor hdhpB family
  /\ coverageMaxHSA (num := Binary64.t) spouse = coverageMaxHSA family
  /\ maxMatchForCoverage (num := Binary64.t) spouse = maxMatchForCoverage family
  /\ hsaBenefit r1 = hsaBenefit r2
  /\ preDeductibleCost r1 = preDeductibleCost r2
  /\ postDeductibleCost r1 = postDeductibleCost r2.
Proof.
  cbv zeta.
  apply (non_employee_coverages_share_costs hdhpB spouse family (lit 600) (lit 5000)).
  - right; right; left; reflexivity.
  - discriminate.
  - discriminate.
Defined.

(** ** A contribution above the match *)

(** X16.  The rows depend on the contribution only up to the employer
    match: for every plan of the catalog, every coverage and every finite
    spend [>= 0], two contributions that are both at least
    [employerMatchFor] give [hsaBenefit === employerMatchFor] and the same
    [totalSpending] (up to [===]); the other three costs do not read the
    contribution.  So a contribution above [coverageMaxHSA] changes no cell
    of the calculated costs.  In exact and in binary64 arithmetic. *)
Theorem rows_ignore_contribution_above_match :
  (forall (plan : Plan Exact.t) (coverage : Coverage) (spend c1 c2 : Exact.t),
      In plan PLAN_ORDER ->
      Number_isFinite spend = true ->
      Number_isFinite c1 = true -> Number_isFinite c2 = true ->
      (c1 >= employerMatchFor plan coverage)%js = true ->
      (c2 >= employerMatchFor plan coverage)%js = true ->
      let r1 := calcPlan coverage c1 spend plan in
      let r2 := calcPlan coverage c2 spend plan in
      (hsaBenefit r1 === employerMatchFor plan coverage)%js = true
      /\ (hsaBenefit r2 === employerMatchFor plan coverage)%js = true
      /\ (totalSpending r1 === totalSpending r2)%js = true
      /\ annualEmployeePremiumCost r1 = annualEmployeePremiumCost r2
      /\ preDeductibleCost r1 = preDeductibleCost r2
      /\ postDeductibleCost r1 = postDeductibleCost r2)
  /\
  (forall (plan : Plan Binary64.t) (coverage : Coverage) (spend c1 c2 : Binary64.t),
      In plan PLAN_ORDER ->
      Binary64.is_binary64 spend = true ->
      Number_isFinite spend = true ->
      (lit 0 <= spend)%js = true ->
      Binary64.is_binary64 c1 = true -> Binary64.is_binary64 c2 = true ->
      (c1 >= employerMatchFor plan coverage)%js = true ->
      (c2 >= employerMatchFor plan coverage)%js = true ->
      let r1 := calcPlan coverage c1 spend plan in
      let r2 := calcPlan coverage c2 spend plan in
      (hsaBenefit r1 === employerMatchFor plan coverage)%js = true
      /\ (hsaBenefit r2 === employerMatchFor plan coverage)%js = true
      /\ (totalSpending r1 === totalSpending r2)%js = true
      /\ annualEmployeePremiumCost r1 = annualEmployeePremiumCost r2
      /\ preDeductibleCost r1 = preDeductibleCost r2
      /\ postDeductibleCost r1 = postDeductibleCost r2).
Proof.
  split.
  - intros plan coverage spend c1 c2 Hin Hfs Hf1 Hf2 H1 H2 r1 r2.
    destruct (contribution_above_match_exact plan coverage spend c1 c2
                Hin Hfs Hf1 Hf2 H1 H2) as (A & B & C).
    repeat (split; [assumption |]).
    subst r1 r2. unfold calcPlan. destruct (thresholdsFor plan coverage).
    repeat split.
  - intros plan coverage spend c1 c2 Hin Vs Fs Hs V1 V2 H1 H2 r1 r2.
    destruct (contribution_above_match_binary64 plan coverage spend c1 c2
                Hin Vs Fs Hs V1 V2 H1 H2) as (A & B & C).
    repeat (split; [assumption |]).
    subst r1 r2. unfold calcPlan. destruct (thresholdsFor plan coverage).
    repeat split.
Qed.

Lemma rows_ignore_contribution_above_match_witness :
  (let r1 := calcPlan employee (lit 8000) (lit 5000) (hdhpA (num := Exact.t)) in
   let r2 := calcPlan employee (lit 4400) (lit 5000) (hdhpA (num := Exact.t)) in
   (hsaBenefit r1 === employerMatchFor hdhpA employee)%js = true
   /\ (hsaBenefit r2 === employerMatchFor hdhpA employee)%js = true
   /\ (totalSpending r1 === totalSpending r2)%js = true
   /\ annualEmployeePremiumCost r1 = annualEmployeePremiumCost r2
   /\ preDeductibleCost r1 = preDeductibleCost r2
   /\ postDeductibleCost r1 = postDeductibleCost r2)
  /\
  (let r1 := calcPlan employee (lit 8000) (lit 5000) (hdhpA (num := Binary64.t)) in
   let r2 := calcPlan employee (lit 4400) (lit 5000) (hdhpA (num := Binary64.t)) in
   (hsaBenefit r1 === employerMatchFor hdhpA employee)%js = true
   /\ (hsaBenefit r2 === employerMatchFor hdhpA employee)%js = true
   /\ (totalSpending r1 === totalSpending r2)%js = true
   /\ annualEmployeePremiumCost r1 = annualEmployeePremiumCost r2
   /\ preDeductibleCost r1 = preDeductibleCost r2
   /\ postDeductibleCost r1 = postDeductibleCost r2).
Proof.
  split; cbv zeta.
  - apply (proj1 rows_ignore_contribution_above_match hdhpA employee
             (lit 5000) (lit 8000) (lit 4400)); try reflexivity.
    right; left; reflexivity.
  - apply (proj2 rows_ignore_contribution_above_match hdhpA employee
             (lit 5000) (lit 8000) (lit 4400)); try reflexivity.
    right; left; reflexivity.
Defined.
